(** * ep-engine DCP: connection map, backfill admission, checkpoint processor
      queue and the UPR consumer entry points.

    A shallow embedding of
    - [DcpConnMap] (its implementation file): the connection registry,
      passive stream admission, the reaper pass and the backfill admission
      counters;
    - [ActiveStreamCheckpointProcessorTask] (src/dcp/stream.h): the unique
      work queue;
    - the UPR consumer entry points of [EventuallyPersistentEngine]
      (src/upr-consumer.cc).

    Machine integers are [Z] with the wrap-around written where the code can
    wrap; [double] arithmetic is IEEE-754 binary64 as specified by the
    standard library's [SpecFloat]. *)

From Stdlib Require Import ZArith Lia Bool List.
From Stdlib Require Import Reals Lra.
From Stdlib Require Import Floats.SpecFloat.
From stdpp Require Import gmap strings list fin_maps sorting.

Local Open Scope Z_scope.

(** ** Machine integers *)

Definition wrap (bits : Z) (x : Z) : Z := x mod 2 ^ bits.
Definition uint16 (x : Z) : Z := wrap 16 x.
Definition uint32 (x : Z) : Z := wrap 32 x.
Definition size_t_bits : Z := 64.
Definition SIZE_MAX : Z := 2 ^ size_t_bits - 1.

(** ** ENGINE_ERROR_CODE (the members the modelled code returns) *)

Inductive ENGINE_ERROR_CODE :=
| ENGINE_SUCCESS
| ENGINE_KEY_ENOENT
| ENGINE_KEY_EEXISTS
| ENGINE_ENOMEM
| ENGINE_NOT_STORED
| ENGINE_EINVAL
| ENGINE_ENOTSUP
| ENGINE_EWOULDBLOCK
| ENGINE_E2BIG
| ENGINE_WANT_MORE
| ENGINE_DISCONNECT
| ENGINE_EACCESS
| ENGINE_NOT_MY_VBUCKET
| ENGINE_TMPFAIL
| ENGINE_FAILED.

(** ** Backfill admission counters of DcpConnMap *)

Module Backfill.

(** binary64: 53 bits of precision, exponent of the infinities 1024. *)
Definition prec : Z := 53.
Definition emax : Z := 1024.
Definition double := spec_float.

(** Conversion of an unsigned integer to [double] (round to nearest even). *)
Definition double_of_Z (n : Z) : double := binary_normalize prec emax n 0 false.
Definition dmul : double -> double -> double := SFmul prec emax.
Definition ddiv : double -> double -> double := SFdiv prec emax.

(** The integer part of a positive finite [double]. *)
Definition truncate (m : positive) (e : Z) : Z :=
  match e with
  | Z0 => Zpos m
  | Zpos _ => Zpos m * 2 ^ e
  | Zneg _ => Zpos m / 2 ^ (- e)
  end.

(** Conversion of a non-negative finite [double] to [size_t]: the fractional
    part is discarded.  The conversion of a value that does not fit is
    undefined in C++; it is 0 here and never reached from [size_t] inputs. *)
Definition size_t_of_double (x : double) : Z :=
  match x with
  | S754_finite false m e =>
      let t := truncate m e in
      if t <=? SIZE_MAX then t else 0
  | _ => 0
  end.

(** [const uint32_t DcpConnMap::dbFileMem = 10 * 1024;] *)
Definition dbFileMem : Z := 10 * 1024.
(** [const uint16_t DcpConnMap::numBackfillsThreshold = 4096;] *)
Definition numBackfillsThreshold : Z := 4096.
(** [const uint8_t DcpConnMap::numBackfillsMemThreshold = 1;] *)
Definition numBackfillsMemThreshold : Z := 1.

(** The two counters, both guarded by [numBackfillsLock]; they are 16-bit
    unsigned members of DcpConnMap (declared in its header). *)
Record Counters := mkCounters {
  numActiveSnoozingBackfills : Z;
  maxActiveSnoozingBackfills : Z
}.

(** [static_cast<double>(numBackfillsMemThreshold)/100] *)
Definition numBackfillsMemThresholdPercent : double :=
  ddiv (double_of_Z numBackfillsMemThreshold) (double_of_Z 100).

(** [size_t max = maxDataSize * numBackfillsMemThresholdPercent / dbFileMem;] *)
Definition backfillsForDataSize (maxDataSize : Z) : Z :=
  size_t_of_double
    (ddiv (dmul (double_of_Z maxDataSize) numBackfillsMemThresholdPercent)
          (double_of_Z dbFileMem)).

(** [DcpConnMap::updateMaxActiveSnoozingBackfills] *)
Definition updateMaxActiveSnoozingBackfills (maxDataSize : Z) (c : Counters)
  : Counters :=
  let max := backfillsForDataSize maxDataSize in
  {| numActiveSnoozingBackfills := numActiveSnoozingBackfills c;
     maxActiveSnoozingBackfills :=
       uint16 (Z.max 1 (Z.min max numBackfillsThreshold)) |}.

(** [DcpConnMap::canAddBackfillToActiveQ]: the guard and the increment are
    one step, taken with [numBackfillsLock] held. *)
Definition canAddBackfillToActiveQ (c : Counters) : bool * Counters :=
  if numActiveSnoozingBackfills c <? maxActiveSnoozingBackfills c then
    (true,
     {| numActiveSnoozingBackfills := uint16 (numActiveSnoozingBackfills c + 1);
        maxActiveSnoozingBackfills := maxActiveSnoozingBackfills c |})
  else (false, c).

(** [DcpConnMap::decrNumActiveSnoozingBackfills] *)
Definition decrNumActiveSnoozingBackfills (c : Counters) : Counters :=
  if 0 <? numActiveSnoozingBackfills c then
    {| numActiveSnoozingBackfills := uint16 (numActiveSnoozingBackfills c - 1);
       maxActiveSnoozingBackfills := maxActiveSnoozingBackfills c |}
  else c.

(** The constructor: [numActiveSnoozingBackfills = 0] and then
    [updateMaxActiveSnoozingBackfills(engine.getEpStats().getMaxDataSize())]. *)
Definition init (maxDataSize : Z) : Counters :=
  updateMaxActiveSnoozingBackfills maxDataSize
    {| numActiveSnoozingBackfills := 0; maxActiveSnoozingBackfills := 0 |}.

(** The operations on the counters, and runs of them. *)
Inductive Op :=
| OpCanAdd
| OpDecr
| OpUpdateMax (maxDataSize : Z).

Definition step (c : Counters) (o : Op) : Counters :=
  match o with
  | OpCanAdd => snd (canAddBackfillToActiveQ c)
  | OpDecr => decrNumActiveSnoozingBackfills c
  | OpUpdateMax n => updateMaxActiveSnoozingBackfills n c
  end.

Definition run (ops : list Op) (c : Counters) : Counters :=
  fold_left step ops c.

(** The formula of the specification, in exact arithmetic: [maxDataSize]
    times [numBackfillsMemThreshold] percent, divided by [dbFileMem] (the
    integer part), clamped to [1, numBackfillsThreshold]. *)
Definition maxBackfillsFormula (maxDataSize : Z) : Z :=
  Z.max 1
    (Z.min (maxDataSize * numBackfillsMemThreshold / (100 * dbFileMem))
           numBackfillsThreshold).

(** [limitKept ops c]: along the run of [ops] from [c], no
    [updateMaxActiveSnoozingBackfills] sets the limit below the count of
    that moment. *)
Fixpoint limitKept (ops : list Op) (c : Counters) : bool :=
  match ops with
  | [] => true
  | o :: rest =>
      match o with
      | OpUpdateMax n =>
          numActiveSnoozingBackfills c <=?
            maxActiveSnoozingBackfills (updateMaxActiveSnoozingBackfills n c)
      | _ => true
      end && limitKept rest (step c o)
  end.

(** *** Binary64 rounding: shifts, locations and round to nearest even *)

(** [loc_of_rem r den]: where [r/den] lies in [0,1), as a rounding location. *)
Definition loc_of_rem (r den : Z) : location :=
  if r =? 0 then loc_Exact else loc_Inexact (2 * r ?= den).

(** The record is the integer part and the location of [n / den]. *)
Definition represents (mrs : shr_record) (n den : Z) : Prop :=
  shr_m mrs = n / den /\ loc_of_shr_record mrs = loc_of_rem (n mod den) den.

Lemma shr_record_of_loc_represents (m r den : Z) :
  0 <= r < den ->
  represents (shr_record_of_loc m (loc_of_rem r den)) (m * den + r) den.
Proof.
  intros Hr. unfold represents.
  assert (Hd : (m * den + r) / den = m).
  { rewrite Z.add_comm, Z.div_add by lia. rewrite Z.div_small by lia. lia. }
  assert (Hm : (m * den + r) mod den = r).
  { rewrite Z.add_comm, Z.mod_add by lia. apply Z.mod_small. lia. }
  rewrite Hd, Hm. unfold loc_of_rem.
  destruct (r =? 0); [done|]. by destruct (2 * r ?= den).
Qed.

Lemma div_mod_double (n den m b rem : Z) :
  n = den * (2 * m + b) + rem -> 0 <= rem < den -> 0 <= b <= 1 ->
  n / (2 * den) = m /\ n mod (2 * den) = b * den + rem.
Proof.
  intros Hn Hrem Hb.
  assert (Hr : 0 <= b * den + rem < 2 * den) by nia.
  assert (He : n = 2 * den * m + (b * den + rem)) by lia.
  split; symmetry.
  - apply (Z.div_unique n (2 * den) m (b * den + rem)); [by left|done].
  - apply (Z.mod_unique n (2 * den) m (b * den + rem)); [by left|done].
Qed.

Lemma shr_1_represents (mrs : shr_record) (n den : Z) :
  0 <= n -> 0 < den ->
  represents mrs n den -> represents (shr_1 mrs) n (2 * den).
Proof.
  intros Hn Hden [Hm Hl]. destruct mrs as [m r s]. simpl in Hm, Hl.
  pose proof (Z.div_mod n den ltac:(lia)) as Hq.
  pose proof (Z.mod_pos_bound n den Hden) as Hr.
  pose proof (Z.div_pos n den Hn Hden) as Hm0.
  rewrite <- Hm in Hq, Hm0. clear Hm.
  set (rem := n mod den) in *.
  assert (Hs : (r || s) = negb (rem =? 0)).
  { unfold loc_of_rem in Hl. destruct (rem =? 0) eqn:H0.
    - by destruct r, s.
    - by destruct (2 * rem ?= den), r, s. }
  assert (Hcase : forall m' b, m = 2 * m' + b -> 0 <= b <= 1 ->
            represents {| shr_m := m'; shr_r := negb (b =? 0); shr_s := (r || s) |}
                       n (2 * den)).
  { intros m' b -> Hb.
    destruct (div_mod_double n den m' b rem Hq Hr Hb) as [Hd Hmod].
    split; simpl; [done|]. rewrite Hmod, Hs. unfold loc_of_rem.
    assert (b = 0 \/ b = 1) as [->| ->] by lia; simpl.
    - rewrite Z.add_0_l. destruct (rem =? 0) eqn:H0; simpl; [done|].
      apply Z.eqb_neq in H0.
      replace (2 * rem ?= 2 * den) with Lt; [done|].
      symmetry. apply Z.compare_lt_iff. lia.
    - replace (1 * den + rem =? 0) with false
        by (symmetry; apply Z.eqb_neq; lia).
      destruct (rem =? 0) eqn:H0; simpl.
      + apply Z.eqb_eq in H0. rewrite H0.
        replace (2 * (1 * den + 0) ?= 2 * den) with Eq; [done|].
        symmetry. apply Z.compare_eq_iff. lia.
      + replace (2 * (1 * den + rem) ?= 2 * den) with Gt; [done|].
        symmetry. apply Z.compare_gt_iff. apply Z.eqb_neq in H0. lia. }
  destruct m as [|[p|p|]|p]; simpl; try lia.
  - apply (Hcase 0 0); lia.
  - apply (Hcase (Zpos p) 1); lia.
  - apply (Hcase (Zpos p) 0); lia.
  - apply (Hcase 0 1); lia.
Qed.

Lemma pow2_xO (p : positive) : 2 ^ Zpos p~0 = 2 ^ Zpos p * 2 ^ Zpos p.
Proof. rewrite <- Z.pow_add_r by lia. f_equal. lia. Qed.

Lemma pow2_xI (p : positive) : 2 ^ Zpos p~1 = 2 * (2 ^ Zpos p * 2 ^ Zpos p).
Proof.
  rewrite <- Z.pow_add_r by lia. rewrite <- (Z.pow_succ_r 2) by lia.
  f_equal. lia.
Qed.

Lemma iter_pos_shr_1_represents (p : positive) (mrs : shr_record) (n den : Z) :
  0 <= n -> 0 < den ->
  represents mrs n den ->
  represents (SpecFloat.iter_pos shr_1 p mrs) n (den * 2 ^ Zpos p).
Proof.
  intros Hn. revert mrs den.
  induction p as [p IH|p IH|]; intros mrs den Hden Hrep;
    cbn [SpecFloat.iter_pos];
    try pose proof (Z.pow_pos_nonneg 2 (Zpos p) ltac:(lia) ltac:(lia)) as Hpow.
  - replace (den * 2 ^ Zpos p~1) with (2 * den * 2 ^ Zpos p * 2 ^ Zpos p)
      by (rewrite pow2_xI; lia).
    apply IH; [lia|]. apply IH; [lia|]. by apply shr_1_represents.
  - replace (den * 2 ^ Zpos p~0) with (den * 2 ^ Zpos p * 2 ^ Zpos p)
      by (rewrite pow2_xO; lia).
    apply IH; [lia|]. by apply IH.
  - replace (den * 2 ^ 1) with (2 * den) by lia. by apply shr_1_represents.
Qed.

(** [shr] by [k]: the exponent grows by [max 0 k], the denominator by
    [2 ^ max 0 k]. *)
Lemma shr_represents (mrs : shr_record) (e k n den : Z) :
  0 <= n -> 0 < den ->
  represents mrs n den ->
  snd (shr mrs e k) = e + Z.max 0 k /\
  represents (fst (shr mrs e k)) n (den * 2 ^ Z.max 0 k).
Proof.
  intros Hn Hden Hrep. destruct k as [|p|p]; simpl.
  - split; [lia|]. by rewrite Z.mul_1_r.
  - split; [lia|]. by apply iter_pos_shr_1_represents.
  - split; [lia|]. by rewrite Z.mul_1_r.
Qed.

(** Round to nearest even picks an integer within one half of [n / den]. *)
Lemma round_nearest_even_represents (mrs : shr_record) (n den : Z) :
  0 <= n -> 0 < den ->
  represents mrs n den ->
  let m := round_nearest_even (shr_m mrs) (loc_of_shr_record mrs) in
  n / den <= m <= n / den + 1 /\ - den <= 2 * (m * den - n) <= den.
Proof.
  intros Hn Hden [Hm Hl]. simpl. rewrite Hl, Hm.
  pose proof (Z.div_mod n den ltac:(lia)) as Hq.
  pose proof (Z.mod_pos_bound n den Hden) as Hr.
  set (q := n / den) in *. set (rem := n mod den) in *.
  assert (Hq1 : (q + 1) * den = den * q + den) by lia.
  assert (Hq0 : q * den = den * q) by lia.
  unfold loc_of_rem. destruct (rem =? 0) eqn:H0; simpl.
  - apply Z.eqb_eq in H0. rewrite Hq0. lia.
  - destruct (2 * rem ?= den) eqn:Hc.
    + apply Z.compare_eq in Hc.
      destruct (Z.even q); [rewrite Hq0|rewrite Hq1]; lia.
    + rewrite Z.compare_lt_iff in Hc. rewrite Hq0. lia.
    + rewrite Z.compare_gt_iff in Hc. rewrite Hq1. lia.
Qed.

(** *** Number of binary digits *)

Lemma digits2_pos_bounds (p : positive) :
  2 ^ (Zpos (digits2_pos p) - 1) <= Zpos p < 2 ^ Zpos (digits2_pos p).
Proof.
  induction p as [p IH|p IH|]; cbn [digits2_pos].
  - rewrite Pos2Z.inj_succ.
    replace (Z.succ (Zpos (digits2_pos p)) - 1)
      with (Z.succ (Zpos (digits2_pos p) - 1)) by lia.
    rewrite !Z.pow_succ_r by lia. lia.
  - rewrite Pos2Z.inj_succ.
    replace (Z.succ (Zpos (digits2_pos p)) - 1)
      with (Z.succ (Zpos (digits2_pos p) - 1)) by lia.
    rewrite !Z.pow_succ_r by lia. lia.
  - simpl. lia.
Qed.

Lemma Zdigits2_bounds (m : Z) :
  0 < m -> 0 < Zdigits2 m /\ 2 ^ (Zdigits2 m - 1) <= m < 2 ^ Zdigits2 m.
Proof.
  destruct m as [|p|p]; try lia. intros _. simpl.
  split; [lia|]. apply digits2_pos_bounds.
Qed.

Lemma Zdigits2_unique (m d : Z) :
  0 < d -> 2 ^ (d - 1) <= m < 2 ^ d -> Zdigits2 m = d.
Proof.
  intros Hd Hm.
  assert (Hpos : 0 < m).
  { pose proof (Z.pow_pos_nonneg 2 (d - 1) ltac:(lia) ltac:(lia)). lia. }
  destruct (Zdigits2_bounds m Hpos) as [Hd' Hm'].
  assert (d - 1 < Zdigits2 m).
  { apply (Z.pow_lt_mono_r_iff 2); lia. }
  assert (Zdigits2 m - 1 < d).
  { apply (Z.pow_lt_mono_r_iff 2); lia. }
  lia.
Qed.

(** *** Rounding a positive value in the normal range

    [binary_round_aux] on the integer part [M] (of at least 53 digits) and the
    location of [n / den = M + r / den], at exponent [E]: the result is a
    finite positive number with a 53-digit mantissa, within [2 ^ -53] of the
    exact value, relatively. *)
Lemma binary_round_aux_normal (M E r den : Z) :
  0 < M -> 0 < den -> 0 <= r < den ->
  53 <= Zdigits2 M ->
  -1074 <= E + (Zdigits2 M - 53) -> E + (Zdigits2 M - 53) + 1 <= 971 ->
  exists (m : positive) (e : Z),
    binary_round_aux prec emax false M E (loc_of_rem r den)
      = S754_finite false m e /\
    2 ^ 52 <= Zpos m < 2 ^ 53 /\
    E + (Zdigits2 M - 53) <= e <= E + (Zdigits2 M - 53) + 1 /\
    - (M * den + r) <= 2 ^ 53 * (Zpos m * 2 ^ (e - E) * den - (M * den + r))
      <= M * den + r.
Proof.
  intros HM Hden Hr Hd Hlo Hhi.
  destruct (Zdigits2_bounds M HM) as [_ HMb].
  set (d := Zdigits2 M) in *. set (k := d - 53) in *.
  set (n := M * den + r).
  assert (Hn : 0 <= n) by (unfold n; nia).
  assert (Hk : 0 <= k) by lia.
  assert (H2k : 0 < 2 ^ k) by (apply Z.pow_pos_nonneg; lia).
  assert (Hd1 : 2 ^ (d - 1) = 2 ^ 52 * 2 ^ k).
  { rewrite <- Z.pow_add_r by lia. f_equal. lia. }
  assert (Hd2 : 2 ^ d = 2 ^ 53 * 2 ^ k).
  { rewrite <- Z.pow_add_r by lia. f_equal. lia. }
  rewrite Hd1, Hd2 in HMb.
  unfold binary_round_aux, shr_fexp.
  fold d.
  assert (Hfexp : fexp prec emax (d + E) - E = k).
  { unfold fexp, SpecFloat.emin, prec, emax. lia. }
  rewrite Hfexp.
  pose proof (shr_record_of_loc_represents M r den Hr) as Hrep0.
  fold n in Hrep0.
  destruct (shr_represents _ E k n den Hn Hden Hrep0) as [He' Hrep'].
  destruct (shr (shr_record_of_loc M (loc_of_rem r den)) E k) as [mrs' e'].
  simpl in He', Hrep'. rewrite Z.max_r in He', Hrep' by lia.
  assert (Hden' : 0 < den * 2 ^ k) by nia.
  destruct (round_nearest_even_represents mrs' n (den * 2 ^ k) Hn Hden' Hrep')
    as [Hm1 Hnear].
  set (m1 := round_nearest_even (shr_m mrs') (loc_of_shr_record mrs')) in *.
  assert (Hquo : n / (den * 2 ^ k) = M / 2 ^ k).
  { rewrite <- Z.div_div by lia. f_equal. unfold n.
    rewrite Z.add_comm, Z.div_add by lia. rewrite Z.div_small by lia. lia. }
  rewrite Hquo in Hm1.
  assert (HMk : 2 ^ 52 <= M / 2 ^ k < 2 ^ 53).
  { split.
    - apply Z.div_le_lower_bound; lia.
    - apply Z.div_lt_upper_bound; lia. }
  assert (Hm1b : 2 ^ 52 <= m1 <= 2 ^ 53) by lia.
  assert (HnM : 2 ^ 52 * (den * 2 ^ k) <= n) by (unfold n; nia).
  assert (Hrel : - n <= 2 ^ 53 * (m1 * 2 ^ k * den - n) <= n).
  { replace (m1 * 2 ^ k * den) with (m1 * (den * 2 ^ k)) by lia.
    change (2 ^ 53) with (2 * 2 ^ 52). lia. }
  destruct (Z.eq_dec m1 (2 ^ 53)) as [Heq|Hne].
  - rewrite Heq.
    assert (Hsh : fexp prec emax (Zdigits2 (2 ^ 53) + e') - e' = 1).
    { change (Zdigits2 (2 ^ 53)) with 54.
      unfold fexp, SpecFloat.emin, prec, emax. lia. }
    rewrite Hsh. cbn -[Z.pow Z.add Z.leb emax prec].
    exists (2 ^ 52)%positive, (e' + 1).
    assert (Hle : (e' + 1 <=? emax - prec) = true).
    { apply Z.leb_le. unfold emax, prec. lia. }
    change (Z.pos 4503599627370496) with (Z.pos (2 ^ 52)).
    rewrite Hle. split; [done|]. split; [done|].
    split; [unfold k in He'; lia|].
    replace (e' + 1 - E) with (k + 1) by lia.
    rewrite Z.pow_add_r by lia.
    replace (Z.pos (2 ^ 52) * (2 ^ k * 2 ^ 1) * den) with (m1 * 2 ^ k * den).
    + exact Hrel.
    + rewrite Heq. change (Z.pos (2 ^ 52)) with (2 ^ 52).
      change (2 ^ 53) with (2 ^ 52 * 2 ^ 1). lia.
  - assert (Hdm : Zdigits2 m1 = 53) by (apply Zdigits2_unique; lia).
    rewrite Hdm.
    assert (Hsh : fexp prec emax (53 + e') - e' = 0).
    { unfold fexp, SpecFloat.emin, prec, emax. lia. }
    rewrite Hsh. cbn [shr shr_record_of_loc shr_m].
    destruct m1 as [|m|m]; try lia.
    exists m, e'.
    assert (Hle : (e' <=? emax - prec) = true).
    { apply Z.leb_le. unfold emax, prec. lia. }
    rewrite Hle. split; [done|]. split; [lia|].
    split; [unfold k in He'; lia|].
    replace (e' - E) with k by lia. exact Hrel.
Qed.

(** *** Values as real numbers *)

Definition pow2 (e : Z) : R := powerRZ 2 e.

(** The value of a finite positive float with mantissa [m], exponent [e]. *)
Definition F2R (m : positive) (e : Z) : R := (IZR (Zpos m) * pow2 e)%R.

(** [y] is within [2 ^ -53] of [x], relatively. *)
Definition rel_close (y x : R) : Prop :=
  ((9007199254740992 - 1) * x <= 9007199254740992 * y
   /\ 9007199254740992 * y <= (9007199254740992 + 1) * x)%R.

Lemma pow2_pos (e : Z) : (0 < pow2 e)%R.
Proof. apply powerRZ_lt. lra. Qed.

Lemma pow2_add (a b : Z) : pow2 (a + b) = (pow2 a * pow2 b)%R.
Proof. apply powerRZ_add. lra. Qed.

Lemma pow2_IZR (k : Z) : 0 <= k -> pow2 k = IZR (2 ^ k).
Proof.
  intros Hk. unfold pow2. destruct k as [|p|p]; [done| |lia].
  change (2 ^ Z.pos p) with (Z.pow_pos 2 p).
  by rewrite Zpower_pos_powerRZ.
Qed.

Lemma pow2_opp (k : Z) : pow2 (- k) = (/ pow2 k)%R.
Proof. unfold pow2. apply powerRZ_neg'. Qed.

(** The rounding lemma on real values. *)
Lemma binary_round_aux_close (M E r den : Z) :
  0 < M -> 0 < den -> 0 <= r < den ->
  53 <= Zdigits2 M ->
  -1074 <= E + (Zdigits2 M - 53) -> E + (Zdigits2 M - 53) + 1 <= 971 ->
  exists (m : positive) (e : Z),
    binary_round_aux prec emax false M E (loc_of_rem r den)
      = S754_finite false m e /\
    2 ^ 52 <= Zpos m < 2 ^ 53 /\
    E + (Zdigits2 M - 53) <= e <= E + (Zdigits2 M - 53) + 1 /\
    rel_close (F2R m e) (IZR (M * den + r) / IZR den * pow2 E)%R.
Proof.
  intros HM Hden Hr Hd Hlo Hhi.
  destruct (binary_round_aux_normal M E r den HM Hden Hr Hd Hlo Hhi)
    as (m & e & Heq & Hm & He & Hrel).
  exists m, e. split; [done|]. split; [done|]. split; [done|].
  set (n := M * den + r) in *.
  assert (Hee : 0 <= e - E) by lia.
  assert (Hy : F2R m e = (IZR (Z.pos m * 2 ^ (e - E)) * pow2 E)%R).
  { unfold F2R. replace e with ((e - E) + E) at 1 by lia.
    rewrite pow2_add, pow2_IZR, mult_IZR by lia. lra. }
  rewrite Hy. set (a := Z.pos m * 2 ^ (e - E)) in *.
  destruct Hrel as [Hrel1 Hrel2].
  apply IZR_le in Hrel1, Hrel2.
  rewrite opp_IZR, mult_IZR, minus_IZR, mult_IZR in Hrel1.
  rewrite mult_IZR, minus_IZR, mult_IZR in Hrel2.
  change (IZR (2 ^ 53)) with 9007199254740992%R in Hrel1, Hrel2.
  pose proof (pow2_pos E) as HE.
  assert (HD : (0 < IZR den)%R) by (by apply IZR_lt).
  unfold rel_close.
  assert (Hx : (IZR n / IZR den * pow2 E = IZR n * (pow2 E / IZR den))%R)
    by (field; lra).
  assert (Hy' : (IZR a * pow2 E = (IZR a * IZR den) * (pow2 E / IZR den))%R)
    by (field; lra).
  rewrite Hx, Hy'.
  assert (Hc : (0 < pow2 E / IZR den)%R) by (by apply Rdiv_lt_0_compat).
  set (c := (pow2 E / IZR den)%R) in *.
  split.
  - replace ((9007199254740992 - 1) * (IZR n * c))%R
      with (((9007199254740992 - 1) * IZR n) * c)%R by ring.
    replace (9007199254740992 * (IZR a * IZR den * c))%R
      with ((9007199254740992 * (IZR a * IZR den)) * c)%R by ring.
    apply Rmult_le_compat_r; lra.
  - replace ((9007199254740992 + 1) * (IZR n * c))%R
      with (((9007199254740992 + 1) * IZR n) * c)%R by ring.
    replace (9007199254740992 * (IZR a * IZR den * c))%R
      with ((9007199254740992 * (IZR a * IZR den)) * c)%R by ring.
    apply Rmult_le_compat_r; lra.
Qed.

(** *** The three roundings of [updateMaxActiveSnoozingBackfills] *)

(** A 53-digit mantissa. *)
Definition normal (m : positive) : Prop := 2 ^ 52 <= Zpos m < 2 ^ 53.

Lemma Pos_iter_xO (m d : positive) :
  Zpos (Pos.iter xO m d) = Zpos m * 2 ^ Zpos d.
Proof.
  induction d as [|d IH] using Pos.peano_ind.
  - simpl. lia.
  - rewrite Pos.iter_succ, Pos2Z.inj_succ, Z.pow_succ_r by lia.
    change (Zpos (Pos.iter xO m d)~0) with (2 * Zpos (Pos.iter xO m d)).
    rewrite IH. lia.
Qed.

(** Conversion of a positive [size_t] to [double]. *)
Lemma double_of_Z_close (n : Z) :
  0 < n < 2 ^ 64 ->
  exists (m : positive) (e : Z),
    double_of_Z n = S754_finite false m e /\
    normal m /\ -52 <= e <= 12 /\ rel_close (F2R m e) (IZR n).
Proof.
  intros Hn. destruct n as [|p|p]; try lia.
  destruct (Zdigits2_bounds (Zpos p) ltac:(lia)) as [Hd0 Hdb].
  unfold double_of_Z, binary_normalize, binary_round.
  change (Zdigits2 (Zpos p)) with (Zpos (digits2_pos p)) in Hd0, Hdb.
  set (d := Zpos (digits2_pos p)) in *.
  assert (Hd64 : d <= 64).
  { assert (d - 1 < 64); [|lia]. apply (Z.pow_lt_mono_r_iff 2); lia. }
  assert (Hfexp : fexp prec emax (d + 0) = d - 53).
  { unfold fexp, SpecFloat.emin, prec, emax. lia. }
  rewrite Hfexp. unfold shl_align.
  assert (Hbig : 53 <= d ->
    exists (m : positive) (e : Z),
      binary_round_aux prec emax false (Zpos p) 0 loc_Exact
        = S754_finite false m e /\
      normal m /\ -52 <= e <= 12 /\ rel_close (F2R m e) (IZR (Zpos p))).
  { intros H53.
    destruct (binary_round_aux_close (Zpos p) 0 0 1 ltac:(lia) ltac:(lia)
                ltac:(lia) H53
                ltac:(change (Zdigits2 (Zpos p)) with d; lia)
                ltac:(change (Zdigits2 (Zpos p)) with d; lia))
      as (m & e & Heq & Hm & He & Hc).
    exists m, e. change (loc_of_rem 0 1) with loc_Exact in Heq.
    split; [done|]. split; [done|].
    change (Zdigits2 (Zpos p)) with d in He. split; [lia|].
    replace (IZR (Zpos p)) with (IZR (Zpos p * 1 + 0) / IZR 1 * pow2 0)%R; [done|].
    rewrite Z.mul_1_r, Z.add_0_r. unfold pow2.
    change (powerRZ 2 0) with 1%R. lra. }
  destruct (d - 53 - 0) as [|q|q] eqn:Hq.
  - apply Hbig. lia.
  - apply Hbig. lia.
  - assert (Hqd : Zpos q = 53 - d) by lia.
    pose proof (Pos_iter_xO p q) as Hmz.
    set (mz := Pos.iter xO p q) in *. rewrite Hqd in Hmz.
    assert (H2 : 0 < 2 ^ (53 - d)) by (apply Z.pow_pos_nonneg; lia).
    assert (Hs1 : 2 ^ (d - 1) * 2 ^ (53 - d) = 2 ^ 52).
    { rewrite <- Z.pow_add_r by lia. f_equal. lia. }
    assert (Hs2 : 2 ^ d * 2 ^ (53 - d) = 2 ^ 53).
    { rewrite <- Z.pow_add_r by lia. f_equal. lia. }
    assert (Hmzb : 2 ^ 52 <= Zpos mz < 2 ^ 53) by nia.
    assert (Hdz : Zdigits2 (Zpos mz) = 53) by (apply Zdigits2_unique; lia).
    destruct (binary_round_aux_close (Zpos mz) (d - 53) 0 1 ltac:(lia)
                ltac:(lia) ltac:(lia) ltac:(lia) ltac:(lia) ltac:(lia))
      as (m & e & Heq & Hm & He & Hc).
    exists m, e. change (loc_of_rem 0 1) with loc_Exact in Heq.
    split; [done|]. split; [done|]. split; [lia|].
    replace (IZR (Zpos p))
      with (IZR (Zpos mz * 1 + 0) / IZR 1 * pow2 (d - 53))%R; [done|].
    rewrite Z.mul_1_r, Z.add_0_r, Hmz, mult_IZR.
    rewrite <- (pow2_IZR (53 - d)) by lia.
    replace (d - 53) with (- (53 - d)) by lia. rewrite pow2_opp.
    pose proof (pow2_pos (53 - d)). field. lra.
Qed.

Lemma numBackfillsMemThresholdPercent_eq :
  numBackfillsMemThresholdPercent = S754_finite false 5764607523034235 (-59).
Proof. vm_compute. reflexivity. Qed.

Lemma double_of_dbFileMem_eq :
  double_of_Z dbFileMem = S754_finite false 5629499534213120 (-39).
Proof. vm_compute. reflexivity. Qed.

(** The product with the percentage. *)
Lemma dmul_percent_close (m : positive) (e : Z) :
  normal m -> -52 <= e <= 12 ->
  exists (m' : positive) (e' : Z),
    dmul (S754_finite false m e) numBackfillsMemThresholdPercent
      = S754_finite false m' e' /\
    normal m' /\ -59 <= e' <= 7 /\
    rel_close (F2R m' e')
              (F2R m e * (5764607523034235 / 576460752303423488))%R.
Proof.
  intros Hm He. rewrite numBackfillsMemThresholdPercent_eq.
  unfold dmul, SFmul. cbn [xorb].
  unfold normal in Hm.
  set (M := Zpos (m * 5764607523034235)).
  assert (HM : M = Zpos m * 5764607523034235) by (unfold M; lia).
  assert (HMb : 2 ^ 104 <= M < 2 ^ 106) by (rewrite HM; lia).
  assert (Hd : Zdigits2 M = 105 \/ Zdigits2 M = 106).
  { destruct (Z.lt_ge_cases M (2 ^ 105)).
    - left. apply Zdigits2_unique; lia.
    - right. apply Zdigits2_unique; lia. }
  destruct (binary_round_aux_close M (e + -59) 0 1 ltac:(lia) ltac:(lia)
              ltac:(lia) ltac:(lia) ltac:(lia) ltac:(lia))
    as (m' & e' & Heq & Hm' & He' & Hc).
  exists m', e'. change (loc_of_rem 0 1) with loc_Exact in Heq.
  split; [done|]. split; [done|]. split; [lia|].
  replace (F2R m e * (5764607523034235 / 576460752303423488))%R
    with (IZR (M * 1 + 0) / IZR 1 * pow2 (e + -59))%R; [done|].
  rewrite Z.mul_1_r, Z.add_0_r, HM, mult_IZR, pow2_add.
  change (-59) with (Z.opp 59). rewrite pow2_opp, (pow2_IZR 59) by lia.
  change (IZR (2 ^ 59)) with 576460752303423488%R.
  unfold F2R. field.
Qed.

Lemma SFdiv_core_by_dbFileMem (m : positive) (e : Z) :
  normal m -> -1060 <= e ->
  SFdiv_core_binary prec emax (Zpos m) e 5629499534213120 (-39) =
    (Zpos m * 2 ^ 53 / 5629499534213120, e - 14,
     loc_of_rem ((Zpos m * 2 ^ 53) mod 5629499534213120) 5629499534213120).
Proof.
  intros Hm He. unfold SFdiv_core_binary.
  rewrite (Zdigits2_unique (Zpos m) 53) by (unfold normal in Hm; lia).
  change (Zdigits2 5629499534213120) with 53.
  assert (He' : Z.min (fexp prec emax (53 + e - (53 + -39))) (e - -39) = e - 14).
  { unfold fexp, SpecFloat.emin, prec, emax. lia. }
  rewrite He'. replace (e - -39 - (e - 14)) with 53 by lia.
  cbv iota. rewrite Z.shiftl_mul_pow2 by lia.
  unfold Z.div, Z.modulo.
  destruct (Z.div_eucl (Zpos m * 2 ^ 53) 5629499534213120) as [q r].
  reflexivity.
Qed.

(** The quotient by [dbFileMem]. *)
Lemma ddiv_dbFileMem_close (m : positive) (e : Z) :
  normal m -> -59 <= e <= 7 ->
  exists (m' : positive) (e' : Z),
    ddiv (S754_finite false m e) (double_of_Z dbFileMem)
      = S754_finite false m' e' /\
    normal m' /\ -73 <= e' <= -5 /\
    rel_close (F2R m' e') (F2R m e / 10240)%R.
Proof.
  intros Hm He. rewrite double_of_dbFileMem_eq.
  unfold ddiv, SFdiv. cbn [xorb].
  rewrite SFdiv_core_by_dbFileMem by (done || lia).
  unfold normal in Hm.
  set (D := 5629499534213120) in *.
  set (N := Zpos m * 2 ^ 53) in *.
  assert (HN : 2 ^ 105 <= N < 2 ^ 106) by (unfold N; lia).
  pose proof (Z.div_mod N D ltac:(lia)) as Hqr.
  pose proof (Z.mod_pos_bound N D ltac:(lia)) as Hr.
  assert (Hq : 2 ^ 52 <= N / D < 2 ^ 54).
  { split.
    - apply Z.div_le_lower_bound; unfold D; lia.
    - apply Z.div_lt_upper_bound; unfold D; lia. }
  assert (Hd : Zdigits2 (N / D) = 53 \/ Zdigits2 (N / D) = 54).
  { destruct (Z.lt_ge_cases (N / D) (2 ^ 53)).
    - left. apply Zdigits2_unique; lia.
    - right. apply Zdigits2_unique; lia. }
  destruct (binary_round_aux_close (N / D) (e - 14) (N mod D) D ltac:(lia)
              ltac:(lia) Hr ltac:(lia) ltac:(lia) ltac:(lia))
    as (m' & e' & Heq & Hm' & He' & Hc).
  exists m', e'. split; [done|]. split; [done|]. split; [lia|].
  replace (F2R m e / 10240)%R
    with (IZR (N / D * D + N mod D) / IZR D * pow2 (e - 14))%R; [done|].
  replace (N / D * D + N mod D) with N by lia.
  unfold N. rewrite mult_IZR.
  change (e - 14) with (e + Z.opp 14).
  rewrite pow2_add, pow2_opp, (pow2_IZR 14) by lia.
  change (IZR (2 ^ 53)) with 9007199254740992%R.
  change (IZR (2 ^ 14)) with 16384%R.
  unfold D, F2R. field.
Qed.

(** Truncation is the integer part. *)
Lemma truncate_floor (m : positive) (e : Z) :
  (IZR (truncate m e) <= F2R m e < IZR (truncate m e) + 1)%R.
Proof.
  unfold truncate, F2R. destruct e as [|p|p].
  - unfold pow2. change (powerRZ 2 0) with 1%R. lra.
  - rewrite mult_IZR, <- pow2_IZR by lia. lra.
  - change (- Zneg p) with (Zpos p). change (Zneg p) with (Z.opp (Zpos p)).
    rewrite pow2_opp, (pow2_IZR (Zpos p)) by lia.
    set (b := 2 ^ Zpos p).
    assert (Hb : 0 < b) by (apply Z.pow_pos_nonneg; lia).
    pose proof (Z.div_mod (Zpos m) b ltac:(lia)) as Hqr.
    pose proof (Z.mod_pos_bound (Zpos m) b Hb) as Hr.
    set (q := Zpos m / b) in *. set (r := Zpos m mod b) in *.
    assert (HB : (0 < IZR b)%R) by (by apply IZR_lt).
    rewrite Hqr, plus_IZR, mult_IZR.
    destruct Hr as [Hr0 Hr1]. apply IZR_le in Hr0. apply IZR_lt in Hr1.
    split.
    + apply (Rmult_le_reg_r (IZR b)); [done|]. field_simplify; lra.
    + apply (Rmult_lt_reg_r (IZR b)); [done|]. field_simplify; lra.
Qed.

(** The three roundings in a row. *)
Lemma backfills_double_close (n : Z) :
  0 < n < 2 ^ 64 ->
  exists (m : positive) (e : Z) (x0 x1 : R),
    ddiv (dmul (double_of_Z n) numBackfillsMemThresholdPercent)
         (double_of_Z dbFileMem) = S754_finite false m e /\
    rel_close x0 (IZR n) /\
    rel_close x1 (x0 * (5764607523034235 / 576460752303423488))%R /\
    rel_close (F2R m e) (x1 / 10240)%R.
Proof.
  intros Hn.
  destruct (double_of_Z_close n Hn) as (m0 & e0 & -> & Hm0 & He0 & Hc0).
  destruct (dmul_percent_close m0 e0 Hm0 He0) as (m1 & e1 & -> & Hm1 & He1 & Hc1).
  destruct (ddiv_dbFileMem_close m1 e1 Hm1 He1) as (m2 & e2 & -> & Hm2 & He2 & Hc2).
  by exists m2, e2, (F2R m0 e0), (F2R m1 e1).
Qed.

Lemma size_t_of_double_floor (m : positive) (e k : Z) :
  0 <= k <= SIZE_MAX ->
  (IZR k <= F2R m e < IZR k + 1)%R ->
  size_t_of_double (S754_finite false m e) = k.
Proof.
  intros Hk [Hlo Hhi]. pose proof (truncate_floor m e) as [Hlo' Hhi'].
  unfold size_t_of_double. set (t := truncate m e) in *.
  assert (Ht : t = k).
  { assert (t < k + 1) by (apply lt_IZR; rewrite plus_IZR; lra).
    assert (k < t + 1) by (apply lt_IZR; rewrite plus_IZR; lra). lia. }
  rewrite Ht. destruct (Z.leb_spec k SIZE_MAX); [done|lia].
Qed.

Lemma size_t_of_double_ge (m : positive) (e k : Z) :
  (IZR k <= F2R m e < IZR SIZE_MAX)%R ->
  k <= size_t_of_double (S754_finite false m e).
Proof.
  intros [Hlo Hhi]. pose proof (truncate_floor m e) as [Hlo' Hhi'].
  unfold size_t_of_double. set (t := truncate m e) in *.
  assert (k < t + 1) by (apply lt_IZR; rewrite plus_IZR; lra).
  assert (t < SIZE_MAX) by (apply lt_IZR; lra).
  destruct (Z.leb_spec t SIZE_MAX); lia.
Qed.

(** On the multiples of 1024000 up to 4096 * 1024000 the three roundings
    are checked by evaluation. *)
Fixpoint multiples_checked (count : nat) (k : Z) : bool :=
  match count with
  | O => true
  | S count' =>
      (backfillsForDataSize (k * 1024000) =? k) && multiples_checked count' (k + 1)
  end.

Lemma multiples_checked_spec (count : nat) (k0 k : Z) :
  multiples_checked count k0 = true ->
  k0 <= k < k0 + Z.of_nat count ->
  backfillsForDataSize (k * 1024000) = k.
Proof.
  revert k0. induction count as [|count IH]; intros k0 Hc Hk; [lia|].
  cbn [multiples_checked] in Hc. apply andb_true_iff in Hc as [Hhere Hrest].
  destruct (Z.eq_dec k k0) as [->|Hne].
  - by apply Z.eqb_eq.
  - apply (IH (k0 + 1)); [done|lia].
Qed.

Lemma multiples_checked_true : multiples_checked 4097 0 = true.
Proof. vm_compute. reflexivity. Qed.

Lemma backfillsForDataSize_multiple (k : Z) :
  0 <= k <= 4096 -> backfillsForDataSize (k * 1024000) = k.
Proof.
  intros Hk. apply (multiples_checked_spec 4097 0 k multiples_checked_true).
  change (Z.of_nat 4097) with 4097. lia.
Qed.

(** Below 4097 * 1024000 the result is the exact quotient. *)
Lemma backfillsForDataSize_quotient (n : Z) :
  0 <= n < 4097 * 1024000 -> backfillsForDataSize n = n / 1024000.
Proof.
  intros Hn.
  pose proof (Z.div_mod n 1024000 ltac:(lia)) as Hqr.
  pose proof (Z.mod_pos_bound n 1024000 ltac:(lia)) as Hr.
  set (k := n / 1024000) in *. set (r := n mod 1024000) in *.
  assert (Hk : 0 <= k <= 4096) by lia.
  destruct (Z.eq_dec r 0) as [Hr0|Hr0].
  - replace n with (k * 1024000) by lia. by apply backfillsForDataSize_multiple.
  - destruct (backfills_double_close n ltac:(lia))
      as (m & e & x0 & x1 & Heq & [H0a H0b] & [H1a H1b] & [H2a H2b]).
    unfold backfillsForDataSize. rewrite Heq.
    apply size_t_of_double_floor; [unfold SIZE_MAX, size_t_bits; lia|].
    assert (HnR : IZR n = (1024000 * IZR k + IZR r)%R).
    { rewrite Hqr, plus_IZR, mult_IZR. done. }
    assert (Hr1 : (1 <= IZR r)%R) by (apply IZR_le; lia).
    assert (Hr2 : (IZR r <= 1023999)%R) by (apply IZR_le; lia).
    assert (Hk1 : (0 <= IZR k)%R) by (apply IZR_le; lia).
    assert (Hk2 : (IZR k <= 4096)%R) by (apply IZR_le; lia).
    rewrite HnR in H0a, H0b. split; lra.
Qed.

(** From 4097 * 1024000 on it is at least 4096 (and fits [size_t]). *)
Lemma backfillsForDataSize_large (n : Z) :
  4097 * 1024000 <= n < 2 ^ 64 -> 4096 <= backfillsForDataSize n.
Proof.
  intros Hn.
  destruct (backfills_double_close n ltac:(lia))
    as (m & e & x0 & x1 & Heq & [H0a H0b] & [H1a H1b] & [H2a H2b]).
  unfold backfillsForDataSize. rewrite Heq.
  apply size_t_of_double_ge.
  assert (Hn1 : (4195328000 <= IZR n)%R) by (apply IZR_le; lia).
  assert (Hn2 : (IZR n <= 18446744073709551615)%R) by (apply IZR_le; lia).
  change (IZR SIZE_MAX) with 18446744073709551615%R.
  split; lra.
Qed.

(** *** The limit is always between 1 and [numBackfillsThreshold] *)

Lemma uint16_small (x : Z) : 0 <= x < 2 ^ 16 -> uint16 x = x.
Proof. intros H. unfold uint16, wrap. apply Z.mod_small. exact H. Qed.

Lemma updateMax_range (n : Z) (c : Counters) :
  1 <= maxActiveSnoozingBackfills (updateMaxActiveSnoozingBackfills n c)
    <= numBackfillsThreshold.
Proof.
  unfold updateMaxActiveSnoozingBackfills, numBackfillsThreshold; simpl.
  rewrite uint16_small; lia.
Qed.

Lemma updateMax_num (n : Z) (c : Counters) :
  numActiveSnoozingBackfills (updateMaxActiveSnoozingBackfills n c) =
  numActiveSnoozingBackfills c.
Proof. reflexivity. Qed.

(** C2: for every [size_t] value of [maxDataSize],
    [updateMaxActiveSnoozingBackfills] sets the limit to [maxDataSize] times
    1 percent divided by [dbFileMem] (10240), clamped to [1, 4096]: the
    binary64 computation of the code gives the same limit as the exact
    formula.  The count is left as it is. *)
Theorem updateMaxActiveSnoozingBackfills_formula
    (maxDataSize : Z) (c : Counters) :
  0 <= maxDataSize <= SIZE_MAX ->
  maxActiveSnoozingBackfills (updateMaxActiveSnoozingBackfills maxDataSize c)
    = maxBackfillsFormula maxDataSize /\
  maxBackfillsFormula maxDataSize
    = Z.max 1 (Z.min (maxDataSize / 1024000) 4096) /\
  1 <= maxActiveSnoozingBackfills
         (updateMaxActiveSnoozingBackfills maxDataSize c) <= 4096 /\
  numActiveSnoozingBackfills (updateMaxActiveSnoozingBackfills maxDataSize c)
    = numActiveSnoozingBackfills c.
Proof.
  intros Hn. unfold SIZE_MAX, size_t_bits in Hn.
  assert (Hf : maxBackfillsFormula maxDataSize
               = Z.max 1 (Z.min (maxDataSize / 1024000) 4096)).
  { unfold maxBackfillsFormula, numBackfillsMemThreshold, dbFileMem,
      numBackfillsThreshold. by rewrite Z.mul_1_r. }
  assert (Hclamp : Z.max 1 (Z.min (backfillsForDataSize maxDataSize) 4096)
                   = Z.max 1 (Z.min (maxDataSize / 1024000) 4096)).
  { destruct (Z.lt_ge_cases maxDataSize (4097 * 1024000)) as [Hlt|Hge].
    - by rewrite backfillsForDataSize_quotient by lia.
    - pose proof (backfillsForDataSize_large maxDataSize ltac:(lia)).
      assert (4096 <= maxDataSize / 1024000)
        by (apply Z.div_le_lower_bound; lia).
      lia. }
  unfold updateMaxActiveSnoozingBackfills; cbn [maxActiveSnoozingBackfills
    numActiveSnoozingBackfills]. unfold numBackfillsThreshold.
  rewrite Hf, Hclamp, uint16_small by lia.
  split; [done|]. split; [done|]. split; [lia|done].
Qed.

Lemma updateMaxActiveSnoozingBackfills_formula_witness :
  maxActiveSnoozingBackfills
    (updateMaxActiveSnoozingBackfills (5 * 1024000 + 17)
       {| numActiveSnoozingBackfills := 2; maxActiveSnoozingBackfills := 9 |})
    = 5.
Proof.
  destruct (updateMaxActiveSnoozingBackfills_formula (5 * 1024000 + 17)
              {| numActiveSnoozingBackfills := 2;
                 maxActiveSnoozingBackfills := 9 |}) as (Heq & Hf & _).
  - vm_compute. split; discriminate.
  - rewrite Heq, Hf. reflexivity.
Defined.

(** The state a run can reach: the count within [0, 4096], the limit within
    [1, 4096]. *)
Definition in_range (c : Counters) : Prop :=
  0 <= numActiveSnoozingBackfills c <= numBackfillsThreshold /\
  1 <= maxActiveSnoozingBackfills c <= numBackfillsThreshold.

Lemma init_in_range (m : Z) : in_range (init m).
Proof.
  unfold init.
  split; [rewrite updateMax_num; simpl; unfold numBackfillsThreshold; lia|].
  apply updateMax_range.
Qed.

Lemma canAdd_true (c : Counters) :
  in_range c ->
  numActiveSnoozingBackfills c < maxActiveSnoozingBackfills c ->
  canAddBackfillToActiveQ c =
    (true, {| numActiveSnoozingBackfills := numActiveSnoozingBackfills c + 1;
              maxActiveSnoozingBackfills := maxActiveSnoozingBackfills c |}).
Proof.
  intros [Hn Hm] Hlt. unfold canAddBackfillToActiveQ.
  apply Z.ltb_lt in Hlt as Hb. rewrite Hb, uint16_small; [reflexivity|].
  unfold numBackfillsThreshold in *. lia.
Qed.

Lemma canAdd_false (c : Counters) :
  maxActiveSnoozingBackfills c <= numActiveSnoozingBackfills c ->
  canAddBackfillToActiveQ c = (false, c).
Proof.
  intros Hge. unfold canAddBackfillToActiveQ.
  apply Z.ltb_ge in Hge. now rewrite Hge.
Qed.

Lemma decr_pos (c : Counters) :
  in_range c -> 0 < numActiveSnoozingBackfills c ->
  decrNumActiveSnoozingBackfills c =
    {| numActiveSnoozingBackfills := numActiveSnoozingBackfills c - 1;
       maxActiveSnoozingBackfills := maxActiveSnoozingBackfills c |}.
Proof.
  intros [Hn Hm] Hpos. unfold decrNumActiveSnoozingBackfills.
  apply Z.ltb_lt in Hpos as Hb. rewrite Hb, uint16_small; [reflexivity|].
  unfold numBackfillsThreshold in *. lia.
Qed.

Lemma decr_zero (c : Counters) :
  numActiveSnoozingBackfills c <= 0 -> decrNumActiveSnoozingBackfills c = c.
Proof.
  intros Hz. unfold decrNumActiveSnoozingBackfills.
  apply Z.ltb_ge in Hz. now rewrite Hz.
Qed.

Lemma step_in_range (c : Counters) (o : Op) : in_range c -> in_range (step c o).
Proof.
  intros Hc. destruct o as [| |n]; simpl.
  - destruct (Z.lt_ge_cases (numActiveSnoozingBackfills c)
                            (maxActiveSnoozingBackfills c)) as [Hlt|Hge].
    + rewrite canAdd_true by assumption. destruct Hc as [Hn Hm].
      split; simpl; lia.
    + now rewrite canAdd_false.
  - destruct (Z.lt_ge_cases 0 (numActiveSnoozingBackfills c)) as [Hpos|Hz].
    + rewrite decr_pos by assumption. destruct Hc as [Hn Hm].
      split; simpl; lia.
    + now rewrite decr_zero.
  - split; [rewrite updateMax_num; apply Hc | apply updateMax_range].
Qed.

Lemma run_in_range (ops : list Op) (c : Counters) :
  in_range c -> in_range (run ops c).
Proof.
  revert c. induction ops as [|o ops IH]; intros c Hc; simpl; [exact Hc|].
  apply IH, step_in_range, Hc.
Qed.

(** The clamped limit computed by the code is the clamped exact quotient. *)
Lemma backfills_clamped (n : Z) :
  0 <= n <= SIZE_MAX ->
  Z.max 1 (Z.min (backfillsForDataSize n) numBackfillsThreshold)
    = Z.max 1 (Z.min (n / 1024000) numBackfillsThreshold).
Proof.
  intros Hn. unfold SIZE_MAX, size_t_bits in Hn. unfold numBackfillsThreshold.
  destruct (Z.lt_ge_cases n (4097 * 1024000)) as [Hlt|Hge].
  - by rewrite backfillsForDataSize_quotient by lia.
  - pose proof (backfillsForDataSize_large n ltac:(lia)).
    assert (4096 <= n / 1024000) by (apply Z.div_le_lower_bound; lia).
    lia.
Qed.

Lemma updateMax_limit (n : Z) (c : Counters) :
  0 <= n <= SIZE_MAX ->
  maxActiveSnoozingBackfills (updateMaxActiveSnoozingBackfills n c)
    = Z.max 1 (Z.min (n / 1024000) numBackfillsThreshold).
Proof.
  intros Hn. unfold updateMaxActiveSnoozingBackfills.
  cbn [maxActiveSnoozingBackfills]. rewrite backfills_clamped by done.
  apply uint16_small. unfold numBackfillsThreshold. lia.
Qed.

(** *** The count against the limit *)

Lemma step_keeps_limit (c : Counters) (o : Op) :
  in_range c ->
  match o with
  | OpUpdateMax n =>
      numActiveSnoozingBackfills c <=
        maxActiveSnoozingBackfills (updateMaxActiveSnoozingBackfills n c)
  | _ => True
  end ->
  numActiveSnoozingBackfills c <= maxActiveSnoozingBackfills c ->
  numActiveSnoozingBackfills (step c o) <= maxActiveSnoozingBackfills (step c o).
Proof.
  intros Hc Hupd Hle. destruct o as [| |n]; simpl.
  - destruct (Z.lt_ge_cases (numActiveSnoozingBackfills c)
                            (maxActiveSnoozingBackfills c)) as [Hlt|Hge].
    + rewrite canAdd_true by assumption. simpl. lia.
    + now rewrite canAdd_false.
  - destruct (Z.lt_ge_cases 0 (numActiveSnoozingBackfills c)) as [Hpos|Hz].
    + rewrite decr_pos by assumption. simpl. lia.
    + now rewrite decr_zero.
  - exact Hupd.
Qed.

Lemma run_keeps_limit (ops : list Op) (c : Counters) :
  in_range c -> limitKept ops c = true ->
  numActiveSnoozingBackfills c <= maxActiveSnoozingBackfills c ->
  numActiveSnoozingBackfills (run ops c) <= maxActiveSnoozingBackfills (run ops c).
Proof.
  revert c. induction ops as [|o ops IH]; intros c Hc Hk Hle; simpl; [exact Hle|].
  simpl in Hk. apply andb_true_iff in Hk as [Ho Hk].
  apply IH; [now apply step_in_range | exact Hk |].
  apply step_keeps_limit; [exact Hc | | exact Hle].
  destruct o; [exact I | exact I | now apply Z.leb_le].
Qed.

(** C3, as the code has it.  The count is within the limit in the
    constructed state, and at the end of every run of
    [canAddBackfillToActiveQ], [decrNumActiveSnoozingBackfills] and
    [updateMaxActiveSnoozingBackfills] in which no update sets the limit
    below the count of that moment.  From every state that a run can reach
    and in which the count is within the limit, whatever happened before,
    [canAddBackfillToActiveQ] and [decrNumActiveSnoozingBackfills] keep it
    so; [updateMaxActiveSnoozingBackfills(n)] never changes the count, and
    keeps the count within the limit exactly when the count is at most the
    new limit, the clamp of [n / 1024000] to [1, 4096]. *)
Theorem count_within_limit_unless_lowered (maxDataSize : Z) (ops : list Op) :
  let c := run ops (init maxDataSize) in
  numActiveSnoozingBackfills (init maxDataSize) <=
    maxActiveSnoozingBackfills (init maxDataSize) /\
  (limitKept ops (init maxDataSize) = true ->
   numActiveSnoozingBackfills c <= maxActiveSnoozingBackfills c) /\
  (numActiveSnoozingBackfills c <= maxActiveSnoozingBackfills c ->
   numActiveSnoozingBackfills (snd (canAddBackfillToActiveQ c)) <=
     maxActiveSnoozingBackfills (snd (canAddBackfillToActiveQ c)) /\
   numActiveSnoozingBackfills (decrNumActiveSnoozingBackfills c) <=
     maxActiveSnoozingBackfills (decrNumActiveSnoozingBackfills c)) /\
  (forall n,
     numActiveSnoozingBackfills (updateMaxActiveSnoozingBackfills n c) =
       numActiveSnoozingBackfills c) /\
  (forall n, 0 <= n <= SIZE_MAX ->
     (numActiveSnoozingBackfills (updateMaxActiveSnoozingBackfills n c) <=
        maxActiveSnoozingBackfills (updateMaxActiveSnoozingBackfills n c)
      <-> numActiveSnoozingBackfills c <= Z.max 1 (Z.min (n / 1024000) 4096))).
Proof.
  intros c.
  assert (Hinit : numActiveSnoozingBackfills (init maxDataSize) <=
                  maxActiveSnoozingBackfills (init maxDataSize)).
  { pose proof (init_in_range maxDataSize) as [_ Hm].
    unfold init in *. rewrite updateMax_num.
    cbn [numActiveSnoozingBackfills]. lia. }
  assert (Hc : in_range c) by apply run_in_range, init_in_range.
  split; [exact Hinit|]. split.
  { intros Hk. apply run_keeps_limit; [apply init_in_range|exact Hk|exact Hinit]. }
  split.
  { intros Hle. split.
    - apply (step_keeps_limit c OpCanAdd Hc I Hle).
    - apply (step_keeps_limit c OpDecr Hc I Hle). }
  split; [intros n; apply updateMax_num|].
  intros n Hn. rewrite updateMax_num, updateMax_limit by exact Hn.
  unfold numBackfillsThreshold. reflexivity.
Qed.

(** Two admissions, a limit lowered to 1, one decrement: the count is
    within the limit again, and stays so through the next admission
    request. *)
Lemma count_within_limit_unless_lowered_witness :
  numActiveSnoozingBackfills
    (snd (canAddBackfillToActiveQ
            (run [OpCanAdd; OpCanAdd; OpUpdateMax 1024000; OpDecr]
                 (init (2 ^ 32))))) <=
  maxActiveSnoozingBackfills
    (snd (canAddBackfillToActiveQ
            (run [OpCanAdd; OpCanAdd; OpUpdateMax 1024000; OpDecr]
                 (init (2 ^ 32))))).
Proof.
  destruct (count_within_limit_unless_lowered (2 ^ 32)
              [OpCanAdd; OpCanAdd; OpUpdateMax 1024000; OpDecr])
    as (_ & _ & Hstep & _).
  apply Hstep. vm_compute. discriminate.
Defined.

(** C3, as stated, fails.  The constructor with [maxDataSize] = 2^32 sets the
    limit to 4096; two [canAddBackfillToActiveQ] calls are admitted and bring
    the count to 2; [updateMaxActiveSnoozingBackfills(1024000)] then sets the
    limit to 1 and leaves the count at 2. *)
Lemma count_exceeds_lowered_limit :
  init (2 ^ 32) =
    {| numActiveSnoozingBackfills := 0; maxActiveSnoozingBackfills := 4096 |} /\
  run [OpCanAdd; OpCanAdd; OpUpdateMax 1024000] (init (2 ^ 32)) =
    {| numActiveSnoozingBackfills := 2; maxActiveSnoozingBackfills := 1 |} /\
  ~ (numActiveSnoozingBackfills
       (run [OpCanAdd; OpCanAdd; OpUpdateMax 1024000] (init (2 ^ 32))) <=
     maxActiveSnoozingBackfills
       (run [OpCanAdd; OpCanAdd; OpUpdateMax 1024000] (init (2 ^ 32)))).
Proof.
  split; [vm_compute; reflexivity|]. split; [vm_compute; reflexivity|].
  vm_compute. intros H. apply H. reflexivity.
Qed.

(** C8: the count is never negative along any run from the constructed state;
    [decrNumActiveSnoozingBackfills] takes one off a positive count and leaves
    a zero count (and the limit) as it is; [canAddBackfillToActiveQ] changes
    nothing when it returns [false], and adds one when it returns [true]. *)
Theorem count_never_negative (maxDataSize : Z) (ops : list Op) :
  let c := run ops (init maxDataSize) in
  0 <= numActiveSnoozingBackfills c /\
  0 <= numActiveSnoozingBackfills (decrNumActiveSnoozingBackfills c) /\
  (0 < numActiveSnoozingBackfills c ->
     numActiveSnoozingBackfills (decrNumActiveSnoozingBackfills c) =
       numActiveSnoozingBackfills c - 1) /\
  (~ 0 < numActiveSnoozingBackfills c ->
     numActiveSnoozingBackfills c = 0 /\ decrNumActiveSnoozingBackfills c = c) /\
  maxActiveSnoozingBackfills (decrNumActiveSnoozingBackfills c) =
    maxActiveSnoozingBackfills c /\
  (fst (canAddBackfillToActiveQ c) = false ->
     snd (canAddBackfillToActiveQ c) = c) /\
  (fst (canAddBackfillToActiveQ c) = true ->
     numActiveSnoozingBackfills c < maxActiveSnoozingBackfills c /\
     numActiveSnoozingBackfills (snd (canAddBackfillToActiveQ c)) =
       numActiveSnoozingBackfills c + 1).
Proof.
  intros c.
  assert (Hc : in_range c) by apply run_in_range, init_in_range.
  pose proof (step_in_range c OpDecr Hc) as [Hd _]. simpl in Hd.
  destruct Hc as [Hn Hm].
  assert (Hc : in_range c) by (split; assumption).
  split; [lia|]. split; [lia|]. split.
  { intros Hpos. now rewrite decr_pos. }
  split.
  { intros Hz. split; [lia|]. apply decr_zero. lia. }
  split.
  { destruct (Z.lt_ge_cases 0 (numActiveSnoozingBackfills c)) as [Hpos|Hz].
    - now rewrite decr_pos.
    - now rewrite decr_zero. }
  destruct (Z.lt_ge_cases (numActiveSnoozingBackfills c)
                          (maxActiveSnoozingBackfills c)) as [Hlt|Hge].
  - rewrite canAdd_true by assumption. simpl. split; [discriminate|].
    intros _. split; [exact Hlt | reflexivity].
  - rewrite canAdd_false by assumption. simpl. split; [reflexivity|discriminate].
Qed.

Lemma count_never_negative_witness :
  numActiveSnoozingBackfills
    (decrNumActiveSnoozingBackfills (run [OpCanAdd; OpDecr; OpDecr] (init 0))) = 0 /\
  snd (canAddBackfillToActiveQ (run [OpCanAdd; OpCanAdd] (init 0))) =
    run [OpCanAdd; OpCanAdd] (init 0).
Proof.
  split.
  - pose proof (count_never_negative 0 [OpCanAdd; OpDecr; OpDecr])
      as (_ & _ & _ & Hz & _).
    destruct Hz as [Hz Hd]; [vm_compute; discriminate|].
    rewrite Hd. exact Hz.
  - pose proof (count_never_negative 0 [OpCanAdd; OpCanAdd])
      as (_ & _ & _ & _ & _ & Hf & _).
    apply Hf. vm_compute. reflexivity.
Defined.

(** *** More on the limit and on admission *)

(** X2: the limit never shrinks when [maxDataSize] grows: for two [size_t]
    values [m1 <= m2], [updateMaxActiveSnoozingBackfills(m1)] sets a limit no
    larger than [updateMaxActiveSnoozingBackfills(m2)] does, whatever the
    counters were. *)
Theorem limit_monotone_in_data_size (m1 m2 : Z) (c1 c2 : Counters) :
  0 <= m1 -> m1 <= m2 -> m2 <= SIZE_MAX ->
  maxActiveSnoozingBackfills (updateMaxActiveSnoozingBackfills m1 c1) <=
  maxActiveSnoozingBackfills (updateMaxActiveSnoozingBackfills m2 c2).
Proof.
  intros H0 H12 Hmax. rewrite !updateMax_limit by lia.
  assert (m1 / 1024000 <= m2 / 1024000) by (apply Z.div_le_mono; lia).
  lia.
Qed.

Lemma limit_monotone_in_data_size_witness :
  maxActiveSnoozingBackfills
    (updateMaxActiveSnoozingBackfills (3 * 1024000)
       {| numActiveSnoozingBackfills := 0; maxActiveSnoozingBackfills := 7 |}) <=
  maxActiveSnoozingBackfills
    (updateMaxActiveSnoozingBackfills (2 ^ 40)
       {| numActiveSnoozingBackfills := 5; maxActiveSnoozingBackfills := 1 |}).
Proof.
  apply limit_monotone_in_data_size; vm_compute; discriminate.
Defined.

Lemma run_app (ops1 ops2 : list Op) (c : Counters) :
  run (ops1 ++ ops2) c = run ops2 (run ops1 c).
Proof. unfold run. apply fold_left_app. Qed.

Lemma repeat_snoc {A : Type} (x : A) (k : nat) :
  repeat x (S k) = repeat x k ++ [x].
Proof. induction k as [|k IH]; [done|]. simpl in *. by rewrite <- IH. Qed.

(** X3: from the constructed state, [k] calls of [canAddBackfillToActiveQ]
    in a row admit exactly the first [limit] of them: the count is
    [min k limit], the limit is untouched, and the next call succeeds exactly
    when [k < limit]. *)
Theorem admissions_stop_at_limit (maxDataSize : Z) (k : nat) :
  let c := run (repeat OpCanAdd k) (init maxDataSize) in
  let limit := maxActiveSnoozingBackfills (init maxDataSize) in
  numActiveSnoozingBackfills c = Z.min (Z.of_nat k) limit /\
  maxActiveSnoozingBackfills c = limit /\
  fst (canAddBackfillToActiveQ c) = (Z.of_nat k <? limit).
Proof.
  cbv zeta.
  assert (Hcount :
    numActiveSnoozingBackfills (run (repeat OpCanAdd k) (init maxDataSize))
      = Z.min (Z.of_nat k) (maxActiveSnoozingBackfills (init maxDataSize)) /\
    maxActiveSnoozingBackfills (run (repeat OpCanAdd k) (init maxDataSize))
      = maxActiveSnoozingBackfills (init maxDataSize)).
  { induction k as [|k [IHn IHm]].
    - pose proof (init_in_range maxDataSize) as [_ Hm].
      change (run (repeat OpCanAdd 0) (init maxDataSize))
        with (init maxDataSize).
      split; [|done]. unfold init at 1. rewrite updateMax_num.
      cbn [numActiveSnoozingBackfills]. change (Z.of_nat 0) with 0. lia.
    - rewrite repeat_snoc, run_app.
      set (c := run (repeat OpCanAdd k) (init maxDataSize)) in *.
      assert (Hc : in_range c) by apply run_in_range, init_in_range.
      change (run [OpCanAdd] c) with (snd (canAddBackfillToActiveQ c)).
      destruct (Z.lt_ge_cases (numActiveSnoozingBackfills c)
                              (maxActiveSnoozingBackfills c)) as [Hlt|Hge].
      + rewrite canAdd_true by done.
        cbn [snd numActiveSnoozingBackfills maxActiveSnoozingBackfills].
        rewrite Nat2Z.inj_succ. split; [lia|done].
      + rewrite canAdd_false by done. cbn [snd].
        rewrite Nat2Z.inj_succ. split; [lia|done]. }
  destruct Hcount as [Hn Hm]. split; [done|]. split; [done|].
  set (c := run (repeat OpCanAdd k) (init maxDataSize)) in *.
  assert (Hc : in_range c) by apply run_in_range, init_in_range.
  destruct (Z.ltb_spec (Z.of_nat k) (maxActiveSnoozingBackfills (init maxDataSize))).
  - rewrite canAdd_true by (done || lia). done.
  - rewrite canAdd_false by lia. done.
Qed.

(** X4: an admission that is granted is undone by one
    [decrNumActiveSnoozingBackfills]: on every state a run from the
    constructed state can reach, if [canAddBackfillToActiveQ] returns [true]
    then decrementing afterwards gives back the counters as they were. *)
Theorem admit_then_release_restores (maxDataSize : Z) (ops : list Op) :
  let c := run ops (init maxDataSize) in
  fst (canAddBackfillToActiveQ c) = true ->
  decrNumActiveSnoozingBackfills (snd (canAddBackfillToActiveQ c)) = c.
Proof.
  intros c. assert (Hc : in_range c) by apply run_in_range, init_in_range.
  destruct (Z.lt_ge_cases (numActiveSnoozingBackfills c)
                          (maxActiveSnoozingBackfills c)) as [Hlt|Hge].
  - rewrite canAdd_true by done. simpl. intros _.
    destruct Hc as [Hn Hm].
    rewrite decr_pos; simpl; [|split; simpl; lia|lia].
    destruct c as [n m]. simpl. f_equal. lia.
  - rewrite canAdd_false by done. discriminate.
Qed.

Lemma admit_then_release_restores_witness :
  decrNumActiveSnoozingBackfills
    (snd (canAddBackfillToActiveQ (run [OpCanAdd; OpCanAdd] (init (2 ^ 32)))))
  = run [OpCanAdd; OpCanAdd] (init (2 ^ 32)).
Proof.
  apply (admit_then_release_restores (2 ^ 32) [OpCanAdd; OpCanAdd]).
  vm_compute. reflexivity.
Defined.

(** X5: how the count comes back under a lowered limit.  On every reachable
    state, while the count is at or above the limit
    [canAddBackfillToActiveQ] refuses and changes nothing; [d] decrements
    (with [d] at most the count) take exactly [d] off the count and leave the
    limit alone; so once at least [count - limit] backfills have finished the
    count is within the limit again. *)
Theorem decrements_restore_limit (maxDataSize : Z) (ops : list Op) (d : nat) :
  let c := run ops (init maxDataSize) in
  Z.of_nat d <= numActiveSnoozingBackfills c ->
  (maxActiveSnoozingBackfills c <= numActiveSnoozingBackfills c ->
     canAddBackfillToActiveQ c = (false, c)) /\
  numActiveSnoozingBackfills (run (repeat OpDecr d) c)
    = numActiveSnoozingBackfills c - Z.of_nat d /\
  maxActiveSnoozingBackfills (run (repeat OpDecr d) c)
    = maxActiveSnoozingBackfills c /\
  (numActiveSnoozingBackfills c - maxActiveSnoozingBackfills c <= Z.of_nat d ->
     numActiveSnoozingBackfills (run (repeat OpDecr d) c) <=
     maxActiveSnoozingBackfills (run (repeat OpDecr d) c)).
Proof.
  intros c Hd. assert (Hc : in_range c) by apply run_in_range, init_in_range.
  split; [apply canAdd_false|].
  assert (H : numActiveSnoozingBackfills (run (repeat OpDecr d) c)
                = numActiveSnoozingBackfills c - Z.of_nat d /\
              maxActiveSnoozingBackfills (run (repeat OpDecr d) c)
                = maxActiveSnoozingBackfills c).
  { clearbody c. induction d as [|d IH].
    - unfold run. simpl. split; [lia|done].
    - destruct IH as [IHn IHm]; [lia|].
      rewrite repeat_snoc, run_app.
      set (c' := run (repeat OpDecr d) c) in *.
      assert (Hc' : in_range c') by by apply run_in_range.
      change (run [OpDecr] c') with (decrNumActiveSnoozingBackfills c').
      rewrite decr_pos by (done || lia).
      cbn [numActiveSnoozingBackfills maxActiveSnoozingBackfills].
      rewrite Nat2Z.inj_succ. split; [lia|done]. }
  destruct H as [Hn Hm]. split; [done|]. split; [done|].
  rewrite Hn, Hm. lia.
Qed.

Lemma decrements_restore_limit_witness :
  numActiveSnoozingBackfills
    (run (repeat OpDecr 1)
         (run [OpCanAdd; OpCanAdd; OpUpdateMax 1024000] (init (2 ^ 32)))) <=
  maxActiveSnoozingBackfills
    (run (repeat OpDecr 1)
         (run [OpCanAdd; OpCanAdd; OpUpdateMax 1024000] (init (2 ^ 32)))).
Proof.
  destruct (decrements_restore_limit (2 ^ 32)
              [OpCanAdd; OpCanAdd; OpUpdateMax 1024000] 1) as (_ & _ & _ & H).
  - vm_compute. discriminate.
  - apply H. vm_compute. discriminate.
Defined.

End Backfill.

(** ** The work queue of ActiveStreamCheckpointProcessorTask *)

Module CheckpointProcessor.

Inductive stream_state_t :=
| STREAM_PENDING
| STREAM_BACKFILLING
| STREAM_IN_MEMORY
| STREAM_TAKEOVER_SEND
| STREAM_TAKEOVER_WAIT
| STREAM_READING
| STREAM_DEAD.

Inductive stream_type_t :=
| STREAM_ACTIVE
| STREAM_NOTIFIER
| STREAM_PASSIVE.

(** The members of the [Stream] base class that identify a stream. *)
Record Stream := mkStream {
  name_ : string;
  flags_ : Z;
  opaque_ : Z;
  vb_ : Z;
  start_seqno_ : Z;
  end_seqno_ : Z;
  vb_uuid_ : Z;
  snap_start_seqno_ : Z;
  snap_end_seqno_ : Z;
  state_ : stream_state_t;
  type_ : stream_type_t
}.

Definition getVBucket (s : Stream) : Z := vb_ s.

(** [std::queue<stream_t> queue] (front of the queue = head of the list) and
    [std::set<uint16_t> queuedVbuckets], both guarded by [workQueueLock]. *)
Record Task := mkTask {
  queue : list Stream;
  queuedVbuckets : gset Z
}.

Definition empty : Task := {| queue := []; queuedVbuckets := ∅ |}.

(** [queuePop]: a null [stream_t] ([None]) when the queue is empty. *)
Definition queuePop (t : Task) : option Stream * Task :=
  match queue t with
  | [] => (None, t)
  | rval :: rest =>
      (Some rval,
       {| queue := rest;
          queuedVbuckets := queuedVbuckets t ∖ {[ getVBucket rval ]} |})
  end.

Definition queueEmpty (t : Task) : bool :=
  match queue t with [] => true | _ => false end.

(** [pushUnique]: [queuedVbuckets.count(vb) == 0] guards the push. *)
Definition pushUnique (stream : Stream) (t : Task) : Task :=
  if decide (getVBucket stream ∈ queuedVbuckets t) then t
  else {| queue := queue t ++ [stream];
          queuedVbuckets := {[ getVBucket stream ]} ∪ queuedVbuckets t |}.

(** The vbucket ids of the queued streams, in queue order. *)
Definition queuedIds (t : Task) : list Z := getVBucket <$> queue t.

(** No vbucket id is queued twice, and [queuedVbuckets] is exactly the set of
    queued ids. *)
Definition unique_queue (t : Task) : Prop :=
  NoDup (queuedIds t) ∧ list_to_set (queuedIds t) = queuedVbuckets t.

Inductive Op :=
| OpPush (stream : Stream)
| OpPop.

Definition step (t : Task) (o : Op) : Task :=
  match o with
  | OpPush s => pushUnique s t
  | OpPop => snd (queuePop t)
  end.

Definition run (ops : list Op) : Task := fold_left step ops empty.

Lemma unique_queue_empty : unique_queue empty.
Proof. split; [constructor | reflexivity]. Qed.

Lemma pushUnique_queued (s : Stream) (t : Task) :
  getVBucket s ∈ queuedVbuckets t → pushUnique s t = t.
Proof. intros H. unfold pushUnique. by rewrite decide_True. Qed.

Lemma pushUnique_fresh (s : Stream) (t : Task) :
  getVBucket s ∉ queuedVbuckets t →
  pushUnique s t =
    {| queue := queue t ++ [s];
       queuedVbuckets := {[ getVBucket s ]} ∪ queuedVbuckets t |}.
Proof. intros H. unfold pushUnique. by rewrite decide_False. Qed.

Lemma pushUnique_unique (s : Stream) (t : Task) :
  unique_queue t → unique_queue (pushUnique s t).
Proof.
  intros [Hnd Hset]. unfold pushUnique.
  destruct (decide (getVBucket s ∈ queuedVbuckets t)) as [Hin|Hout].
  - by split.
  - unfold unique_queue, queuedIds in *; simpl.
    rewrite fmap_app; simpl. split.
    + apply NoDup_app. split_and!; [done| |apply NoDup_singleton].
      intros x Hx ->%list_elem_of_singleton.
      apply Hout. rewrite <- Hset. by apply elem_of_list_to_set.
    + rewrite list_to_set_app_L, Hset. simpl.
      rewrite union_empty_r_L. apply (comm_L (∪)).
Qed.

Lemma queuePop_unique (t : Task) :
  unique_queue t → unique_queue (snd (queuePop t)).
Proof.
  intros [Hnd Hset]. unfold queuePop.
  destruct (queue t) as [|s rest] eqn:Hq; simpl; [by split|].
  unfold unique_queue, queuedIds in *; simpl. rewrite Hq in Hnd, Hset.
  simpl in Hnd, Hset.
  apply NoDup_cons in Hnd as [Hs Hnd]. split; [done|].
  rewrite <- Hset.
  assert (Hs' : getVBucket s ∉ (list_to_set (getVBucket <$> rest) : gset Z))
    by (by rewrite elem_of_list_to_set).
  apply set_eq. intros x.
  rewrite elem_of_difference, elem_of_union, !elem_of_singleton.
  split; [intros Hx; split; [by right | by intros ->] | by intros [[->|Hx] Hne]].
Qed.

Lemma run_unique (ops : list Op) : unique_queue (run ops).
Proof.
  unfold run. generalize unique_queue_empty. generalize empty.
  induction ops as [|o ops IH]; intros t Ht; simpl; [done|].
  apply IH. destruct o; simpl; [by apply pushUnique_unique | by apply queuePop_unique].
Qed.

(** C4: the work queue never holds a vbucket id twice.  [pushUnique] leaves
    the task as it is when the stream's vbucket id is in [queuedVbuckets] and
    otherwise appends the stream and inserts the id; [queuePop] returns the
    front stream and erases its id; and "the queued ids have no duplicates and
    are exactly [queuedVbuckets]" holds of the empty task and is preserved by
    every [pushUnique] and [queuePop]. *)
Theorem work_queue_unique_per_vbucket (t : Task) (s : Stream) :
  (getVBucket s ∈ queuedVbuckets t → pushUnique s t = t) ∧
  (getVBucket s ∉ queuedVbuckets t →
     queue (pushUnique s t) = queue t ++ [s] ∧
     queuedVbuckets (pushUnique s t) = {[ getVBucket s ]} ∪ queuedVbuckets t) ∧
  (∀ rest, queue t = s :: rest →
     queuePop t =
       (Some s, {| queue := rest;
                   queuedVbuckets := queuedVbuckets t ∖ {[ getVBucket s ]} |})) ∧
  (queue t = [] → queuePop t = (None, t)) ∧
  unique_queue empty ∧
  (unique_queue t → unique_queue (pushUnique s t)) ∧
  (unique_queue t → unique_queue (snd (queuePop t))) ∧
  (unique_queue t → NoDup (queuedIds t)).
Proof.
  split_and!.
  - apply pushUnique_queued.
  - intros H. by rewrite pushUnique_fresh.
  - intros rest Hq. unfold queuePop. by rewrite Hq.
  - intros Hq. unfold queuePop. by rewrite Hq.
  - apply unique_queue_empty.
  - apply pushUnique_unique.
  - apply queuePop_unique.
  - by intros [? _].
Qed.

(** A run on two streams of vbucket 7 and one of vbucket 9. *)
Definition sampleStream (nm : string) (vb : Z) : Stream :=
  {| name_ := nm; flags_ := 0; opaque_ := 1; vb_ := vb; start_seqno_ := 0;
     end_seqno_ := 100; vb_uuid_ := 0; snap_start_seqno_ := 0;
     snap_end_seqno_ := 0; state_ := STREAM_IN_MEMORY; type_ := STREAM_ACTIVE |}.

Lemma work_queue_unique_per_vbucket_witness :
  pushUnique (sampleStream "b" 7)
    (run [OpPush (sampleStream "a" 7); OpPush (sampleStream "c" 9)]) =
    run [OpPush (sampleStream "a" 7); OpPush (sampleStream "c" 9)] ∧
  unique_queue
    (snd (queuePop (run [OpPush (sampleStream "a" 7); OpPush (sampleStream "c" 9)]))).
Proof.
  pose proof (work_queue_unique_per_vbucket
                (run [OpPush (sampleStream "a" 7); OpPush (sampleStream "c" 9)])
                (sampleStream "b" 7)) as (Hdup & _ & _ & _ & _ & _ & Hpop & _).
  split.
  - apply Hdup. vm_compute. reflexivity.
  - apply Hpop. apply run_unique.
Defined.

(** *** Draining and re-scheduling *)

(** Up to [n] calls of [queuePop], stopping at the first null stream: the
    streams popped, in the order they came out, and the task left. *)
Fixpoint drain (n : nat) (t : Task) : list Stream * Task :=
  match n with
  | O => ([], t)
  | S n' =>
      match queuePop t with
      | (Some s, t') => let '(l, t'') := drain n' t' in (s :: l, t'')
      | (None, t') => ([], t')
      end
  end.

(** X6: the work queue is first in, first out, and draining it empties the
    vbucket set too: on a task that satisfies the queue invariant, popping at
    least as many times as there are queued streams returns exactly the queued
    streams in queue order and leaves the empty task. *)
Theorem drain_returns_queue_in_order (n : nat) (t : Task) :
  unique_queue t → (length (queue t) ≤ n)%nat →
  drain n t = (queue t, empty).
Proof.
  revert t. induction n as [|n IH]; intros t Hinv Hlen.
  - destruct t as [q vbs]. simpl in *. destruct q; [|simpl in Hlen; lia].
    destruct Hinv as [_ Hset]. simpl in Hset. by rewrite <- Hset.
  - pose proof (queuePop_unique t Hinv) as Hinv'.
    simpl. unfold queuePop in *.
    destruct (queue t) as [|s rest] eqn:Hq.
    + destruct t as [q vbs]. simpl in *. subst q.
      destruct Hinv as [_ Hset]. simpl in Hset. by rewrite <- Hset.
    + simpl in Hinv'. rewrite (IH _ Hinv'); [done|]. simpl in *. lia.
Qed.

Lemma drain_returns_queue_in_order_witness :
  drain 5 (run [OpPush (sampleStream "a" 7); OpPush (sampleStream "c" 9);
                OpPush (sampleStream "b" 7)]) =
  ([sampleStream "a" 7; sampleStream "c" 9], empty).
Proof.
  rewrite (drain_returns_queue_in_order 5
             (run [OpPush (sampleStream "a" 7); OpPush (sampleStream "c" 9);
                   OpPush (sampleStream "b" 7)])).
  - vm_compute. reflexivity.
  - apply run_unique.
  - vm_compute. lia.
Defined.

(** X7: a vbucket can be scheduled again as soon as its stream was popped: on
    a task that satisfies the queue invariant, after [queuePop] returned the
    front stream, [pushUnique] of any stream of the same vbucket appends it
    to the rest of the queue, and the vbucket set is what it was before the
    pop. *)
Theorem popped_vbucket_can_be_rescheduled (t : Task) (s s' : Stream)
    (rest : list Stream) :
  unique_queue t → queue t = s :: rest → getVBucket s' = getVBucket s →
  pushUnique s' (snd (queuePop t)) =
    {| queue := rest ++ [s']; queuedVbuckets := queuedVbuckets t |}.
Proof.
  intros [Hnd Hset] Hq Hvb. unfold queuePop. rewrite Hq. simpl.
  unfold queuedIds in *. rewrite Hq in Hnd, Hset. simpl in Hnd, Hset.
  apply NoDup_cons in Hnd as [_ _].
  assert (Hin : getVBucket s ∈ queuedVbuckets t).
  { rewrite <- Hset. apply elem_of_union. left. by apply elem_of_singleton. }
  rewrite pushUnique_fresh; simpl.
  - f_equal. rewrite Hvb. apply set_eq. intros x.
    rewrite elem_of_union, elem_of_difference, !elem_of_singleton.
    split; [by intros [->|[? _]]|].
    intros Hx. destruct (decide (x = getVBucket s)); [by left|by right].
  - rewrite Hvb, elem_of_difference, elem_of_singleton. by intros [_ ?].
Qed.

Lemma popped_vbucket_can_be_rescheduled_witness :
  pushUnique (sampleStream "b" 7)
    (snd (queuePop (run [OpPush (sampleStream "a" 7);
                         OpPush (sampleStream "c" 9)]))) =
  {| queue := [sampleStream "c" 9; sampleStream "b" 7];
     queuedVbuckets :=
       queuedVbuckets (run [OpPush (sampleStream "a" 7);
                            OpPush (sampleStream "c" 9)]) |}.
Proof.
  apply (popped_vbucket_can_be_rescheduled
           (run [OpPush (sampleStream "a" 7); OpPush (sampleStream "c" 9)])
           (sampleStream "a" 7) (sampleStream "b" 7) [sampleStream "c" 9]).
  - apply run_unique.
  - vm_compute. reflexivity.
  - reflexivity.
Defined.

(** X8: the queue is as long as the vbucket set is large, so it is bounded by
    the number of vbucket ids: on a task that satisfies the queue invariant
    and whose queued streams have 16-bit vbucket ids, the queue holds
    [size queuedVbuckets] streams, at most 65536, and [queueEmpty] says
    exactly that the vbucket set is empty. *)
Theorem queue_length_bounded_by_vbuckets (t : Task) :
  unique_queue t →
  (∀ s, s ∈ queue t → 0 ≤ getVBucket s < 2 ^ 16) →
  length (queue t) = size (queuedVbuckets t) ∧
  Z.of_nat (length (queue t)) ≤ 2 ^ 16 ∧
  (queueEmpty t = true ↔ queuedVbuckets t = ∅).
Proof.
  intros [Hnd Hset] Hrange. unfold queuedIds in *.
  assert (Hlen : length (queue t) = size (queuedVbuckets t)).
  { rewrite <- Hset, size_list_to_set by done. by rewrite length_fmap. }
  split; [done|]. split.
  - assert (Hle : (length (getVBucket <$> queue t)
                   ≤ length (seqZ 0 (2 ^ 16)))%nat).
    { apply submseteq_length, NoDup_submseteq; [done|].
      intros x (s & -> & Hs)%list_elem_of_fmap.
      apply elem_of_seqZ. specialize (Hrange s Hs). lia. }
    rewrite length_fmap, length_seqZ in Hle. lia.
  - unfold queueEmpty. destruct (queue t) as [|s rest] eqn:Hq.
    + simpl in Hset. by rewrite <- Hset.
    + split; [discriminate|]. intros He. rewrite He, size_empty in Hlen.
      discriminate.
Qed.

Lemma queue_length_bounded_by_vbuckets_witness :
  Z.of_nat (length (queue (run [OpPush (sampleStream "a" 7);
                                OpPush (sampleStream "c" 9);
                                OpPush (sampleStream "b" 7)]))) ≤ 2 ^ 16.
Proof.
  destruct (queue_length_bounded_by_vbuckets
              (run [OpPush (sampleStream "a" 7); OpPush (sampleStream "c" 9);
                    OpPush (sampleStream "b" 7)])) as (_ & H & _).
  - apply run_unique.
  - intros s Hs. vm_compute in Hs.
    apply elem_of_cons in Hs as [->|Hs]; [simpl; lia|].
    apply list_elem_of_singleton in Hs as ->. simpl. lia.
  - exact H.
Defined.

End CheckpointProcessor.

(** ** DcpConnMap: the connection registry *)

Module DcpConnMap.

(** The dynamic type of a connection object. *)
Inductive ConnType :=
| DcpProducer (notifyOnly : bool)
| DcpConsumer.

(** The [Notifiable] base subobject ([isPaused], [sentNotify],
    [setNotifySent]). *)
Record Notifiable := mkNotifiable {
  isPaused : bool;
  sentNotify : bool
}.

(** A connection object, with the members the connection map reads and
    writes.  [notifiable] is [None] when [dynamic_cast<Notifiable*>] fails;
    [getLastWalkTime] is a [rel_time_t] (32-bit unsigned seconds). *)
Record ConnHandler := mkConn {
  getName : string;
  getCookie : N;
  connType : ConnType;
  doDisconnect : bool;
  isReserved : bool;
  getLastWalkTime : Z;
  notifiable : option Notifiable;
  streams : list Z;
  getVBVector : list Z
}.

Definition setDisconnect (val : bool) (c : ConnHandler) : ConnHandler :=
  {| getName := getName c; getCookie := getCookie c; connType := connType c;
     doDisconnect := val; isReserved := isReserved c;
     getLastWalkTime := getLastWalkTime c; notifiable := notifiable c;
     streams := streams c; getVBVector := getVBVector c |}.

Definition setNotifySent (val : bool) (c : ConnHandler) : ConnHandler :=
  {| getName := getName c; getCookie := getCookie c; connType := connType c;
     doDisconnect := doDisconnect c; isReserved := isReserved c;
     getLastWalkTime := getLastWalkTime c;
     notifiable :=
       (λ tp, {| isPaused := isPaused tp; sentNotify := val |}) <$> notifiable c;
     streams := streams c; getVBVector := getVBVector c |}.

Definition isConsumer (c : ConnHandler) : bool :=
  match connType c with DcpConsumer => true | DcpProducer _ => false end.

Definition isProducer (c : ConnHandler) : bool := negb (isConsumer c).

(** The registry.  [connection_t] is a counted pointer: connection objects
    live in the store [objs] and [all], [map_], [deadConnections] and
    [vbConns] hold their addresses, so a flag set through one container shows
    through the others.  [all], [map_] and [deadConnections] are guarded by
    [connsLock]. *)
Record ConnMap := mkConnMap {
  objs : gmap positive ConnHandler;
  all : list positive;
  map_ : gmap N positive;
  deadConnections : list positive;
  vbConns : gmap Z (list positive)
}.

Definition empty : ConnMap :=
  {| objs := ∅; all := []; map_ := ∅; deadConnections := []; vbConns := ∅ |}.

(** What a pass hands to the server: [engine.notifyIOComplete(cookie, status)],
    tagged with the connection it is made for. *)
Inductive Event :=
| NotifyIOComplete (conn : positive) (cookie : N) (status : ENGINE_ERROR_CODE).

(** The protocol tag every DCP connection name starts with. *)
Definition dcpq_prefix : string := "eq_dcpq:".

(** The loop of [newConsumer] and [newProducer]: the first connection of
    [all] with the name is marked for disconnect and erased from [all]. *)
Fixpoint disconnectByName (conn_name : string)
    (os : gmap positive ConnHandler) (l : list positive)
  : gmap positive ConnHandler * list positive :=
  match l with
  | [] => (os, [])
  | p :: rest =>
      match os !! p with
      | Some c =>
          if String.eqb (getName c) conn_name
          then (<[p := setDisconnect true c]> os, rest)
          else let '(os', rest') := disconnectByName conn_name os rest in
               (os', p :: rest')
      | None =>
          let '(os', rest') := disconnectByName conn_name os rest in
          (os', p :: rest')
      end
  end.

(** [maxIdleTime] of [manageConnections], in seconds. *)
Definition maxIdleTime : Z := 5.

(** The test of the first loop of [manageConnections]; the sum is computed in
    32-bit unsigned arithmetic. *)
Definition needsNotify (now : Z) (c : ConnHandler) : bool :=
  match notifiable c with
  | Some tp =>
      (isPaused tp || doDisconnect c) && isReserved c &&
      (negb (sentNotify tp) || (uint32 (getLastWalkTime c + maxIdleTime) <? now))
  | None => false
  end.

(** The entries of [map_] in iteration order (ascending cookie). *)
Definition cookie_le (a b : N * positive) : Prop := (a.1 ≤ b.1)%N.

#[global] Instance cookie_le_dec : RelDecision cookie_le :=
  λ a b, decide ((a.1 ≤ b.1)%N).

Definition entries (m : gmap N positive) : list (N * positive) :=
  merge_sort cookie_le (map_to_list m).

(** First loop of [manageConnections]: the connections to signal. *)
Definition collectToNotify (now : Z) (s : ConnMap) : list positive :=
  omap (λ kp, match objs s !! kp.2 with
              | Some c => if needsNotify now c then Some kp.2 else None
              | None => None
              end) (entries (map_ s)).

(** Erase the first connection with the cookie from a [vbConns] list. *)
Fixpoint eraseByCookie (os : gmap positive ConnHandler) (cookie : N)
    (l : list positive) : list positive :=
  match l with
  | [] => []
  | q :: rest =>
      match os !! q with
      | Some d => if (getCookie d =? cookie)%N then rest
                  else q :: eraseByCookie os cookie rest
      | None => q :: eraseByCookie os cookie rest
      end
  end.

(** [DcpConnMap::removeVBConnections] *)
Definition removeVBConnections (os : gmap positive ConnHandler) (p : positive)
    (vbc : gmap Z (list positive)) : gmap Z (list positive) :=
  match os !! p with
  | Some c =>
      if isProducer c then
        foldl (λ acc vbid,
                 <[vbid := eraseByCookie os (getCookie c) (default [] (acc !! vbid))]> acc)
              vbc (getVBVector c)
      else vbc
  | None => vbc
  end.

Section Registry.

(** Code of the connection classes that lies outside the modelled files:
    the member initialisers of the constructors, [DcpConsumer::isStreamPresent],
    the virtual [ConnHandler::addStream] and [ConnHandler::releaseReference].

    The second loop of [manageConnections] reaches the [Notifiable] of a
    connection by [static_cast<Notifiable*>(static_cast<Producer*>(conn))],
    without a check.  For a [DcpProducer] that is its own [Notifiable]; for an
    object that is not a [Producer], [setNotifySent(true)] then writes
    wherever the layouts of the classes put the [Notifiable] of a [Producer]:
    [setNotifySentAsProducer] is the object after that write. *)
Variable ctorDefaults : ConnType → ConnHandler.
Variable isStreamPresent : ConnHandler → Z → bool.
Variable addStream :
  positive → Z → Z → Z → gmap positive ConnHandler →
  ENGINE_ERROR_CODE * gmap positive ConnHandler.
Variable releaseReference : ConnHandler → ConnHandler.
Variable setNotifySentAsProducer : ConnHandler → ConnHandler.

(** [new DcpConsumer(engine, cookie, conn_name)] and
    [new DcpProducer(engine, cookie, conn_name, notifyOnly)]. *)
Definition construct (ty : ConnType) (cookie : N) (conn_name : string)
  : ConnHandler :=
  let d := ctorDefaults ty in
  {| getName := conn_name; getCookie := cookie; connType := ty;
     doDisconnect := doDisconnect d; isReserved := isReserved d;
     getLastWalkTime := getLastWalkTime d; notifiable := notifiable d;
     streams := streams d; getVBVector := getVBVector d |}.

(** The common body of [newConsumer] and [newProducer], in its two phases:
    the loop over [all], then the insertion of the new object. *)
Definition displace (conn_name : string) (s : ConnMap) : ConnMap :=
  let '(os, l) := disconnectByName conn_name (objs s) (all s) in
  {| objs := os; all := l; map_ := map_ s;
     deadConnections := deadConnections s; vbConns := vbConns s |}.

Definition insertConn (cookie : N) (c : ConnHandler) (s : ConnMap)
  : positive * ConnMap :=
  let dcp := fresh (dom (objs s)) in
  (dcp,
   {| objs := <[dcp := c]> (objs s); all := all s ++ [dcp];
      map_ := <[cookie := dcp]> (map_ s);
      deadConnections := deadConnections s; vbConns := vbConns s |}).

(** [DcpConnMap::newConsumer] *)
Definition newConsumer (cookie : N) (name : string) (s : ConnMap)
  : positive * ConnMap :=
  let conn_name := String.append dcpq_prefix name in
  insertConn cookie (construct DcpConsumer cookie conn_name)
             (displace conn_name s).

(** [DcpConnMap::newProducer] *)
Definition newProducer (cookie : N) (name : string) (notifyOnly : bool)
    (s : ConnMap) : positive * ConnMap :=
  let conn_name := String.append dcpq_prefix name in
  insertConn cookie (construct (DcpProducer notifyOnly) cookie conn_name)
             (displace conn_name s).

(** [DcpConnMap::isPassiveStreamConnected_UNLOCKED] *)
Definition isPassiveStreamConnected_UNLOCKED (vbucket : Z) (s : ConnMap)
  : bool :=
  existsb (λ p, match objs s !! p with
                | Some c => isConsumer c && isStreamPresent c vbucket
                | None => false
                end) (all s).

(** [DcpConnMap::addPassiveStream] *)
Definition addPassiveStream (conn : positive) (opaque vbucket flags : Z)
    (s : ConnMap) : ENGINE_ERROR_CODE * ConnMap :=
  if isPassiveStreamConnected_UNLOCKED vbucket s then (ENGINE_KEY_EEXISTS, s)
  else
    let '(rc, os) := addStream conn opaque vbucket flags (objs s) in
    (rc, {| objs := os; all := all s; map_ := map_ s;
            deadConnections := deadConnections s; vbConns := vbConns s |}).

(** Second loop: [notifyIOComplete] and [setNotifySent(true)] for each
    collected connection that is still reserved.  The pointer the loop tests
    is the result of a [static_cast] of a connection that is not null, so it
    is never null; the flag is set through the [Producer] view of the
    object. *)
Fixpoint signal (toNotify : list positive) (os : gmap positive ConnHandler)
  : list Event * gmap positive ConnHandler :=
  match toNotify with
  | [] => ([], os)
  | p :: rest =>
      match os !! p with
      | Some c =>
          if isReserved c then
            let c' := if isProducer c then setNotifySent true c
                      else setNotifySentAsProducer c in
            let '(evs, os') := signal rest (<[p := c']> os) in
            (NotifyIOComplete p (getCookie c) ENGINE_SUCCESS :: evs, os')
          else signal rest os
      | None => signal rest os
      end
  end.

(** The last loop of [manageConnections]: every dead connection drops its
    reference and leaves the per-vbucket lists. *)
Fixpoint releaseAll (release : list positive)
    (os : gmap positive ConnHandler) (vbc : gmap Z (list positive))
  : gmap positive ConnHandler * gmap Z (list positive) :=
  match release with
  | [] => (os, vbc)
  | p :: rest =>
      let os' := match os !! p with
                 | Some c => <[p := releaseReference c]> os
                 | None => os
                 end in
      releaseAll rest os' (removeVBConnections os' p vbc)
  end.

(** [DcpConnMap::manageConnections]; [now] is [ep_current_time()]. *)
Definition manageConnections (now : Z) (s : ConnMap) : list Event * ConnMap :=
  let release := deadConnections s in
  let toNotify := collectToNotify now s in
  let '(evs, os1) := signal toNotify (objs s) in
  let '(os2, vbc) := releaseAll release os1 (vbConns s) in
  (evs, {| objs := os2; all := all s; map_ := map_ s;
           deadConnections := []; vbConns := vbc |}).

(** *** Passive stream admission *)

(** A consumer connection of [all] holds a passive stream for the vbucket. *)
Definition passiveStreamConnected (vbucket : Z) (s : ConnMap) : Prop :=
  ∃ p c, p ∈ all s ∧ objs s !! p = Some c ∧
         isConsumer c = true ∧ isStreamPresent c vbucket = true.

Lemma isPassiveStreamConnected_spec (vbucket : Z) (s : ConnMap) :
  isPassiveStreamConnected_UNLOCKED vbucket s = true ↔
  passiveStreamConnected vbucket s.
Proof.
  unfold isPassiveStreamConnected_UNLOCKED, passiveStreamConnected.
  rewrite existsb_exists. split.
  - intros (p & Hin & Hp). exists p.
    destruct (objs s !! p) as [c|] eqn:Hc; [|discriminate].
    apply andb_true_iff in Hp as [? ?]. exists c.
    by rewrite list_elem_of_In.
  - intros (p & c & Hin & Hc & Hcons & Hpres). exists p.
    rewrite <- list_elem_of_In. split; [done|].
    by rewrite Hc, Hcons, Hpres.
Qed.

(** C1, as the code has it: the connections consulted are those of the
    list [all].  When a consumer connection of [all] already holds a passive
    stream for the vbucket, [addPassiveStream] returns [ENGINE_KEY_EEXISTS]
    and leaves the whole map (every connection object and its streams) as it
    was, without calling [addStream]; when none does, the call is
    [conn.addStream(opaque, vbucket, flags)]: its status is returned and its
    effect on the connection objects is the only change.  What [map_], the
    dead connections and the per-vbucket lists hold plays no part in the
    answer. *)
Theorem addPassiveStream_one_per_vbucket
    (conn : positive) (opaque vbucket flags : Z) (s : ConnMap) :
  (passiveStreamConnected vbucket s →
     addPassiveStream conn opaque vbucket flags s = (ENGINE_KEY_EEXISTS, s)) ∧
  (¬ passiveStreamConnected vbucket s →
     addPassiveStream conn opaque vbucket flags s =
       ((addStream conn opaque vbucket flags (objs s)).1,
        {| objs := (addStream conn opaque vbucket flags (objs s)).2;
           all := all s; map_ := map_ s;
           deadConnections := deadConnections s; vbConns := vbConns s |})) ∧
  (∀ m dead vbc,
     (addPassiveStream conn opaque vbucket flags
        {| objs := objs s; all := all s; map_ := m;
           deadConnections := dead; vbConns := vbc |}).1
     = (addPassiveStream conn opaque vbucket flags s).1).
Proof.
  unfold addPassiveStream. split_and!.
  - intros H. apply isPassiveStreamConnected_spec in H. by rewrite H.
  - intros H. rewrite <- isPassiveStreamConnected_spec in H.
    apply not_true_is_false in H. rewrite H.
    by destruct (addStream conn opaque vbucket flags (objs s)).
  - intros m dead vbc. unfold isPassiveStreamConnected_UNLOCKED. simpl.
    destruct (existsb _ (all s)); [done|].
    by destruct (addStream conn opaque vbucket flags (objs s)).
Qed.

(** *** The reaper pass *)

Lemma entries_elem_of (m : gmap N positive) (k : N) (p : positive) :
  (k, p) ∈ entries m ↔ m !! k = Some p.
Proof.
  unfold entries. rewrite merge_sort_Permutation.
  apply elem_of_map_to_list.
Qed.

Lemma collectToNotify_elem_of (now : Z) (s : ConnMap) (p : positive) :
  p ∈ collectToNotify now s ↔
  ∃ k c, map_ s !! k = Some p ∧ objs s !! p = Some c ∧ needsNotify now c = true.
Proof.
  unfold collectToNotify. rewrite list_elem_of_omap. split.
  - intros ([k q] & Hin & Hq). simpl in Hq.
    apply entries_elem_of in Hin.
    destruct (objs s !! q) as [c|] eqn:Hc; [|discriminate].
    destruct (needsNotify now c) eqn:Hn; [|discriminate].
    injection Hq as ->. by exists k, c.
  - intros (k & c & Hk & Hc & Hn). exists (k, p). split.
    + by apply entries_elem_of.
    + simpl. by rewrite Hc, Hn.
Qed.

(** The test of the first loop, by the fields it reads. *)
Lemma needsNotify_spec (now : Z) (c : ConnHandler) :
  needsNotify now c = true ↔
  ∃ tp, notifiable c = Some tp ∧ isReserved c = true ∧
        (isPaused tp = true ∨ doDisconnect c = true) ∧
        (sentNotify tp = false ∨ uint32 (getLastWalkTime c + 5) < now).
Proof.
  unfold needsNotify, maxIdleTime. destruct (notifiable c) as [tp|].
  - rewrite !andb_true_iff, !orb_true_iff, negb_true_iff, Z.ltb_lt. split.
    + intros [[Hpd Hres] Hidle]. by exists tp.
    + intros (tp' & Htp & Hres & Hpd & Hidle). by injection Htp as <-.
  - split; [done|]. by intros (tp & Htp & _).
Qed.

(** The second loop notifies collected connections only, always with
    [ENGINE_SUCCESS]. *)
Lemma signal_notified (toNotify : list positive)
    (os : gmap positive ConnHandler)
    (p : positive) (ck : N) (st : ENGINE_ERROR_CODE) :
  NotifyIOComplete p ck st ∈ (signal toNotify os).1 →
  p ∈ toNotify ∧ st = ENGINE_SUCCESS.
Proof.
  revert os. induction toNotify as [|q rest IH]; intros os; simpl.
  - by intros ?%elem_of_nil.
  - destruct (os !! q) as [c|] eqn:Hc.
    + destruct (isReserved c) eqn:Hr.
      * specialize (IH (<[q := if isProducer c then setNotifySent true c
                               else setNotifySentAsProducer c]> os)).
        destruct (signal rest _) as [evs os']. simpl in *.
        intros [Heq|Hin]%elem_of_cons.
        -- injection Heq as -> -> ->. split; [left|done].
        -- destruct (IH Hin) as [? ?]. split; [by right|done].
      * intros Hin. destruct (IH os Hin) as [? ?]. split; [by right|done].
    + intros Hin. destruct (IH os Hin) as [? ?]. split; [by right|done].
Qed.

(** A collected connection that is reserved when the loop starts is
    notified, with its cookie. *)
Lemma signal_notifies (toNotify : list positive)
    (os : gmap positive ConnHandler) (p : positive) (c : ConnHandler) :
  p ∈ toNotify → os !! p = Some c → isReserved c = true →
  NotifyIOComplete p (getCookie c) ENGINE_SUCCESS ∈ (signal toNotify os).1.
Proof.
  revert os. induction toNotify as [|q rest IH]; intros os Hin Hc Hr; simpl.
  - by apply elem_of_nil in Hin.
  - destruct (decide (q = p)) as [->|Hne].
    + rewrite Hc, Hr. destruct (signal rest _) as [evs os']. simpl. left.
    + apply elem_of_cons in Hin as [->|Hin]; [done|].
      destruct (os !! q) as [d|] eqn:Hd.
      * destruct (isReserved d) eqn:Hrd.
        -- specialize (IH (<[q := if isProducer d then setNotifySent true d
                                  else setNotifySentAsProducer d]> os) Hin).
           rewrite lookup_insert_ne in IH by done. specialize (IH Hc Hr).
           destruct (signal rest _) as [evs os']. simpl in *. by right.
        -- by apply IH.
      * by apply IH.
Qed.

Lemma manageConnections_notified (now : Z) (s : ConnMap)
    (p : positive) (ck : N) (st : ENGINE_ERROR_CODE) :
  NotifyIOComplete p ck st ∈ (manageConnections now s).1 →
  st = ENGINE_SUCCESS ∧
  ∃ k c, map_ s !! k = Some p ∧ objs s !! p = Some c ∧
         needsNotify now c = true.
Proof.
  unfold manageConnections.
  pose proof (signal_notified (collectToNotify now s) (objs s) p ck st) as H.
  destruct (signal (collectToNotify now s) (objs s)) as [evs os1].
  destruct (releaseAll (deadConnections s) os1 (vbConns s)) as [os2 vbc].
  simpl in *. intros [Hin ->]%H. split; [done|].
  by apply collectToNotify_elem_of.
Qed.

Lemma manageConnections_notifies (now : Z) (s : ConnMap)
    (k : N) (p : positive) (c : ConnHandler) :
  map_ s !! k = Some p → objs s !! p = Some c → needsNotify now c = true →
  NotifyIOComplete p (getCookie c) ENGINE_SUCCESS
    ∈ (manageConnections now s).1.
Proof.
  intros Hk Hc Hn. unfold manageConnections.
  pose proof (signal_notifies (collectToNotify now s) (objs s) p c) as H.
  destruct (signal (collectToNotify now s) (objs s)) as [evs os1].
  destruct (releaseAll (deadConnections s) os1 (vbConns s)) as [os2 vbc].
  simpl in *. apply H; [|done|].
  - apply collectToNotify_elem_of. by exists k, c.
  - apply needsNotify_spec in Hn as (tp & _ & Hres & _). done.
Qed.


(** *** New connections *)

Definition nameOf (os : gmap positive ConnHandler) (p : positive)
  : option string := getName <$> os !! p.

(** A connection is in the registry when [all] or [map_] holds it. *)
Definition registered (s : ConnMap) (p : positive) : Prop :=
  p ∈ all s ∨ ∃ k, map_ s !! k = Some p.

Definition hasName (s : ConnMap) (p : positive) (nm : string) : Prop :=
  ∃ c, objs s !! p = Some c ∧ getName c = nm.

Definition markedForDisconnect (s : ConnMap) (p : positive) : Prop :=
  ∃ c, objs s !! p = Some c ∧ doDisconnect c = true.

(** What [newConsumer], [newProducer] (and [disconnect], which erases from
    both containers) keep true of the registry: the containers hold live
    objects, no two connections of [all] share a name, and a connection that
    [map_] still holds after it left [all] is marked for disconnect. *)
Record wf (s : ConnMap) : Prop := mkWf {
  wf_all_live : ∀ p, p ∈ all s → is_Some (objs s !! p);
  wf_map_live : ∀ k p, map_ s !! k = Some p → is_Some (objs s !! p);
  wf_names : NoDup (nameOf (objs s) <$> all s);
  wf_displaced : ∀ k p c, map_ s !! k = Some p → p ∉ all s →
                          objs s !! p = Some c → doDisconnect c = true
}.

(** What a call that creates a connection of type [ty] establishes; [mid] is
    the registry between the loop over [all] and the insertion. *)
Definition newConnection_post (ty : ConnType) (cookie : N) (name : string)
    (s : ConnMap) (r : positive * ConnMap) : Prop :=
  let conn_name := String.append "eq_dcpq:" name in
  let mid := displace conn_name s in
  let dcp := fst r in
  let s' := snd r in
  (∃ c, objs s' !! dcp = Some c ∧ getName c = conn_name ∧
        getCookie c = cookie ∧ connType c = ty) ∧
  (∀ q, registered s q → hasName s q conn_name →
        markedForDisconnect mid q ∧ (q ∉ all mid) ∧
        markedForDisconnect s' q ∧ (q ∉ all s')) ∧
  objs mid !! dcp = None ∧ (dcp ∉ all mid) ∧
  dcp ∈ all s' ∧ all s' = all mid ++ [dcp] ∧
  map_ s' !! cookie = Some dcp.

Lemma wf_empty : wf empty.
Proof.
  split; simpl.
  - by intros p ?%elem_of_nil.
  - intros k p. by rewrite lookup_empty.
  - constructor.
  - intros k p c. by rewrite lookup_empty.
Qed.

Lemma disconnectByName_cases (cn : string) (os : gmap positive ConnHandler)
    (l : list positive) :
  (disconnectByName cn os l = (os, l) ∧
   ∀ p c, p ∈ l → os !! p = Some c → getName c ≠ cn) ∨
  (∃ pre p post c,
     l = pre ++ p :: post ∧ os !! p = Some c ∧ getName c = cn ∧
     disconnectByName cn os l = (<[p := setDisconnect true c]> os, pre ++ post)).
Proof.
  induction l as [|q l IH]; simpl.
  - left. split; [done|]. by intros p c ?%elem_of_nil.
  - destruct (os !! q) as [d|] eqn:Hd.
    + destruct (String.eqb (getName d) cn) eqn:Hname.
      * right. apply String.eqb_eq in Hname. by exists [], q, l, d.
      * apply String.eqb_neq in Hname.
        destruct IH as [[-> Hno]|(pre & p & post & c & -> & Hc & Hcn & ->)].
        -- left. split; [done|]. intros p c [->|Hin]%elem_of_cons Hc.
           ++ rewrite Hd in Hc. by injection Hc as <-.
           ++ by apply (Hno p).
        -- right. by exists (q :: pre), p, post, c.
    + destruct IH as [[-> Hno]|(pre & p & post & c & -> & Hc & Hcn & ->)].
      * left. split; [done|]. intros p c [->|Hin]%elem_of_cons Hc.
        -- by rewrite Hd in Hc.
        -- by apply (Hno p).
      * right. by exists (q :: pre), p, post, c.
Qed.

Lemma displace_cases (cn : string) (s : ConnMap) :
  (displace cn s = s ∧
   ∀ p c, p ∈ all s → objs s !! p = Some c → getName c ≠ cn) ∨
  (∃ pre p post c,
     all s = pre ++ p :: post ∧ objs s !! p = Some c ∧ getName c = cn ∧
     displace cn s =
       {| objs := <[p := setDisconnect true c]> (objs s); all := pre ++ post;
          map_ := map_ s; deadConnections := deadConnections s;
          vbConns := vbConns s |}).
Proof.
  unfold displace.
  destruct (disconnectByName_cases cn (objs s) (all s))
    as [[-> Hno]|(pre & p & post & c & Hall & Hc & Hcn & ->)].
  - left. split; [by destruct s|done].
  - right. by exists pre, p, post, c.
Qed.

Lemma nameOf_setDisconnect (os : gmap positive ConnHandler)
    (p q : positive) (c : ConnHandler) :
  os !! p = Some c →
  nameOf (<[p := setDisconnect true c]> os) q = nameOf os q.
Proof.
  intros Hc. unfold nameOf. destruct (decide (p = q)) as [->|Hne].
  - by rewrite lookup_insert_eq, Hc.
  - by rewrite lookup_insert_ne.
Qed.

Lemma nameOf_fresh (os : gmap positive ConnHandler) (q : positive)
    (c : ConnHandler) (l : list positive) :
  os !! q = None →
  (∀ p, p ∈ l → is_Some (os !! p)) →
  nameOf (<[q := c]> os) <$> l = nameOf os <$> l.
Proof.
  intros Hq Hlive. apply list_fmap_ext. intros i p Hp. unfold nameOf.
  rewrite lookup_insert_ne; [done|]. intros <-.
  apply list_elem_of_lookup_2, Hlive in Hp. rewrite Hq in Hp. by destruct Hp.
Qed.

(** The registry after the loop over [all]. *)
Lemma displace_wf (cn : string) (s : ConnMap) :
  wf s →
  wf (displace cn s) ∧
  (∀ q, registered s q → hasName s q cn →
        markedForDisconnect (displace cn s) q ∧ q ∉ all (displace cn s)) ∧
  (∀ q, markedForDisconnect s q → markedForDisconnect (displace cn s) q) ∧
  (∀ q d, q ∈ all (displace cn s) → objs (displace cn s) !! q = Some d →
          getName d ≠ cn) ∧
  dom (objs (displace cn s)) = dom (objs s) ∧
  map_ (displace cn s) = map_ s.
Proof.
  intros [Hlive Hmlive Hnames Hdisp].
  destruct (displace_cases cn s)
    as [[-> Hno]|(pre & p & post & c & Hall & Hc & Hcn & ->)].
  - split_and!; [done| |done|done|done|done].
    intros q [Hin|[k Hk]] (d & Hd & Hname).
    + by destruct (Hno q d).
    + destruct (decide (q ∈ all s)) as [Hin|Hout].
      * by destruct (Hno q d).
      * split; [|done]. exists d. split; [done|]. by eapply Hdisp.
  - simpl. rewrite Hall in Hnames. rewrite fmap_app, fmap_cons in Hnames.
    apply NoDup_app in Hnames as (Hpre & Hsep & Hpost).
    apply NoDup_cons in Hpost as [Hp Hpost].
    assert (Hnp : nameOf (objs s) p = Some cn)
      by (unfold nameOf; by rewrite Hc, <- Hcn).
    assert (Hp_pre : p ∉ pre).
    { intros Hin. apply (Hsep (nameOf (objs s) p)).
      - by apply list_elem_of_fmap_2.
      - left. }
    assert (Hp_post : p ∉ post).
    { intros Hin. apply Hp. by apply list_elem_of_fmap_2. }
    assert (Hfm : ∀ l : list positive,
               nameOf (<[p:=setDisconnect true c]> (objs s)) <$> l
                       = nameOf (objs s) <$> l).
    { intros l. apply list_fmap_ext. intros i q _.
      by apply nameOf_setDisconnect. }
    assert (Hothers : ∀ q d, q ∈ pre ++ post → objs s !! q = Some d →
                             getName d ≠ cn).
    { intros q d Hin Hd Hname.
      assert (Hnq : nameOf (objs s) q = Some cn)
        by (unfold nameOf; by rewrite Hd, <- Hname).
      apply elem_of_app in Hin as [Hin|Hin].
      - apply (Hsep (Some cn)).
        + rewrite <- Hnq. by apply list_elem_of_fmap_2.
        + rewrite <- Hnp. left.
      - apply Hp. rewrite Hnp, <- Hnq. by apply list_elem_of_fmap_2. }
    split_and!.
    + split; simpl.
      * intros q Hin. rewrite lookup_insert_is_Some'. right.
        apply Hlive. rewrite Hall.
        apply elem_of_app in Hin as [?|?]; apply elem_of_app;
          [by left | right; by right].
      * intros k q Hk. rewrite lookup_insert_is_Some'. right.
        by eapply Hmlive.
      * rewrite Hfm, fmap_app. apply NoDup_app. split_and!; [done| |done].
        intros x Hx Hx'. apply (Hsep x Hx). by right.
      * intros k q d Hk Hout Hd.
        destruct (decide (p = q)) as [->|Hne].
        -- rewrite lookup_insert_eq in Hd. by injection Hd as <-.
        -- rewrite lookup_insert_ne in Hd by done.
           apply (Hdisp k q d); [done| |done].
           rewrite Hall. intros [Hin|[->|Hin]%elem_of_cons]%elem_of_app;
             [|done|]; apply Hout, elem_of_app; [by left|by right].
    + intros q Hreg (d & Hd & Hname). unfold markedForDisconnect. simpl.
      destruct (decide (p = q)) as [->|Hne].
      * split; [|by intros [?|?]%elem_of_app].
        exists (setDisconnect true c). by rewrite lookup_insert_eq.
      * assert (Hout : q ∉ all s).
        { rewrite Hall.
          intros [Hin|[->|Hin]%elem_of_cons]%elem_of_app; [|done|];
            apply (Hothers q d); try done; apply elem_of_app;
            [by left|by right]. }
        split.
        -- exists d. rewrite lookup_insert_ne by done. split; [done|].
           destruct Hreg as [Hin|[k Hk]]; [done|]. by eapply Hdisp.
        -- intros Hin. apply Hout. rewrite Hall.
           apply elem_of_app in Hin as [?|?]; apply elem_of_app;
             [by left | right; by right].
    + intros q (d & Hd & Hm). unfold markedForDisconnect. simpl.
      destruct (decide (p = q)) as [->|Hne].
      * exists (setDisconnect true c). by rewrite lookup_insert_eq.
      * exists d. by rewrite lookup_insert_ne.
    + simpl. intros q d Hin Hd. destruct (decide (p = q)) as [->|Hne].
      * by apply elem_of_app in Hin as [?|?].
      * rewrite lookup_insert_ne in Hd by done. by apply (Hothers q d).
    + simpl. rewrite dom_insert_L. apply elem_of_dom_2 in Hc.
      apply set_eq. intros x. rewrite elem_of_union, elem_of_singleton.
      split; [by intros [->|?]|by right].
    + done.
Qed.

(** The registry after the insertion of a new object named [cn]. *)
Lemma insertConn_wf (cookie : N) (c : ConnHandler) (s : ConnMap) :
  wf s →
  (∀ q d, q ∈ all s → objs s !! q = Some d → getName d ≠ getName c) →
  let r := insertConn cookie c s in
  wf (snd r) ∧ objs s !! fst r = None ∧ (fst r ∉ all s) ∧
  objs (snd r) !! fst r = Some c ∧
  (∀ q, markedForDisconnect s q → markedForDisconnect (snd r) q ∧ q ≠ fst r).
Proof.
  intros [Hlive Hmlive Hnames Hdisp] Hfreshname. simpl.
  set (dcp := fresh (dom (objs s))).
  assert (Hnone : objs s !! dcp = None)
    by (apply not_elem_of_dom, is_fresh).
  assert (Hnotin : dcp ∉ all s).
  { intros Hin. apply Hlive in Hin. rewrite Hnone in Hin. by destruct Hin. }
  split_and!; [|done|done|by rewrite lookup_insert_eq|].
  - split; simpl.
    + intros q [Hin|Hq%list_elem_of_singleton]%elem_of_app; [|subst q].
      * rewrite lookup_insert_is_Some'. right. by apply Hlive.
      * rewrite lookup_insert_eq. by eexists.
    + intros k q. rewrite lookup_insert. case_decide as Hk.
      * intros Heq. injection Heq as <-. rewrite lookup_insert_eq. by eexists.
      * intros Hq. rewrite lookup_insert_is_Some'. right. by eapply Hmlive.
    + rewrite fmap_app. apply NoDup_app. split_and!.
      * by rewrite nameOf_fresh.
      * rewrite nameOf_fresh by done. simpl. unfold nameOf at 2.
        rewrite lookup_insert_eq. simpl.
        intros x Hx ->%list_elem_of_singleton.
        apply list_elem_of_fmap in Hx as (q & Hq & Hin).
        unfold nameOf in Hq. destruct (objs s !! q) as [d|] eqn:Hd; [|done].
        injection Hq as Hq. by apply (Hfreshname q d).
      * simpl. apply NoDup_singleton.
    + intros k q d. rewrite lookup_insert. case_decide as Hk.
      * intros Heq Hout. injection Heq as <-.
        destruct Hout. apply elem_of_app. right. left.
      * intros Hq Hout Hd.
        assert (q ≠ dcp).
        { intros ->. apply Hmlive in Hq. rewrite Hnone in Hq. by destruct Hq. }
        rewrite lookup_insert_ne in Hd by done.
        apply (Hdisp k q d); [done| |done].
        intros Hin. apply Hout, elem_of_app. by left.
  - intros q (d & Hd & Hm).
    assert (q ≠ dcp) by (intros ->; by rewrite Hnone in Hd).
    split; [|done]. exists d. simpl. by rewrite lookup_insert_ne.
Qed.

Lemma newConnection_spec (ty : ConnType) (cookie : N) (name : string)
    (s : ConnMap) :
  wf s →
  let conn_name := String.append dcpq_prefix name in
  let r := insertConn cookie (construct ty cookie conn_name)
                      (displace conn_name s) in
  newConnection_post ty cookie name s r ∧ wf (snd r).
Proof.
  intros Hwf conn_name r.
  destruct (displace_wf conn_name s Hwf)
    as (Hwf' & Hmark & Hkeep & Hnames & Hdom & Hmap).
  destruct (insertConn_wf cookie (construct ty cookie conn_name)
              (displace conn_name s) Hwf' Hnames)
    as (Hwf'' & Hnone & Hnotin & Hnew & Hkeep').
  fold r in Hwf'', Hnone, Hnotin, Hnew, Hkeep'.
  split; [|done]. unfold newConnection_post.
  change (String.append "eq_dcpq:" name) with conn_name.
  split_and!.
  - by exists (construct ty cookie conn_name).
  - intros q Hreg Hname. destruct (Hmark q Hreg Hname) as [Hm Hout].
    destruct (Hkeep' q Hm) as [Hm' Hne].
    split_and!; [done|done|done|].
    subst r. simpl in *.
    by intros [?|?%list_elem_of_singleton]%elem_of_app.
  - done.
  - done.
  - subst r. simpl. apply elem_of_app. right. left.
  - done.
  - subst r. simpl. by rewrite lookup_insert_eq.
Qed.

(** Calls that create connections, and runs of them from the empty
    registry. *)
Inductive RegistryOp :=
| OpNewConsumer (cookie : N) (name : string)
| OpNewProducer (cookie : N) (name : string) (notifyOnly : bool).

Definition applyOp (s : ConnMap) (o : RegistryOp) : ConnMap :=
  match o with
  | OpNewConsumer cookie name => snd (newConsumer cookie name s)
  | OpNewProducer cookie name notifyOnly =>
      snd (newProducer cookie name notifyOnly s)
  end.

Definition runOps (ops : list RegistryOp) : ConnMap :=
  fold_left applyOp ops empty.

(** X1: every registry built by [newConsumer] and [newProducer] calls from
    the empty one satisfies the registry invariant. *)
Lemma runOps_wf (ops : list RegistryOp) : wf (runOps ops).
Proof.
  unfold runOps. generalize wf_empty. generalize empty.
  induction ops as [|o ops IH]; intros s Hs; simpl; [done|].
  apply IH. destruct o as [cookie name|cookie name notifyOnly]; simpl.
  - apply (newConnection_spec DcpConsumer cookie name s Hs).
  - apply (newConnection_spec (DcpProducer notifyOnly) cookie name s Hs).
Qed.

(** C5: a call of [newConsumer] or [newProducer] on a registry names the new
    connection "eq_dcpq:" followed by the given name; every connection of the
    registry that has this name is marked for disconnect (and out of [all])
    already between the loop and the insertion, when the new object does not
    exist yet, and stays so; and after the call the new connection is an
    element of [all] (the last) and is what [map_] holds for the cookie.  The
    registry invariant carries over to the result. *)
Theorem new_connection_displaces_namesake
    (cookie : N) (name : string) (notifyOnly : bool) (s : ConnMap) :
  wf s →
  newConnection_post DcpConsumer cookie name s (newConsumer cookie name s) ∧
  wf (snd (newConsumer cookie name s)) ∧
  newConnection_post (DcpProducer notifyOnly) cookie name s
    (newProducer cookie name notifyOnly s) ∧
  wf (snd (newProducer cookie name notifyOnly s)).
Proof.
  intros Hwf.
  destruct (newConnection_spec DcpConsumer cookie name s Hwf) as [? ?].
  destruct (newConnection_spec (DcpProducer notifyOnly) cookie name s Hwf)
    as [? ?].
  by split_and!.
Qed.

End Registry.

(** *** The registry on concrete connection classes

    Consumers keep the vbuckets of their passive streams in [streams];
    [addStream] on a consumer adds the vbucket, and fails on a producer. *)

Definition sampleDefaults (ty : ConnType) : ConnHandler :=
  {| getName := ""; getCookie := 0%N; connType := ty;
     doDisconnect := false; isReserved := true; getLastWalkTime := 0;
     notifiable := Some {| isPaused := true; sentNotify := true |};
     streams := []; getVBVector := [] |}.

Definition sampleIsStreamPresent (c : ConnHandler) (vbucket : Z) : bool :=
  bool_decide (vbucket ∈ streams c).

Definition sampleAddStream (conn : positive) (opaque vbucket flags : Z)
    (os : gmap positive ConnHandler)
  : ENGINE_ERROR_CODE * gmap positive ConnHandler :=
  match os !! conn with
  | Some c =>
      if isConsumer c then
        (ENGINE_SUCCESS,
         <[conn := {| getName := getName c; getCookie := getCookie c;
                      connType := connType c; doDisconnect := doDisconnect c;
                      isReserved := isReserved c;
                      getLastWalkTime := getLastWalkTime c;
                      notifiable := notifiable c;
                      streams := vbucket :: streams c;
                      getVBVector := getVBVector c |}]> os)
      else (ENGINE_DISCONNECT, os)
  | None => (ENGINE_DISCONNECT, os)
  end.

(** One consumer, on cookie 1. *)
Definition oneConsumer : ConnMap :=
  snd (newConsumer sampleDefaults 1%N "replica" empty).

(** The same after [addPassiveStream] for vbucket 7 on it. *)
Definition oneStream : ConnMap :=
  snd (addPassiveStream sampleIsStreamPresent sampleAddStream 1%positive 0 7 0
                        oneConsumer).

(** The second [addPassiveStream] for vbucket 7 is refused and changes
    nothing; the first one was [addStream]. *)
Lemma addPassiveStream_one_per_vbucket_witness :
  addPassiveStream sampleIsStreamPresent sampleAddStream 1%positive 0 7 0
                   oneConsumer = (ENGINE_SUCCESS, oneStream) ∧
  addPassiveStream sampleIsStreamPresent sampleAddStream 1%positive 1 7 0
                   oneStream = (ENGINE_KEY_EEXISTS, oneStream).
Proof.
  split.
  - rewrite (proj1 (proj2 (addPassiveStream_one_per_vbucket
                             sampleIsStreamPresent sampleAddStream
                             1%positive 0 7 0 oneConsumer))).
    + vm_compute. reflexivity.
    + rewrite <- isPassiveStreamConnected_spec. vm_compute. discriminate.
  - apply (proj1 (addPassiveStream_one_per_vbucket sampleIsStreamPresent
                    sampleAddStream 1%positive 1 7 0 oneStream)).
    apply isPassiveStreamConnected_spec. vm_compute. reflexivity.
Defined.

(** A second consumer named "replica", on cookie 2, displaces the first. *)
Lemma new_connection_displaces_namesake_witness :
  markedForDisconnect
    (snd (newConsumer sampleDefaults 2%N "replica" oneConsumer)) 1%positive ∧
  map_ (snd (newConsumer sampleDefaults 2%N "replica" oneConsumer)) !! 2%N
    = Some (fst (newConsumer sampleDefaults 2%N "replica" oneConsumer)).
Proof.
  destruct (new_connection_displaces_namesake sampleDefaults 1%N "replica"
              false empty wf_empty) as (_ & Hwf & _).
  destruct (new_connection_displaces_namesake sampleDefaults 2%N "replica"
              false oneConsumer Hwf) as ((_ & Hmark & _ & _ & _ & _ & Hmap) & _).
  split; [|exact Hmap].
  apply Hmark.
  - left. vm_compute. left.
  - eexists. split; vm_compute; reflexivity.
Defined.

(** C1, as stated, fails.  After [newConsumer] on cookie 1,
    [addPassiveStream] for vbucket 7 on it and a second [newConsumer] with
    the same name on cookie 2, the first consumer is still a connection of
    the map ([map_] holds it under cookie 1) and still holds its passive
    stream for vbucket 7; yet [addPassiveStream] for vbucket 7 on the second
    consumer does not return [ENGINE_KEY_EEXISTS]: it calls [addStream],
    which adds the stream and returns [ENGINE_SUCCESS]. *)
Lemma displaced_consumer_not_consulted :
  let s := snd (newConsumer sampleDefaults 2%N "replica" oneStream) in
  let r := addPassiveStream sampleIsStreamPresent sampleAddStream 2%positive
                            0 7 0 s in
  registered s 1%positive ∧ map_ s !! 1%N = Some 1%positive ∧
  (∃ c, objs s !! 1%positive = Some c ∧ isConsumer c = true ∧
        sampleIsStreamPresent c 7 = true) ∧
  (streams <$> objs s !! 1%positive) = Some [7] ∧
  fst r = ENGINE_SUCCESS ∧ fst r ≠ ENGINE_KEY_EEXISTS ∧
  (streams <$> objs (snd r) !! 2%positive) = Some [7].
Proof.
  split_and!.
  - right. exists 1%N. vm_compute. reflexivity.
  - vm_compute. reflexivity.
  - eexists. split_and!; vm_compute; reflexivity.
  - vm_compute. reflexivity.
  - vm_compute. reflexivity.
  - vm_compute. discriminate.
  - vm_compute. reflexivity.
Qed.

(** A paused, reserved producer that was sent a notify and last walked at
    time 0 is notified by a pass at time 10. *)
Definition oneProducer : ConnMap :=
  snd (newProducer sampleDefaults 3%N "xdcr" false empty).


(** ** DcpConnMap: teardown, fan-out and statistics *)

Inductive vbucket_state_t :=
| vbucket_state_active
| vbucket_state_replica
| vbucket_state_pending
| vbucket_state_dead.

(** The first loop of [disconnect_UNLOCKED]: the first connection of [all]
    with the cookie is marked for disconnect and erased from [all]. *)
Fixpoint disconnectByCookie (cookie : N)
    (os : gmap positive ConnHandler) (l : list positive)
  : gmap positive ConnHandler * list positive :=
  match l with
  | [] => (os, [])
  | p :: rest =>
      match os !! p with
      | Some c =>
          if (getCookie c =? cookie)%N
          then (<[p := setDisconnect true c]> os, rest)
          else let '(os', rest') := disconnectByCookie cookie os rest in
               (os', p :: rest')
      | None =>
          let '(os', rest') := disconnectByCookie cookie os rest in
          (os', p :: rest')
      end
  end.

(** [DcpConnMap::addStats]: the one statistic it publishes. *)
Definition addStats (s : ConnMap) : list (string * Z) :=
  [("ep_dcp_dead_conn_count", Z.of_nat (length (deadConnections s)))].

(** A method call on every connection of a list, in order. *)
Definition forEach (f : ConnHandler → ConnHandler) (l : list positive)
    (os : gmap positive ConnHandler) : gmap positive ConnHandler :=
  foldl (λ acc p, alter f p acc) os l.

Section Lifecycle.

(** Code of the connection classes outside the modelled files: constructors,
    [isStreamPresent], [addStream], [releaseReference] and the write through
    the [Producer] view as before, and the stream and task methods of
    [DcpProducer] and [DcpConsumer] that the registry calls. *)
Variable ctorDefaults : ConnType → ConnHandler.
Variable isStreamPresent : ConnHandler → Z → bool.
Variable addStream :
  positive → Z → Z → Z → gmap positive ConnHandler →
  ENGINE_ERROR_CODE * gmap positive ConnHandler.
Variable releaseReference : ConnHandler → ConnHandler.
Variable setNotifySentAsProducer : ConnHandler → ConnHandler.
Variable producerCloseAllStreams : ConnHandler → ConnHandler.
Variable clearCheckpointProcessorTaskQueues : ConnHandler → ConnHandler.
Variable consumerCloseAllStreams : ConnHandler → ConnHandler.
Variable cancelTask : ConnHandler → ConnHandler.
Variable producerVbucketStateChanged :
  Z → vbucket_state_t → ConnHandler → ConnHandler.
Variable consumerVbucketStateChanged :
  Z → vbucket_state_t → ConnHandler → ConnHandler.
Variable producerCloseSlowStream : Z → string → ConnHandler → bool * ConnHandler.
Variable notifySeqnoAvailable : Z → Z → ConnHandler → ConnHandler.
Variable notifyBackfillManager : ConnHandler → ConnHandler.

(** What [disconnect_UNLOCKED] does to the connection [map_] held: a
    producer closes its streams and clears its checkpoint processor queues,
    anything else cancels its task and closes its streams. *)
Definition teardown (c : ConnHandler) : ConnHandler :=
  if isProducer c
  then clearCheckpointProcessorTaskQueues (producerCloseAllStreams c)
  else consumerCloseAllStreams (cancelTask c).

(** [DcpConnMap::disconnect_UNLOCKED]; the connections that [map_] holds
    are never null, so the entry found is always erased. *)
Definition disconnect_UNLOCKED (cookie : N) (s : ConnMap) : ConnMap :=
  let '(os, l) := disconnectByCookie cookie (objs s) (all s) in
  match map_ s !! cookie with
  | Some conn =>
      {| objs := alter teardown conn os; all := l;
         map_ := delete cookie (map_ s);
         deadConnections := deadConnections s ++ [conn];
         vbConns := vbConns s |}
  | None =>
      {| objs := os; all := l; map_ := map_ s;
         deadConnections := deadConnections s; vbConns := vbConns s |}
  end.

(** [DcpConnMap::disconnect]: [disconnect_UNLOCKED] with [connsLock] held. *)
Definition disconnect (cookie : N) (s : ConnMap) : ConnMap :=
  disconnect_UNLOCKED cookie s.

(** [DcpConnMap::closeAllStreams_UNLOCKED] *)
Definition closeAllStreams_UNLOCKED (s : ConnMap) : ConnMap :=
  {| objs :=
       forEach (λ c, if isProducer c
                     then clearCheckpointProcessorTaskQueues
                            (producerCloseAllStreams c)
                     else consumerCloseAllStreams c)
               (snd <$> entries (map_ s)) (objs s);
     all := all s; map_ := map_ s;
     deadConnections := deadConnections s; vbConns := vbConns s |}.

(** [DcpConnMap::cancelAllTasks_UNLOCKED] *)
Definition cancelAllTasks_UNLOCKED (s : ConnMap) : ConnMap :=
  {| objs := forEach (λ c, if isConsumer c then cancelTask c else c)
                     (snd <$> entries (map_ s)) (objs s);
     all := all s; map_ := map_ s;
     deadConnections := deadConnections s; vbConns := vbConns s |}.

(** [DcpConnMap::shutdownAllConnections]; [now] is the time of its closing
    [manageConnections] pass.  [connNotifier_->stop()] acts on the notifier
    thread, which is no part of the registry. *)
Definition shutdownAllConnections (now : Z) (s : ConnMap)
  : list Event * ConnMap :=
  let toRelease := all s in
  let s1 := cancelAllTasks_UNLOCKED (closeAllStreams_UNLOCKED s) in
  let s2 := {| objs := forEach releaseReference toRelease (objs s1);
               all := []; map_ := ∅;
               deadConnections := deadConnections s1;
               vbConns := vbConns s1 |} in
  manageConnections releaseReference setNotifySentAsProducer now s2.

(** [DcpConnMap::vbucketStateChanged] *)
Definition vbucketStateChanged (vbucket : Z) (state : vbucket_state_t)
    (closeInboundStreams : bool) (s : ConnMap) : ConnMap :=
  {| objs :=
       forEach (λ c, if isProducer c
                     then producerVbucketStateChanged vbucket state c
                     else if closeInboundStreams
                          then consumerVbucketStateChanged vbucket state c
                          else c)
               (snd <$> entries (map_ s)) (objs s);
     all := all s; map_ := map_ s;
     deadConnections := deadConnections s; vbConns := vbConns s |}.

(** [DcpConnMap::notifyBackfillManagerTasks] *)
Definition notifyBackfillManagerTasks (s : ConnMap) : ConnMap :=
  {| objs := forEach (λ c, if isProducer c then notifyBackfillManager c else c)
                     (snd <$> entries (map_ s)) (objs s);
     all := all s; map_ := map_ s;
     deadConnections := deadConnections s; vbConns := vbConns s |}.

(** The loop of [closeSlowStream] over [vbConns[vbid]]: it returns at the
    first producer that closes a stream. *)
Fixpoint closeSlowStreamIn (vbid : Z) (name : string) (l : list positive)
    (os : gmap positive ConnHandler) : bool * gmap positive ConnHandler :=
  match l with
  | [] => (false, os)
  | p :: rest =>
      match os !! p with
      | Some c =>
          let '(closed, c') := producerCloseSlowStream vbid name c in
          if closed then (true, <[p := c']> os)
          else closeSlowStreamIn vbid name rest (<[p := c']> os)
      | None => closeSlowStreamIn vbid name rest os
      end
  end.

(** [DcpConnMap::closeSlowStream] *)
Definition closeSlowStream (vbid : Z) (name : string) (s : ConnMap)
  : bool * ConnMap :=
  let '(closed, os) :=
    closeSlowStreamIn vbid name (default [] (vbConns s !! vbid)) (objs s) in
  (closed, {| objs := os; all := all s; map_ := map_ s;
              deadConnections := deadConnections s; vbConns := vbConns s |}).

(** [DcpConnMap::notifyVBConnections] *)
Definition notifyVBConnections (vbid bySeqno : Z) (s : ConnMap) : ConnMap :=
  {| objs := forEach (notifySeqnoAvailable vbid bySeqno)
                     (default [] (vbConns s !! vbid)) (objs s);
     all := all s; map_ := map_ s;
     deadConnections := deadConnections s; vbConns := vbConns s |}.

(** A method keeps what the registry identifies a connection by: its name,
    its cookie and its disconnect flag. *)
Definition keepsIdentity (f : ConnHandler → ConnHandler) : Prop :=
  ∀ c, getName (f c) = getName c ∧ getCookie (f c) = getCookie c ∧
       doDisconnect (f c) = doDisconnect c.

(** *** Disconnect *)

Lemma disconnectByCookie_absent (cookie : N)
    (os : gmap positive ConnHandler) (l : list positive) :
  (∀ p c, p ∈ l → os !! p = Some c → getCookie c ≠ cookie) →
  disconnectByCookie cookie os l = (os, l).
Proof.
  induction l as [|q l IH]; intros Hno; simpl; [done|].
  rewrite IH by (intros p c Hin; apply Hno; by right).
  destruct (os !! q) as [d|] eqn:Hd; [|done].
  destruct (N.eqb_spec (getCookie d) cookie) as [Heq|Hne]; [|done].
  destruct (Hno q d); [left|done|done].
Qed.

Lemma disconnectByCookie_found (cookie : N) (os : gmap positive ConnHandler)
    (pre : list positive) (p : positive) (post : list positive)
    (c : ConnHandler) :
  os !! p = Some c → getCookie c = cookie →
  (∀ q d, q ∈ pre → os !! q = Some d → getCookie d ≠ cookie) →
  disconnectByCookie cookie os (pre ++ p :: post)
    = (<[p := setDisconnect true c]> os, pre ++ post).
Proof.
  intros Hc Hck. induction pre as [|q pre IH]; intros Hpre; simpl.
  - rewrite Hc. by rewrite (proj2 (N.eqb_eq _ _) Hck).
  - rewrite IH by (intros q' d Hin; apply Hpre; by right).
    destruct (os !! q) as [d|] eqn:Hd; [|done].
    destruct (N.eqb_spec (getCookie d) cookie) as [Heq|Hne]; [|done].
    destruct (Hpre q d); [left|done|done].
Qed.

(** Either no connection of the list carries the cookie, or there is a first
    one that does. *)
Lemma first_with_cookie (cookie : N) (os : gmap positive ConnHandler)
    (l : list positive) :
  (∀ p c, p ∈ l → os !! p = Some c → getCookie c ≠ cookie) ∨
  (∃ pre p post c,
     l = pre ++ p :: post ∧ os !! p = Some c ∧ getCookie c = cookie ∧
     ∀ q d, q ∈ pre → os !! q = Some d → getCookie d ≠ cookie).
Proof.
  induction l as [|q l IH].
  - left. by intros p c ?%elem_of_nil.
  - destruct (os !! q) as [d|] eqn:Hd.
    + destruct (decide (getCookie d = cookie)) as [Heq|Hne].
      * right. exists [], q, l, d. split_and!; [done|done|done|].
        by intros q' d' ?%elem_of_nil.
      * destruct IH as [Hno|(pre & p & post & c & -> & Hc & Hck & Hpre)].
        -- left. intros p c [->|Hin]%elem_of_cons Hc.
           ++ rewrite Hd in Hc. by injection Hc as <-.
           ++ by apply (Hno p).
        -- right. exists (q :: pre), p, post, c. split_and!; [done|done|done|].
           intros q' d' [->|Hin]%elem_of_cons Hd'.
           ++ rewrite Hd in Hd'. by injection Hd' as <-.
           ++ by apply (Hpre q').
    + destruct IH as [Hno|(pre & p & post & c & -> & Hc & Hck & Hpre)].
      * left. intros p c [->|Hin]%elem_of_cons Hc.
        -- by rewrite Hd in Hc.
        -- by apply (Hno p).
      * right. exists (q :: pre), p, post, c. split_and!; [done|done|done|].
        intros q' d' [->|Hin]%elem_of_cons Hd'.
        -- by rewrite Hd in Hd'.
        -- by apply (Hpre q').
Qed.

(** X9: [disconnect] for a cookie that [map_] does not hold leaves [map_],
    the dead connections and the per-vbucket lists alone, and when no
    connection of [all] carries the cookie either, it changes nothing at
    all. *)
Theorem disconnect_unknown_cookie (cookie : N) (s : ConnMap) :
  map_ s !! cookie = None →
  map_ (disconnect cookie s) = map_ s ∧
  deadConnections (disconnect cookie s) = deadConnections s ∧
  vbConns (disconnect cookie s) = vbConns s ∧
  ((∀ p c, p ∈ all s → objs s !! p = Some c → getCookie c ≠ cookie) →
   disconnect cookie s = s).
Proof.
  intros Hm. unfold disconnect, disconnect_UNLOCKED.
  destruct (disconnectByCookie cookie (objs s) (all s)) as [os l] eqn:Hd.
  rewrite Hm. simpl. split_and!; [done|done|done|].
  intros Hno. rewrite disconnectByCookie_absent in Hd by done.
  injection Hd as <- <-. by destruct s.
Qed.

(** X10: [disconnect] for a cookie that [map_] holds, when the teardown
    methods keep a connection's identity: the cookie leaves [map_] and the
    other cookies keep their connections; the connection [map_] held is
    torn down and appended to the dead connections, so the dead connection
    count that [addStats] publishes grows by one; [all] loses the first
    connection that carries the cookie, which is marked for disconnect, and
    nothing when none carries it. *)
Theorem disconnect_known_cookie (cookie : N) (conn : positive) (s : ConnMap) :
  map_ s !! cookie = Some conn →
  keepsIdentity teardown →
  let s' := disconnect cookie s in
  map_ s' !! cookie = None ∧
  (∀ k, k ≠ cookie → map_ s' !! k = map_ s !! k) ∧
  deadConnections s' = deadConnections s ++ [conn] ∧
  addStats s' = [("ep_dcp_dead_conn_count",
                  Z.of_nat (length (deadConnections s)) + 1)] ∧
  vbConns s' = vbConns s ∧
  (∀ c, objs s !! conn = Some c →
        objs s' !! conn = Some (teardown c) ∨
        objs s' !! conn = Some (teardown (setDisconnect true c))) ∧
  ((∀ p c, p ∈ all s → objs s !! p = Some c → getCookie c ≠ cookie) →
   all s' = all s) ∧
  (∀ pre p post c,
     all s = pre ++ p :: post → objs s !! p = Some c → getCookie c = cookie →
     (∀ q d, q ∈ pre → objs s !! q = Some d → getCookie d ≠ cookie) →
     all s' = pre ++ post ∧ markedForDisconnect s' p).
Proof.
  intros Hm Hkeep s'. subst s'. unfold disconnect, disconnect_UNLOCKED.
  destruct (disconnectByCookie cookie (objs s) (all s)) as [os l] eqn:Hd.
  rewrite Hm. unfold addStats, markedForDisconnect. simpl.
  split_and!.
  - apply lookup_delete_eq.
  - intros k Hk. by apply lookup_delete_ne.
  - done.
  - by rewrite length_app, Nat2Z.inj_add.
  - done.
  - intros c Hc.
    destruct (first_with_cookie cookie (objs s) (all s))
      as [Hno|(pre & p & post & d & Hall & Hp & Hck & Hpre)].
    + rewrite disconnectByCookie_absent in Hd by done. injection Hd as <- <-.
      left. by rewrite lookup_alter_eq, Hc.
    + rewrite Hall, (disconnectByCookie_found _ _ _ _ _ _ Hp Hck Hpre) in Hd.
      injection Hd as <- <-. rewrite lookup_alter_eq.
      destruct (decide (p = conn)) as [->|Hne].
      * right. rewrite lookup_insert_eq. rewrite Hc in Hp. by injection Hp as ->.
      * left. by rewrite lookup_insert_ne, Hc.
  - intros Hno. rewrite disconnectByCookie_absent in Hd by done.
    by injection Hd as <- <-.
  - intros pre p post c Hall Hp Hck Hpre.
    rewrite Hall, (disconnectByCookie_found _ _ _ _ _ _ Hp Hck Hpre) in Hd.
    injection Hd as <- <-. split; [done|].
    destruct (decide (conn = p)) as [->|Hne].
    + exists (teardown (setDisconnect true c)).
      rewrite lookup_alter_eq, lookup_insert_eq. split; [done|].
      by rewrite (proj2 (proj2 (Hkeep _))).
    + exists (setDisconnect true c).
      by rewrite lookup_alter_ne, lookup_insert_eq.
Qed.

(** A heap that keeps every object's name and never clears a disconnect
    flag. *)
Definition keepsNames (os os' : gmap positive ConnHandler) : Prop :=
  ∀ q, option_Forall2
         (λ c c', getName c' = getName c ∧
                  (doDisconnect c = true → doDisconnect c' = true))
         (os !! q) (os' !! q).

(** The registry invariant survives when connections leave [all] and
    [map_], as long as names are kept and whatever leaves [all] is marked
    for disconnect. *)
Lemma wf_shrink (s : ConnMap) (os' : gmap positive ConnHandler)
    (l' : list positive) (m' : gmap N positive)
    (dead : list positive) (vbc : gmap Z (list positive)) :
  wf s → l' `sublist_of` all s → m' ⊆ map_ s →
  keepsNames (objs s) os' →
  (∀ q, q ∈ all s → q ∉ l' → ∃ c, os' !! q = Some c ∧ doDisconnect c = true) →
  wf {| objs := os'; all := l'; map_ := m';
        deadConnections := dead; vbConns := vbc |}.
Proof.
  intros [Hlive Hmlive Hnames Hdisp] Hsub Hm Hkeep Hleft.
  assert (Hsome : ∀ q, is_Some (objs s !! q) → is_Some (os' !! q)).
  { intros q [c Hc]. specialize (Hkeep q). rewrite Hc in Hkeep.
    inversion Hkeep. by eexists. }
  split; simpl.
  - intros q Hq. apply Hsome, Hlive. by eapply elem_of_sublist.
  - intros k q Hk. apply Hsome, (Hmlive k).
    by eapply lookup_weaken.
  - assert (Heq : nameOf os' <$> l' = nameOf (objs s) <$> l').
    { apply list_fmap_ext. intros i q _. unfold nameOf.
      specialize (Hkeep q).
      destruct (objs s !! q), (os' !! q); inversion Hkeep as [? ? [Hn _]|];
        simpl; by try rewrite Hn. }
    rewrite Heq. eapply sublist_NoDup; [exact Hnames|by apply fmap_sublist].
  - intros k q c Hk Hout Hc.
    destruct (decide (q ∈ all s)) as [Hin|Hnin].
    + destruct (Hleft q Hin Hout) as (c' & Hc' & Hflag).
      rewrite Hc in Hc'. by injection Hc' as <-.
    + specialize (Hkeep q). rewrite Hc in Hkeep.
      inversion Hkeep as [c0 c1 [_ Hflag] Hc0|]; subst.
      apply Hflag, (Hdisp k q c0); [by eapply lookup_weaken|done|done].
Qed.

(** X11: [disconnect] keeps the registry invariant, when the teardown
    methods keep a connection's identity. *)
Theorem disconnect_keeps_invariant (cookie : N) (s : ConnMap) :
  keepsIdentity teardown → wf s → wf (disconnect cookie s).
Proof.
  intros Hkeep Hwf. unfold disconnect, disconnect_UNLOCKED.
  assert (Hshape : ∃ os l,
            disconnectByCookie cookie (objs s) (all s) = (os, l) ∧
            l `sublist_of` all s ∧ keepsNames (objs s) os ∧
            (∀ q, q ∈ all s → q ∉ l →
                  ∃ c, os !! q = Some c ∧ doDisconnect c = true)).
  { destruct (first_with_cookie cookie (objs s) (all s))
      as [Hno|(pre & p & post & d & Hall & Hp & Hck & Hpre)].
    - exists (objs s), (all s). split_and!.
      + by apply disconnectByCookie_absent.
      + done.
      + intros q. by destruct (objs s !! q); constructor.
      + done.
    - exists (<[p := setDisconnect true d]> (objs s)), (pre ++ post).
      split_and!.
      + rewrite Hall. by apply disconnectByCookie_found.
      + rewrite Hall. apply sublist_app; [done|]. by apply sublist_cons.
      + intros q. destruct (decide (p = q)) as [->|Hne].
        * rewrite lookup_insert_eq, Hp. by constructor.
        * rewrite lookup_insert_ne by done.
          by destruct (objs s !! q); constructor.
      + intros q Hin Hout. rewrite Hall in Hin.
        assert (q = p) as ->.
        { apply elem_of_app in Hin as [Hin|[->|Hin]%elem_of_cons]; [|done|];
            destruct Hout; apply elem_of_app; [by left|by right]. }
        exists (setDisconnect true d). by rewrite lookup_insert_eq. }
  destruct Hshape as (os & l & -> & Hsub & Hnames & Hleft).
  destruct (map_ s !! cookie) as [conn|] eqn:Hm.
  - apply (wf_shrink s); [done|done|apply delete_subseteq| |].
    + intros q. specialize (Hnames q).
      destruct (decide (conn = q)) as [->|Hne].
      * rewrite lookup_alter_eq.
        destruct Hnames as [c c' [Hn Hf]|]; constructor.
        destruct (Hkeep c') as (-> & _ & ->). done.
      * by rewrite lookup_alter_ne.
    + intros q Hin Hout. destruct (Hleft q Hin Hout) as (c & Hc & Hflag).
      destruct (decide (conn = q)) as [->|Hne].
      * exists (teardown c). rewrite lookup_alter_eq, Hc. split; [done|].
        by rewrite (proj2 (proj2 (Hkeep c))).
      * exists c. by rewrite lookup_alter_ne.
  - by apply (wf_shrink s).
Qed.

(** *** What a new connection leaves alone *)

(** The loop over [all] only ever sets one disconnect flag. *)
Lemma displace_frame (cn : string) (s : ConnMap) :
  map_ (displace cn s) = map_ s ∧
  deadConnections (displace cn s) = deadConnections s ∧
  vbConns (displace cn s) = vbConns s ∧
  dom (objs (displace cn s)) = dom (objs s) ∧
  (∀ q, objs (displace cn s) !! q = objs s !! q ∨
        ∃ c, objs s !! q = Some c ∧ getName c = cn ∧ q ∈ all s ∧
             objs (displace cn s) !! q = Some (setDisconnect true c)) ∧
  ((all (displace cn s) = all s ∧
    ∀ p c, p ∈ all s → objs s !! p = Some c → getName c ≠ cn) ∨
   (S (length (all (displace cn s))) = length (all s) ∧
    ∃ p c, p ∈ all s ∧ objs s !! p = Some c ∧ getName c = cn)).
Proof.
  destruct (displace_cases cn s)
    as [[-> Hno]|(pre & p & post & c & Hall & Hc & Hcn & ->)]; simpl.
  - split_and!; [done|done|done|done|by left|by left].
  - assert (Hin : p ∈ all s).
    { rewrite Hall. apply elem_of_app. right. left. }
    split_and!; [done|done|done| | |].
    + rewrite dom_insert_L. apply elem_of_dom_2 in Hc.
      apply set_eq. intros x. rewrite elem_of_union, elem_of_singleton.
      split; [by intros [->|?]|by right].
    + intros q. destruct (decide (p = q)) as [->|Hne].
      * right. exists c. by rewrite lookup_insert_eq.
      * left. by rewrite lookup_insert_ne.
    + right. split; [|by exists p, c].
      rewrite Hall, !length_app. simpl. lia.
Qed.

(** What a call that creates a connection named [cn] leaves alone: the
    other cookies of [map_], the dead connections, the per-vbucket lists and
    every existing object but a namesake of [all], of which only the
    disconnect flag is set; the new object is at a fresh address; and [all]
    grows by one, or keeps its length when a namesake left it. *)
Definition newConnection_frame (cookie : N) (cn : string) (s : ConnMap)
    (r : positive * ConnMap) : Prop :=
  let dcp := fst r in
  let s' := snd r in
  (∀ k, k ≠ cookie → map_ s' !! k = map_ s !! k) ∧
  deadConnections s' = deadConnections s ∧
  vbConns s' = vbConns s ∧
  objs s !! dcp = None ∧
  (∀ q, q ≠ dcp →
        objs s' !! q = objs s !! q ∨
        ∃ c, objs s !! q = Some c ∧ getName c = cn ∧ q ∈ all s ∧
             objs s' !! q = Some (setDisconnect true c)) ∧
  ((length (all s') = S (length (all s)) ∧
    ∀ p c, p ∈ all s → objs s !! p = Some c → getName c ≠ cn) ∨
   (length (all s') = length (all s) ∧
    ∃ p c, p ∈ all s ∧ objs s !! p = Some c ∧ getName c = cn)).

Lemma insertConn_displace_frame (cookie : N) (c : ConnHandler) (cn : string)
    (s : ConnMap) :
  newConnection_frame cookie cn s (insertConn cookie c (displace cn s)).
Proof.
  destruct (displace_frame cn s) as (Hmap & Hdead & Hvb & Hdom & Hobjs & Hlen).
  unfold newConnection_frame, insertConn. simpl.
  set (dcp := fresh (dom (objs (displace cn s)))).
  split_and!.
  - intros k Hk. by rewrite lookup_insert_ne, Hmap.
  - done.
  - done.
  - apply not_elem_of_dom. rewrite <- Hdom. apply is_fresh.
  - intros q Hq. rewrite lookup_insert_ne by done. apply Hobjs.
  - rewrite length_app. simpl.
    destruct Hlen as [[-> Hno]|[Hl Hex]]; [left|right]; split; try done; lia.
Qed.

(** X12: [newConsumer] and [newProducer] leave alone the other cookies of
    [map_], the dead connections, the per-vbucket lists and every existing
    object but a namesake of [all] (whose disconnect flag is set); the new
    object is at a fresh address; [all] grows by one connection when no
    connection of [all] has the name, and keeps its length when one has. *)
Theorem new_connection_frame
    (cookie : N) (name : string) (notifyOnly : bool) (s : ConnMap) :
  newConnection_frame cookie (String.append "eq_dcpq:" name) s
    (newConsumer ctorDefaults cookie name s) ∧
  newConnection_frame cookie (String.append "eq_dcpq:" name) s
    (newProducer ctorDefaults cookie name notifyOnly s).
Proof. split; apply insertConn_displace_frame. Qed.

(** A connection on a cookie that the registry does not know, then
    [disconnect] of the cookie. *)
Definition roundTrip_post (ty : ConnType) (cookie : N) (cn : string)
    (s : ConnMap) (dcp : positive) (s' : ConnMap) : Prop :=
  all s' = all (displace cn s) ∧ map_ s' = map_ s ∧
  deadConnections s' = deadConnections s ++ [dcp] ∧
  vbConns s' = vbConns s ∧
  (dcp ∉ all s') ∧
  objs s' !! dcp
    = Some (teardown (setDisconnect true (construct ctorDefaults ty cookie cn))) ∧
  (∀ q, q ≠ dcp → objs s' !! q = objs (displace cn s) !! q).

Lemma insertConn_disconnect (ty : ConnType) (cookie : N) (cn : string)
    (s : ConnMap) :
  wf s → map_ s !! cookie = None →
  (∀ p c, p ∈ all s → objs s !! p = Some c → getCookie c ≠ cookie) →
  let r := insertConn cookie (construct ctorDefaults ty cookie cn)
                      (displace cn s) in
  roundTrip_post ty cookie cn s (fst r) (disconnect cookie (snd r)).
Proof.
  intros Hwf Hm Hno.
  destruct (displace_frame cn s) as (Hmap & Hdead & Hvb & Hdom & Hobjs & Hlen).
  destruct (displace_wf cn s Hwf) as ([Hlive _ _ _] & _).
  assert (Hsub : ∀ q, q ∈ all (displace cn s) → q ∈ all s).
  { intros q Hq. destruct (displace_cases cn s)
      as [[Heq _]|(pre & p & post & c & Hall & _ & _ & Heq)];
      [by rewrite Heq in Hq|].
    rewrite Heq in Hq. simpl in Hq. rewrite Hall.
    apply elem_of_app in Hq as [?|?]; apply elem_of_app;
      [by left|right; by right]. }
  simpl. unfold roundTrip_post, disconnect, disconnect_UNLOCKED. simpl.
  set (mid := displace cn s) in *.
  set (dcp := fresh (dom (objs mid))).
  set (new := construct ctorDefaults ty cookie cn).
  assert (Hnone : objs mid !! dcp = None) by apply not_elem_of_dom, is_fresh.
  assert (Hnotin : dcp ∉ all mid).
  { intros Hin. apply Hlive in Hin. rewrite Hnone in Hin. by destruct Hin. }
  rewrite (disconnectByCookie_found cookie _ (all mid) dcp [] new).
  - rewrite lookup_insert_eq. simpl. rewrite app_nil_r.
    split_and!; [done| |by rewrite Hdead|done|done| |].
    + rewrite delete_insert_id; [done|]. by rewrite Hmap.
    + by rewrite lookup_alter_eq, lookup_insert_eq.
    + intros q Hq. by rewrite lookup_alter_ne, !lookup_insert_ne.
  - by rewrite lookup_insert_eq.
  - done.
  - intros q d Hq Hd.
    assert (q ≠ dcp) by (by intros ->).
    rewrite lookup_insert_ne in Hd by done.
    destruct (Hobjs q) as [Heq|(c & Hc & _ & Hin & Heq)].
    + rewrite Heq in Hd. apply (Hno q d); [by apply Hsub|done].
    + rewrite Heq in Hd. injection Hd as <-. simpl. by apply (Hno q c).
Qed.

(** X13: on a registry that satisfies the invariant and does not know the
    cookie, a [newConsumer] or [newProducer] followed by [disconnect] of the
    cookie gives back [all] and [map_] as they were but for the displaced
    namesake; the connection is out of [all], is the last of the dead
    connections, and was marked for disconnect, then, for a consumer, had its
    task cancelled before its streams were closed, and, for a producer, had
    its streams closed before its checkpoint processor queues were cleared;
    no other object is touched by the [disconnect]. *)
Theorem connect_disconnect_round_trip
    (cookie : N) (name : string) (notifyOnly : bool) (s : ConnMap) :
  wf s → map_ s !! cookie = None →
  (∀ p c, p ∈ all s → objs s !! p = Some c → getCookie c ≠ cookie) →
  let cn := String.append "eq_dcpq:" name in
  let rc := newConsumer ctorDefaults cookie name s in
  let rp := newProducer ctorDefaults cookie name notifyOnly s in
  roundTrip_post DcpConsumer cookie cn s (fst rc) (disconnect cookie (snd rc)) ∧
  objs (disconnect cookie (snd rc)) !! fst rc
    = Some (consumerCloseAllStreams
              (cancelTask
                 (setDisconnect true
                    (construct ctorDefaults DcpConsumer cookie cn)))) ∧
  roundTrip_post (DcpProducer notifyOnly) cookie cn s (fst rp)
                 (disconnect cookie (snd rp)) ∧
  objs (disconnect cookie (snd rp)) !! fst rp
    = Some (clearCheckpointProcessorTaskQueues
              (producerCloseAllStreams
                 (setDisconnect true
                    (construct ctorDefaults (DcpProducer notifyOnly)
                               cookie cn)))).
Proof.
  intros Hwf Hm Hno cn rc rp.
  pose proof (insertConn_disconnect DcpConsumer cookie cn s Hwf Hm Hno) as Hc.
  pose proof (insertConn_disconnect (DcpProducer notifyOnly) cookie cn s
                Hwf Hm Hno) as Hp.
  split_and!; [exact Hc| |exact Hp|].
  - destruct Hc as (_ & _ & _ & _ & _ & Hobj & _). exact Hobj.
  - destruct Hp as (_ & _ & _ & _ & _ & Hobj & _). exact Hobj.
Qed.

(** *** The reaper pass and the heap *)

Lemma setNotifySent_idem (c : ConnHandler) :
  setNotifySent true (setNotifySent true c) = setNotifySent true c.
Proof.
  unfold setNotifySent. simpl. f_equal. by destruct (notifiable c) as [[]|].
Qed.

(** What the second loop writes for a connection: the notify-sent flag of a
    producer, and for any other object the write through the [Producer]
    view. *)
Definition notifySentWrite (c : ConnHandler) : ConnHandler :=
  if isProducer c then setNotifySent true c else setNotifySentAsProducer c.

(** The heap after the second loop: a connection that is not collected is
    as it was; a collected producer that is reserved has its notify-sent
    flag set; a reserved connection that is collected once is written
    once. *)
Lemma signal_lookup_notin (toNotify : list positive)
    (os : gmap positive ConnHandler) (q : positive) :
  q ∉ toNotify → (signal setNotifySentAsProducer toNotify os).2 !! q = os !! q.
Proof.
  revert os. induction toNotify as [|p rest IH]; intros os Hq; simpl; [done|].
  apply not_elem_of_cons in Hq as [Hne Hq].
  destruct (os !! p) as [c|] eqn:Hp; [|by apply IH].
  destruct (isReserved c); [|by apply IH].
  specialize (IH (<[p := notifySentWrite c]> os) Hq).
  unfold notifySentWrite in IH.
  destruct (signal setNotifySentAsProducer rest _) as [evs os'].
  simpl in *. by rewrite IH, lookup_insert_ne.
Qed.

Lemma signal_lookup_producer (toNotify : list positive)
    (os : gmap positive ConnHandler) (q : positive) (c : ConnHandler) :
  os !! q = Some c → isProducer c = true →
  (signal setNotifySentAsProducer toNotify os).2 !! q =
    Some (if bool_decide (q ∈ toNotify) && isReserved c
          then setNotifySent true c else c).
Proof.
  revert os c. induction toNotify as [|p rest IH]; intros os c Hc Hprod; simpl;
    [done|].
  assert (Hext : p ≠ q →
            bool_decide (q ∈ p :: rest) = bool_decide (q ∈ rest)).
  { intros Hne. apply bool_decide_ext. rewrite elem_of_cons.
    split; [by intros [->|?]|by right]. }
  destruct (decide (p = q)) as [->|Hne].
  - rewrite Hc, Hprod.
    rewrite (bool_decide_eq_true_2 (q ∈ q :: rest)) by left. simpl.
    destruct (isReserved c) eqn:Hr.
    + specialize (IH (<[q := setNotifySent true c]> os) (setNotifySent true c)).
      destruct (signal setNotifySentAsProducer rest _) as [evs os'].
      simpl in *. rewrite IH; [|by rewrite lookup_insert_eq|done].
      rewrite Hr, setNotifySent_idem. by destruct (bool_decide (q ∈ rest)).
    + rewrite (IH os c Hc Hprod), Hr, andb_false_r. done.
  - rewrite Hext by done.
    destruct (os !! p) as [d|] eqn:Hp; [|by apply IH].
    destruct (isReserved d); [|by apply IH].
    specialize (IH (<[p := notifySentWrite d]> os) c).
    unfold notifySentWrite in IH.
    destruct (signal setNotifySentAsProducer rest _) as [evs os'].
    simpl in *. apply IH; [by rewrite lookup_insert_ne|done].
Qed.

Lemma signal_lookup_once (l1 l2 : list positive)
    (os : gmap positive ConnHandler) (q : positive) (c : ConnHandler) :
  q ∉ l1 → q ∉ l2 → os !! q = Some c → isReserved c = true →
  (signal setNotifySentAsProducer (l1 ++ q :: l2) os).2 !! q
    = Some (notifySentWrite c).
Proof.
  intros H1 H2. revert os. induction l1 as [|p l1 IH]; intros os Hc Hr; simpl.
  - rewrite Hc, Hr.
    pose proof (signal_lookup_notin l2 (<[q := notifySentWrite c]> os) q H2)
      as Hrest.
    unfold notifySentWrite in *.
    destruct (signal setNotifySentAsProducer l2 _) as [evs os'].
    simpl in *. by rewrite Hrest, lookup_insert_eq.
  - apply not_elem_of_cons in H1 as [Hne H1].
    destruct (os !! p) as [d|] eqn:Hp; [|by apply IH].
    destruct (isReserved d); [|by apply IH].
    specialize (IH H1 (<[p := notifySentWrite d]> os)).
    unfold notifySentWrite in IH at 1.
    destruct (signal setNotifySentAsProducer (l1 ++ q :: l2) _) as [evs os'].
    simpl in *. apply IH; [by rewrite lookup_insert_ne|done].
Qed.

(** The last loop leaves alone the objects it does not release, and calls
    [releaseReference] once on each of those it does, when none is listed
    twice. *)
Lemma releaseAll_lookup_notin (release : list positive)
    (os : gmap positive ConnHandler) (vbc : gmap Z (list positive))
    (q : positive) :
  q ∉ release → (releaseAll releaseReference release os vbc).1 !! q = os !! q.
Proof.
  revert os vbc. induction release as [|p rest IH]; intros os vbc Hq; simpl;
    [done|].
  apply not_elem_of_cons in Hq as [Hne Hq]. rewrite IH by done.
  destruct (os !! p); [|done]. by rewrite lookup_insert_ne.
Qed.

Lemma releaseAll_lookup_in (release : list positive)
    (os : gmap positive ConnHandler) (vbc : gmap Z (list positive))
    (q : positive) :
  NoDup release → q ∈ release →
  (releaseAll releaseReference release os vbc).1 !! q
    = releaseReference <$> os !! q.
Proof.
  revert os vbc. induction release as [|p rest IH]; intros os vbc Hnd Hq;
    simpl; [by apply elem_of_nil in Hq|].
  apply NoDup_cons in Hnd as [Hp Hnd].
  apply elem_of_cons in Hq as [->|Hq].
  - rewrite releaseAll_lookup_notin by done.
    destruct (os !! p) as [c|] eqn:Hc.
    + by rewrite lookup_insert_eq.
    + by rewrite Hc.
  - rewrite IH by done. destruct (os !! p) as [c|] eqn:Hc; [|done].
    rewrite lookup_insert_ne; [done|]. by intros ->.
Qed.

(** The entries of [map_] list a connection held under one cookie once,
    and so does the first loop. *)
Lemma entries_split_pairs (m : gmap N positive) (k : N) (q : positive) :
  m !! k = Some q → (∀ k', m !! k' = Some q → k' = k) →
  ∃ e1 e2, entries m = e1 ++ (k, q) :: e2 ∧
           (∀ e, e ∈ e1 → snd e ≠ q) ∧ (∀ e, e ∈ e2 → snd e ≠ q).
Proof.
  intros Hk Honly.
  assert (Hnd : NoDup (entries m)).
  { unfold entries. rewrite merge_sort_Permutation. apply NoDup_map_to_list. }
  apply entries_elem_of, list_elem_of_split in Hk as (e1 & e2 & He).
  assert (Hin : ∀ e, e ∈ e1 ++ (k, q) :: e2 → snd e = q → e = (k, q)).
  { intros [k' q'] Hin Hq. simpl in Hq. subst q'. rewrite <- He in Hin.
    apply entries_elem_of, Honly in Hin. by subst k'. }
  rewrite He in Hnd. apply NoDup_app in Hnd as (_ & Hsep & Hnd).
  apply NoDup_cons in Hnd as [Hnot _].
  exists e1, e2. split_and!; [done| |].
  - intros e He1 Hq.
    assert (e = (k, q)) as ->.
    { apply Hin; [|done]. apply elem_of_app. by left. }
    apply (Hsep (k, q) He1). left.
  - intros e He2 Hq.
    assert (e = (k, q)) as ->.
    { apply Hin; [|done]. apply elem_of_app. right. by right. }
    done.
Qed.

Lemma collectToNotify_once (now : Z) (s : ConnMap) (k : N) (q : positive)
    (c : ConnHandler) :
  map_ s !! k = Some q → (∀ k', map_ s !! k' = Some q → k' = k) →
  objs s !! q = Some c → needsNotify now c = true →
  ∃ l1 l2, collectToNotify now s = l1 ++ q :: l2 ∧ (q ∉ l1) ∧ (q ∉ l2).
Proof.
  intros Hk Honly Hc Hn.
  destruct (entries_split_pairs (map_ s) k q Hk Honly)
    as (e1 & e2 & He & H1 & H2).
  unfold collectToNotify. rewrite He, omap_app. simpl. rewrite Hc, Hn.
  eexists _, _. split_and!; [done| |].
  - intros ([k' q'] & He1 & Hq)%list_elem_of_omap. simpl in Hq.
    destruct (objs s !! q') as [d|]; [|done].
    destruct (needsNotify now d); [|done]. injection Hq as ->.
    by apply (H1 _ He1).
  - intros ([k' q'] & He2 & Hq)%list_elem_of_omap. simpl in Hq.
    destruct (objs s !! q') as [d|]; [|done].
    destruct (needsNotify now d); [|done]. injection Hq as ->.
    by apply (H2 _ He2).
Qed.

Lemma manageConnections_state (now : Z) (s : ConnMap) :
  all (manageConnections releaseReference setNotifySentAsProducer now s).2
    = all s ∧
  map_ (manageConnections releaseReference setNotifySentAsProducer now s).2
    = map_ s ∧
  deadConnections
    (manageConnections releaseReference setNotifySentAsProducer now s).2
    = [] ∧
  (∀ q, q ∉ deadConnections s → q ∉ collectToNotify now s →
     objs (manageConnections releaseReference setNotifySentAsProducer
             now s).2 !! q = objs s !! q) ∧
  (∀ q c, q ∉ deadConnections s → objs s !! q = Some c →
     isProducer c = true →
     objs (manageConnections releaseReference setNotifySentAsProducer
             now s).2 !! q =
       Some (if bool_decide (q ∈ collectToNotify now s) && isReserved c
             then setNotifySent true c else c)) ∧
  (∀ q c l1 l2, q ∉ deadConnections s → objs s !! q = Some c →
     isReserved c = true →
     collectToNotify now s = l1 ++ q :: l2 → q ∉ l1 → q ∉ l2 →
     objs (manageConnections releaseReference setNotifySentAsProducer
             now s).2 !! q = Some (notifySentWrite c)) ∧
  (∀ q, NoDup (deadConnections s) → q ∈ deadConnections s →
     q ∉ collectToNotify now s →
     objs (manageConnections releaseReference setNotifySentAsProducer
             now s).2 !! q = releaseReference <$> objs s !! q).
Proof.
  unfold manageConnections.
  pose proof (signal_lookup_notin (collectToNotify now s) (objs s)) as Hnotin.
  pose proof (signal_lookup_producer (collectToNotify now s) (objs s))
    as Hprod.
  pose proof (λ l1 l2, signal_lookup_once l1 l2 (objs s)) as Honce.
  destruct (signal setNotifySentAsProducer (collectToNotify now s) (objs s))
    as [evs os1] eqn:Hsig.
  pose proof (releaseAll_lookup_notin (deadConnections s) os1 (vbConns s))
    as Hout.
  pose proof (releaseAll_lookup_in (deadConnections s) os1 (vbConns s))
    as Hin.
  destruct (releaseAll releaseReference (deadConnections s) os1 (vbConns s))
    as [os2 vbc].
  simpl in *. split_and!; [done|done|done| | | |].
  - intros q Hq Hcol. by rewrite Hout, Hnotin.
  - intros q c Hq Hc Hp. by rewrite Hout, (Hprod q c).
  - intros q c l1 l2 Hq Hc Hr Hsplit H1 H2. rewrite Hout by done.
    specialize (Honce l1 l2 q c H1 H2 Hc Hr).
    rewrite <- Hsplit, Hsig in Honce. done.
  - intros q Hnd Hq Hcol. by rewrite Hin, Hnotin.
Qed.

(** X14: a pass of [manageConnections] leaves [all] and [map_] as they
    were and empties the dead connections, so [addStats] then publishes a
    dead connection count of 0.  Of the connections that were not dead: a
    producer that the pass notifies gets its notify-sent flag set and
    nothing else; a connection that is not a producer and that the pass
    notifies (held by [map_] under one cookie) is written through the
    [Producer] view of the object, not through its own [Notifiable]; and
    those the pass does not notify are untouched. *)
Theorem reaper_pass_effect (now : Z) (s : ConnMap) :
  let evs :=
    (manageConnections releaseReference setNotifySentAsProducer now s).1 in
  let s' :=
    (manageConnections releaseReference setNotifySentAsProducer now s).2 in
  all s' = all s ∧ map_ s' = map_ s ∧ deadConnections s' = [] ∧
  addStats s' = [("ep_dcp_dead_conn_count", 0)] ∧
  (∀ q c, q ∉ deadConnections s → objs s !! q = Some c →
          isProducer c = true →
          NotifyIOComplete q (getCookie c) ENGINE_SUCCESS ∈ evs →
          objs s' !! q = Some (setNotifySent true c)) ∧
  (∀ q k c, q ∉ deadConnections s → objs s !! q = Some c →
          isProducer c = false →
          map_ s !! k = Some q → (∀ k', map_ s !! k' = Some q → k' = k) →
          NotifyIOComplete q (getCookie c) ENGINE_SUCCESS ∈ evs →
          objs s' !! q = Some (setNotifySentAsProducer c)) ∧
  (∀ q, q ∉ deadConnections s →
        (∀ ck st, NotifyIOComplete q ck st ∉ evs) →
        objs s' !! q = objs s !! q).
Proof.
  intros evs s'. subst evs s'.
  destruct (manageConnections_state now s)
    as (Hall & Hmap & Hdead & Hnotin & Hprod & Honce & _).
  split_and!; [done|done|done|by unfold addStats; rewrite Hdead| | |].
  - intros q c Hq Hc Hp (_ & k & c' & Hk & Hc' & Hn)%manageConnections_notified.
    rewrite Hc in Hc'. injection Hc' as <-.
    rewrite (Hprod q c Hq Hc Hp).
    rewrite bool_decide_eq_true_2
      by (apply collectToNotify_elem_of; by exists k, c).
    apply needsNotify_spec in Hn as (tp & _ & -> & _). done.
  - intros q k c Hq Hc Hp Hk Honly
      (_ & k' & c' & _ & Hc' & Hn)%manageConnections_notified.
    rewrite Hc in Hc'. injection Hc' as <-.
    destruct (collectToNotify_once now s k q c Hk Honly Hc Hn)
      as (l1 & l2 & Hsplit & H1 & H2).
    rewrite (Honce q c l1 l2 Hq Hc); [|by apply needsNotify_spec in Hn
      as (tp & _ & Hres & _)|done|done|done].
    unfold notifySentWrite. by rewrite Hp.
  - intros q Hq Hno. apply (Hnotin q Hq).
    intros (k & c & Hk & Hc & Hn)%collectToNotify_elem_of.
    apply (Hno (getCookie c) ENGINE_SUCCESS).
    by apply (manageConnections_notifies _ _ now s k q c).
Qed.

(** X15: two passes in a row, with nothing in between.  A producer of
    [map_] that is not dead, is notifiable, reserved, and paused or marked
    for disconnect, is notified by the second pass exactly when its last
    walk time plus 5 seconds (a 32-bit unsigned sum) is earlier than the time
    of the second pass: after the first pass its notify-sent flag is set,
    whether that pass notified it or not. *)
Theorem second_pass_notifies_only_idle (now now' : Z) (s : ConnMap)
    (k : N) (p : positive) (c : ConnHandler) (tp : Notifiable) :
  map_ s !! k = Some p → objs s !! p = Some c → p ∉ deadConnections s →
  isProducer c = true →
  notifiable c = Some tp → isReserved c = true →
  isPaused tp = true ∨ doDisconnect c = true →
  let s1 :=
    (manageConnections releaseReference setNotifySentAsProducer now s).2 in
  (∃ c1 tp1, objs s1 !! p = Some c1 ∧ notifiable c1 = Some tp1 ∧
             sentNotify tp1 = true) ∧
  (NotifyIOComplete p (getCookie c) ENGINE_SUCCESS
     ∈ (manageConnections releaseReference setNotifySentAsProducer now' s1).1
   ↔ uint32 (getLastWalkTime c + 5) < now').
Proof.
  intros Hk Hc Hdead Hprod Htp Hres Hpd s1. subst s1.
  destruct (manageConnections_state now s) as (_ & Hmap & _ & _ & Hobjs & _).
  specialize (Hobjs p c Hdead Hc Hprod). rewrite Hres, andb_true_r in Hobjs.
  assert (Hpd' : isPaused tp || doDisconnect c = true)
    by (by apply orb_true_iff).
  assert (Hstep : ∃ c1,
            objs (manageConnections releaseReference setNotifySentAsProducer
                    now s).2 !! p = Some c1 ∧
            getCookie c1 = getCookie c ∧
            notifiable c1 = Some {| isPaused := isPaused tp;
                                    sentNotify := true |} ∧
            needsNotify now' c1 = (uint32 (getLastWalkTime c + 5) <? now')).
  { destruct (decide (p ∈ collectToNotify now s)) as [Hin|Hout].
    - rewrite bool_decide_eq_true_2 in Hobjs by done.
      exists (setNotifySent true c). split_and!; [done|done| |].
      + simpl. by rewrite Htp.
      + unfold needsNotify. simpl. rewrite Htp. simpl.
        by rewrite Hpd', Hres.
    - rewrite bool_decide_eq_false_2 in Hobjs by done.
      assert (Hn : needsNotify now c = false).
      { apply not_true_is_false. intros Hn. apply Hout.
        apply collectToNotify_elem_of. by exists k, c. }
      unfold needsNotify in Hn. rewrite Htp, Hpd', Hres in Hn. simpl in Hn.
      apply orb_false_iff in Hn as [Hs _]. apply negb_false_iff in Hs.
      exists c. split_and!; [done|done| |].
      + rewrite Htp. destruct tp as [pa sn]. simpl in *. by rewrite Hs.
      + unfold needsNotify. by rewrite Htp, Hpd', Hres, Hs. }
  destruct Hstep as (c1 & Hc1 & Hck & Htp1 & Hn1).
  split; [by exists c1, {| isPaused := isPaused tp; sentNotify := true |}|].
  split.
  - intros (_ & k' & c' & _ & Hc' & Hn')%manageConnections_notified.
    rewrite Hc1 in Hc'. injection Hc' as <-. rewrite Hn1 in Hn'.
    by apply Z.ltb_lt.
  - intros Hlt. rewrite <- Hck.
    apply (manageConnections_notifies _ _ now' _ k p c1);
      [by rewrite Hmap|done|].
    rewrite Hn1. by apply Z.ltb_lt.
Qed.

(** X16: a connection that [newConsumer] or [newProducer] displaces stays
    in [map_] and is marked for disconnect, so the next pass notifies it:
    on a registry that satisfies the invariant, a connection of [all] with
    the new connection's name, held by [map_] under another cookie,
    notifiable, reserved and not yet sent a notify, gets its
    [notifyIOComplete(cookie, ENGINE_SUCCESS)] in the pass that follows the
    call, paused or not. *)
Theorem displaced_namesake_is_notified
    (now : Z) (cookie : N) (name : string) (notifyOnly : bool) (s : ConnMap)
    (k : N) (q : positive) (c : ConnHandler) (tp : Notifiable) :
  wf s → q ∈ all s → map_ s !! k = Some q → k ≠ cookie →
  objs s !! q = Some c → getName c = String.append "eq_dcpq:" name →
  notifiable c = Some tp → isReserved c = true → sentNotify tp = false →
  NotifyIOComplete q (getCookie c) ENGINE_SUCCESS
    ∈ (manageConnections releaseReference setNotifySentAsProducer now
         (newConsumer ctorDefaults cookie name s).2).1 ∧
  NotifyIOComplete q (getCookie c) ENGINE_SUCCESS
    ∈ (manageConnections releaseReference setNotifySentAsProducer now
         (newProducer ctorDefaults cookie name notifyOnly s).2).1.
Proof.
  intros Hwf Hin Hk Hne Hc Hname Htp Hres Hsent.
  assert (Hgen : ∀ new,
            NotifyIOComplete q (getCookie c) ENGINE_SUCCESS
              ∈ (manageConnections releaseReference setNotifySentAsProducer
                   now
                   (insertConn cookie new
                      (displace (String.append "eq_dcpq:" name) s)).2).1).
  { intros new. set (cn := String.append "eq_dcpq:" name) in *.
    destruct (displace_frame cn s) as (Hmap & _ & _ & Hdom & Hobjs & _).
    destruct (displace_wf cn s Hwf) as (_ & Hmark & _).
    destruct (Hmark q) as [(c' & Hc' & Hflag) _]; [by left|by exists c|].
    assert (Hsame : getCookie c' = getCookie c ∧ notifiable c' = Some tp ∧
                    isReserved c' = true).
    { destruct (Hobjs q) as [Heq|(c0 & Hc0 & _ & _ & Heq)].
      - rewrite Heq, Hc in Hc'. by injection Hc' as <-.
      - rewrite Heq in Hc'. injection Hc' as <-.
        rewrite Hc in Hc0. by injection Hc0 as <-. }
    destruct Hsame as (Hck & Htp' & Hres').
    assert (Hq : q ≠ fresh (dom (objs (displace cn s)))).
    { intros ->. apply (is_fresh (dom (objs (displace cn s)))).
      by apply elem_of_dom_2 in Hc'. }
    rewrite <- Hck. apply (manageConnections_notifies _ _ now _ k q c'); simpl.
    - by rewrite lookup_insert_ne, Hmap.
    - by rewrite lookup_insert_ne.
    - unfold needsNotify. rewrite Htp', Hflag, Hres', Hsent.
      by rewrite orb_true_r. }
  split; apply Hgen.
Qed.

(** X17: a connection that [disconnect] took out of [map_] is not notified
    by the pass that follows, although it may be marked for disconnect: when
    [map_] held it under this cookie only, the pass emits no
    [notifyIOComplete] for it, and, when it was not among the dead
    connections before and none of those is listed twice, the pass calls
    [releaseReference] on the torn-down object and leaves no dead
    connection. *)
Theorem disconnected_connection_is_reaped
    (now : Z) (cookie : N) (conn : positive) (s : ConnMap) :
  map_ s !! cookie = Some conn →
  (∀ k, map_ s !! k = Some conn → k = cookie) →
  let s1 := disconnect cookie s in
  let r := manageConnections releaseReference setNotifySentAsProducer
                             now s1 in
  (∀ ck st, NotifyIOComplete conn ck st ∉ r.1) ∧
  deadConnections r.2 = [] ∧ map_ r.2 !! cookie = None ∧
  (NoDup (deadConnections s) → conn ∉ deadConnections s →
   objs r.2 !! conn = releaseReference <$> objs s1 !! conn).
Proof.
  intros Hm Honly s1 r. subst r.
  destruct (manageConnections_state now s1)
    as (_ & Hmap & Hdead & _ & _ & _ & Hobjs).
  assert (Hs1 : map_ s1 = delete cookie (map_ s) ∧
                deadConnections s1 = deadConnections s ++ [conn]).
  { subst s1. unfold disconnect, disconnect_UNLOCKED.
    destruct (disconnectByCookie cookie (objs s) (all s)) as [os l].
    by rewrite Hm. }
  destruct Hs1 as [Hmap1 Hdead1].
  assert (Hnot : conn ∉ collectToNotify now s1).
  { intros (k & c & Hk & _)%collectToNotify_elem_of.
    rewrite Hmap1 in Hk. apply lookup_delete_Some in Hk as [Hne Hk].
    by apply Hne, eq_sym, Honly. }
  split_and!.
  - intros ck st (_ & k & c & Hk & Hc & Hn)%manageConnections_notified.
    apply Hnot, collectToNotify_elem_of. by exists k, c.
  - done.
  - rewrite Hmap, Hmap1. apply lookup_delete_eq.
  - intros Hnd Hout. apply Hobjs; [| |done].
    + rewrite Hdead1. apply NoDup_app. split_and!; [done| |apply NoDup_singleton].
      by intros x Hx ->%list_elem_of_singleton.
    + rewrite Hdead1. apply elem_of_app. right. left.
Qed.

(** *** The per-vbucket lists *)

Lemma eraseByCookie_sublist (os : gmap positive ConnHandler) (cookie : N)
    (l : list positive) :
  eraseByCookie os cookie l `sublist_of` l.
Proof.
  induction l as [|q l IH]; simpl; [done|].
  destruct (os !! q) as [d|]; [destruct (getCookie d =? cookie)%N|].
  - by apply sublist_cons.
  - by apply sublist_skip.
  - by apply sublist_skip.
Qed.

Lemma eraseByCookie_erased (os : gmap positive ConnHandler) (cookie : N)
    (l : list positive) (q : positive) :
  q ∈ l → q ∉ eraseByCookie os cookie l →
  ∃ d, os !! q = Some d ∧ getCookie d = cookie.
Proof.
  induction l as [|p l IH]; simpl; [by intros ?%elem_of_nil|].
  intros Hin Hout. destruct (os !! p) as [d|] eqn:Hd.
  - destruct (N.eqb_spec (getCookie d) cookie) as [Heq|Hne].
    + apply elem_of_cons in Hin as [->|Hin]; [by exists d|done].
    + apply not_elem_of_cons in Hout as [Hqp Hout].
      apply elem_of_cons in Hin as [->|Hin]; [done|]. by apply IH.
  - apply not_elem_of_cons in Hout as [Hqp Hout].
    apply elem_of_cons in Hin as [->|Hin]; [done|]. by apply IH.
Qed.

(** The list of a vbucket, as [vbConns[vbid]] reads it. *)
Definition connsOf (vbc : gmap Z (list positive)) (vbid : Z) : list positive :=
  default [] (vbc !! vbid).

Lemma removeVBConnections_loop (os : gmap positive ConnHandler) (cookie : N)
    (vbs : list Z) (vbc : gmap Z (list positive)) (v : Z) :
  let vbc' :=
    foldl (λ acc vbid,
             <[vbid := eraseByCookie os cookie (default [] (acc !! vbid))]> acc)
          vbc vbs in
  connsOf vbc' v `sublist_of` connsOf vbc v ∧
  (∀ q, q ∈ connsOf vbc v → q ∉ connsOf vbc' v →
        v ∈ vbs ∧ ∃ d, os !! q = Some d ∧ getCookie d = cookie) ∧
  (v ∉ vbs → connsOf vbc' v = connsOf vbc v).
Proof.
  induction vbs as [|vbid vbs IH] using rev_ind; simpl.
  - split_and!; [done| |done]. by intros q Hin Hout.
  - rewrite foldl_app. simpl in *.
    set (acc := foldl _ vbc vbs) in *.
    destruct IH as (Hsub & Herased & Hsame). unfold connsOf in *.
    destruct (decide (vbid = v)) as [->|Hne].
    + rewrite lookup_insert_eq. simpl. split_and!.
      * etrans; [apply eraseByCookie_sublist|done].
      * intros q Hin Hout.
        split; [apply elem_of_app; right; left|].
        destruct (decide (q ∈ default [] (acc !! v))) as [Hacc|Hacc].
        -- by eapply eraseByCookie_erased.
        -- by destruct (Herased q Hin Hacc).
      * intros Hv. destruct Hv. apply elem_of_app. right. left.
    + rewrite lookup_insert_ne by done. split_and!.
      * done.
      * intros q Hin Hout. destruct (Herased q Hin Hout) as [Hv Hd].
        split; [|done]. apply elem_of_app. by left.
      * intros Hv. apply Hsame. intros Hin. apply Hv, elem_of_app. by left.
Qed.

Lemma removeVBConnections_sublist (os : gmap positive ConnHandler)
    (p : positive) (vbc : gmap Z (list positive)) (v : Z) :
  connsOf (removeVBConnections os p vbc) v `sublist_of` connsOf vbc v.
Proof.
  unfold removeVBConnections. destruct (os !! p) as [c|]; [|done].
  destruct (isProducer c); [|done].
  apply (removeVBConnections_loop os (getCookie c) (getVBVector c) vbc v).
Qed.

Lemma releaseAll_sublist (release : list positive)
    (os : gmap positive ConnHandler) (vbc : gmap Z (list positive)) (v : Z) :
  connsOf (releaseAll releaseReference release os vbc).2 v
    `sublist_of` connsOf vbc v.
Proof.
  revert os vbc. induction release as [|p rest IH]; intros os vbc; simpl;
    [done|].
  etrans; [apply IH|]. apply removeVBConnections_sublist.
Qed.

(** X18: [removeVBConnections] only erases.  Each per-vbucket list after
    the call is the list before with connections left out; a connection that
    is left out of the list of a vbucket carries the cookie of the released
    connection, which is a producer with that vbucket in its vbucket vector;
    the lists of the other vbuckets are as they were; for a connection that
    is not a producer nothing changes; and so the per-vbucket lists after a
    pass of [manageConnections] are the lists before with connections left
    out. *)
Theorem removeVBConnections_only_erases
    (os : gmap positive ConnHandler) (p : positive)
    (vbc : gmap Z (list positive)) (v : Z) :
  connsOf (removeVBConnections os p vbc) v `sublist_of` connsOf vbc v ∧
  (∀ q, q ∈ connsOf vbc v → q ∉ connsOf (removeVBConnections os p vbc) v →
        ∃ c d, os !! p = Some c ∧ isProducer c = true ∧ v ∈ getVBVector c ∧
               os !! q = Some d ∧ getCookie d = getCookie c) ∧
  ((∀ c, os !! p = Some c → isProducer c = true → v ∉ getVBVector c) →
   connsOf (removeVBConnections os p vbc) v = connsOf vbc v) ∧
  (∀ c, os !! p = Some c → isConsumer c = true →
        removeVBConnections os p vbc = vbc) ∧
  (∀ now s,
     connsOf (vbConns (manageConnections releaseReference
                         setNotifySentAsProducer now s).2) v
       `sublist_of` connsOf (vbConns s) v).
Proof.
  split_and!.
  - apply removeVBConnections_sublist.
  - unfold removeVBConnections. destruct (os !! p) as [c|]; [|done].
    destruct (isProducer c) eqn:Hprod; [|done].
    intros q Hin Hout.
    destruct (removeVBConnections_loop os (getCookie c) (getVBVector c) vbc v)
      as (_ & Herased & _).
    destruct (Herased q Hin Hout) as (Hv & d & Hd & Hck).
    by exists c, d.
  - intros Hv. unfold removeVBConnections.
    destruct (os !! p) as [c|]; [|done].
    destruct (isProducer c) eqn:Hprod; [|done].
    apply (removeVBConnections_loop os (getCookie c) (getVBVector c) vbc v).
    by apply (Hv c).
  - intros c Hc Hcons. unfold removeVBConnections, isProducer.
    by rewrite Hc, Hcons.
  - intros now s. unfold manageConnections.
    destruct (signal setNotifySentAsProducer (collectToNotify now s) (objs s))
      as [evs os1].
    pose proof (releaseAll_sublist (deadConnections s) os1 (vbConns s) v)
      as Hsub.
    by destruct (releaseAll releaseReference (deadConnections s) os1
                            (vbConns s)).
Qed.

(** *** Calls on every connection of a list *)

Lemma forEach_lookup_notin (f : ConnHandler → ConnHandler)
    (l : list positive) (os : gmap positive ConnHandler) (q : positive) :
  q ∉ l → forEach f l os !! q = os !! q.
Proof.
  unfold forEach. revert os. induction l as [|p l IH]; intros os Hq; simpl;
    [done|].
  apply not_elem_of_cons in Hq as [Hne Hq].
  rewrite IH by done. by rewrite lookup_alter_ne.
Qed.

Lemma forEach_lookup_fixed (f : ConnHandler → ConnHandler)
    (l : list positive) (os : gmap positive ConnHandler)
    (q : positive) (c : ConnHandler) :
  os !! q = Some c → f c = c → forEach f l os !! q = Some c.
Proof.
  unfold forEach. revert os. induction l as [|p l IH]; intros os Hc Hf; simpl;
    [done|].
  apply IH; [|done]. destruct (decide (p = q)) as [->|Hne].
  - by rewrite lookup_alter_eq, Hc; simpl; rewrite Hf.
  - by rewrite lookup_alter_ne.
Qed.

Lemma forEach_lookup_once (f : ConnHandler → ConnHandler)
    (l : list positive) (os : gmap positive ConnHandler) (q : positive) :
  NoDup l → q ∈ l → forEach f l os !! q = f <$> os !! q.
Proof.
  revert os. induction l as [|p l IH]; intros os Hnd Hq;
    [by apply elem_of_nil in Hq|].
  apply NoDup_cons in Hnd as [Hp Hnd].
  change (forEach f (p :: l) os) with (forEach f l (alter f p os)).
  apply elem_of_cons in Hq as [->|Hq].
  - by rewrite forEach_lookup_notin, lookup_alter_eq.
  - rewrite IH by done. rewrite lookup_alter_ne; [done|]. by intros ->.
Qed.

Lemma entries_empty : entries ∅ = [].
Proof. unfold entries. by rewrite map_to_list_empty. Qed.

(** The connections that [map_] holds, in iteration order; a connection
    held under one cookie only is listed once. *)
Lemma entries_notin (m : gmap N positive) (q : positive) :
  (∀ k, m !! k ≠ Some q) → q ∉ (snd <$> entries m).
Proof.
  intros Hno ([k p] & -> & Hin%entries_elem_of)%list_elem_of_fmap.
  by apply (Hno k).
Qed.

Lemma forEach_lookup_split (f : ConnHandler → ConnHandler)
    (l1 l2 : list positive) (os : gmap positive ConnHandler) (q : positive) :
  q ∉ l1 → q ∉ l2 → forEach f (l1 ++ q :: l2) os !! q = f <$> os !! q.
Proof.
  intros H1 H2.
  assert (Happ : forEach f (l1 ++ q :: l2) os
                 = forEach f l2 (alter f q (forEach f l1 os)))
    by (unfold forEach; by rewrite foldl_app).
  by rewrite Happ, forEach_lookup_notin, lookup_alter_eq, forEach_lookup_notin.
Qed.

Lemma entries_split (m : gmap N positive) (k : N) (q : positive) :
  m !! k = Some q → (∀ k', m !! k' = Some q → k' = k) →
  ∃ l1 l2, snd <$> entries m = l1 ++ q :: l2 ∧ (q ∉ l1) ∧ (q ∉ l2).
Proof.
  intros Hk Honly.
  destruct (entries_split_pairs m k q Hk Honly) as (e1 & e2 & He & H1 & H2).
  exists (snd <$> e1), (snd <$> e2). rewrite He, fmap_app, fmap_cons.
  split_and!; [done| |].
  - intros (e & Hq & He1)%list_elem_of_fmap. by apply (H1 e He1).
  - intros (e & Hq & He2)%list_elem_of_fmap. by apply (H2 e He2).
Qed.

(** A method call on every connection of [map_]: connections that [map_]
    does not hold are not called, and a connection held under one cookie is
    called once. *)
Lemma forEach_entries_notin (f : ConnHandler → ConnHandler)
    (m : gmap N positive) (os : gmap positive ConnHandler) (q : positive) :
  (∀ k, m !! k ≠ Some q) → forEach f (snd <$> entries m) os !! q = os !! q.
Proof. intros Hno. by apply forEach_lookup_notin, entries_notin. Qed.

Lemma forEach_entries_once (f : ConnHandler → ConnHandler)
    (m : gmap N positive) (os : gmap positive ConnHandler)
    (k : N) (q : positive) :
  m !! k = Some q → (∀ k', m !! k' = Some q → k' = k) →
  forEach f (snd <$> entries m) os !! q = f <$> os !! q.
Proof.
  intros Hk Honly.
  destruct (entries_split m k q Hk Honly) as (l1 & l2 & -> & H1 & H2).
  by apply forEach_lookup_split.
Qed.

Lemma collectToNotify_empty (now : Z) (s : ConnMap) :
  map_ s = ∅ → collectToNotify now s = [].
Proof. intros Hm. unfold collectToNotify. by rewrite Hm, entries_empty. Qed.

(** *** Shutdown *)

(** X19: [shutdownAllConnections] leaves an empty registry and notifies
    nobody: after it [all], [map_] and the dead connections are empty and
    its closing pass emits no [notifyIOComplete]; objects that none of the
    containers held are untouched; and a connection of [all] (listed once,
    not dead) that [map_] held under one cookie had its streams closed by
    its dynamic type, then its task cancelled if it is a consumer, then
    [releaseReference] called. *)
Theorem shutdown_empties_registry (now : Z) (s : ConnMap) :
  let r := shutdownAllConnections now s in
  r.1 = [] ∧ all r.2 = [] ∧ map_ r.2 = ∅ ∧ deadConnections r.2 = [] ∧
  (∀ q, q ∉ all s → q ∉ deadConnections s → (∀ k, map_ s !! k ≠ Some q) →
        objs r.2 !! q = objs s !! q) ∧
  (∀ q k c, NoDup (all s) → q ∈ all s → q ∉ deadConnections s →
        map_ s !! k = Some q → (∀ k', map_ s !! k' = Some q → k' = k) →
        objs s !! q = Some c →
        let c1 := if isProducer c
                  then clearCheckpointProcessorTaskQueues
                         (producerCloseAllStreams c)
                  else consumerCloseAllStreams c in
        let c2 := if isConsumer c1 then cancelTask c1 else c1 in
        objs r.2 !! q = Some (releaseReference c2)).
Proof.
  intros r. subst r. unfold shutdownAllConnections.
  set (s1 := cancelAllTasks_UNLOCKED (closeAllStreams_UNLOCKED s)).
  set (s2 := {| objs := forEach releaseReference (all s) (objs s1);
                all := []; map_ := ∅;
                deadConnections := deadConnections s1;
                vbConns := vbConns s1 |}).
  destruct (manageConnections_state now s2) as (Hall & Hmap & Hdead & Hobjs & _).
  assert (Hcol : collectToNotify now s2 = [])
    by (by apply collectToNotify_empty).
  assert (Hlook : ∀ q, q ∉ deadConnections s →
            objs (manageConnections releaseReference setNotifySentAsProducer
                    now s2).2 !! q
              = objs s2 !! q).
  { intros q Hq. apply (Hobjs q Hq). rewrite Hcol. apply not_elem_of_nil. }
  split_and!; [|done|done|done| |].
  - unfold manageConnections. rewrite Hcol. simpl.
    by destruct (releaseAll _ _ _ _).
  - intros q Hq Hd Hm. rewrite (Hlook q Hd). simpl.
    rewrite forEach_lookup_notin by done. simpl.
    by rewrite !forEach_entries_notin.
  - intros q k c Hnd Hq Hd Hk Honly Hc. rewrite (Hlook q Hd). simpl.
    rewrite forEach_lookup_once by done. simpl.
    rewrite (forEach_entries_once _ _ _ k q Hk Honly).
    rewrite (forEach_entries_once _ _ _ k q Hk Honly).
    by rewrite Hc.
Qed.

(** *** Fan-out over the connections of [map_] *)

(** X20: [vbucketStateChanged] and [notifyBackfillManagerTasks] call a
    connection by its dynamic type.  With [closeInboundStreams] false a
    consumer is left as it is, as it is by [notifyBackfillManagerTasks];
    a connection that [map_] does not hold is never called; a producer that
    [map_] holds under one cookie gets one [vbucketStateChanged], or one
    [notifyBackfillManager], and a consumer that [map_] holds under one
    cookie gets one [vbucketStateChanged] when [closeInboundStreams] is
    true. *)
Theorem fanout_respects_dynamic_type
    (vbucket : Z) (state : vbucket_state_t) (closeInboundStreams : bool)
    (s : ConnMap) (q : positive) (c : ConnHandler) :
  objs s !! q = Some c →
  (isConsumer c = true →
     objs (vbucketStateChanged vbucket state false s) !! q = Some c ∧
     objs (notifyBackfillManagerTasks s) !! q = Some c) ∧
  ((∀ k, map_ s !! k ≠ Some q) →
     objs (vbucketStateChanged vbucket state closeInboundStreams s) !! q
       = Some c ∧
     objs (notifyBackfillManagerTasks s) !! q = Some c) ∧
  (∀ k, map_ s !! k = Some q → (∀ k', map_ s !! k' = Some q → k' = k) →
     (isProducer c = true →
        objs (vbucketStateChanged vbucket state closeInboundStreams s) !! q
          = Some (producerVbucketStateChanged vbucket state c) ∧
        objs (notifyBackfillManagerTasks s) !! q
          = Some (notifyBackfillManager c)) ∧
     (isConsumer c = true →
        objs (vbucketStateChanged vbucket state true s) !! q
          = Some (consumerVbucketStateChanged vbucket state c))).
Proof.
  intros Hc. unfold vbucketStateChanged, notifyBackfillManagerTasks. simpl.
  split_and!.
  - intros Hcons.
    assert (Hprod : isProducer c = false) by (unfold isProducer; by rewrite Hcons).
    split; apply forEach_lookup_fixed; try done; by rewrite Hprod.
  - intros Hno. by rewrite !forEach_entries_notin.
  - intros k Hk Honly.
    rewrite !(forEach_entries_once _ _ _ k q Hk Honly), Hc. simpl.
    split.
    + by intros ->.
    + intros Hcons. unfold isProducer. by rewrite Hcons.
Qed.

(** *** Closing a slow stream *)

Lemma closeSlowStreamIn_spec (vbid : Z) (name : string) (l : list positive)
    (os : gmap positive ConnHandler) :
  NoDup l →
  let r := closeSlowStreamIn vbid name l os in
  (r.1 = false →
     ∀ p c, p ∈ l → os !! p = Some c →
            (producerCloseSlowStream vbid name c).1 = false ∧
            r.2 !! p = Some (producerCloseSlowStream vbid name c).2) ∧
  (r.1 = true →
     ∃ pre p post c,
       l = pre ++ p :: post ∧ os !! p = Some c ∧
       (producerCloseSlowStream vbid name c).1 = true ∧
       r.2 !! p = Some (producerCloseSlowStream vbid name c).2 ∧
       (∀ q d, q ∈ pre → os !! q = Some d →
               (producerCloseSlowStream vbid name d).1 = false ∧
               r.2 !! q = Some (producerCloseSlowStream vbid name d).2) ∧
       (∀ q, q ∈ post → r.2 !! q = os !! q)) ∧
  (∀ q, q ∉ l → r.2 !! q = os !! q).
Proof.
  revert os. induction l as [|p l IH]; intros os Hnd; simpl.
  - split_and!; [|done|done]. by intros _ p c ?%elem_of_nil.
  - apply NoDup_cons in Hnd as [Hp Hnd].
    destruct (os !! p) as [c|] eqn:Hc.
    + destruct (producerCloseSlowStream vbid name c) as [closed c'] eqn:Hcss.
      destruct closed; simpl.
      * split_and!; [done| |].
        -- intros _. exists [], p, l, c. rewrite Hcss, lookup_insert_eq.
           split_and!; [done|done|done|done| |].
           ++ by intros q d ?%elem_of_nil.
           ++ intros q Hq. rewrite lookup_insert_ne; [done|]. by intros ->.
        -- intros q [Hne _]%not_elem_of_cons. by rewrite lookup_insert_ne.
      * destruct (IH (<[p := c']> os) Hnd) as (Hfalse & Htrue & Hout).
        set (r := closeSlowStreamIn vbid name l (<[p := c']> os)) in *.
        assert (Hrp : r.2 !! p = Some c')
          by (by rewrite (Hout p Hp), lookup_insert_eq).
        assert (Hos : ∀ q, q ∈ l → <[p := c']> os !! q = os !! q).
        { intros q Hq. rewrite lookup_insert_ne; [done|]. by intros ->. }
        split_and!.
        -- intros Hr q d [->|Hq]%elem_of_cons Hd.
           ++ rewrite Hc in Hd. injection Hd as <-. by rewrite Hcss.
           ++ apply (Hfalse Hr q d Hq). by rewrite Hos.
        -- intros Hr.
           destruct (Htrue Hr)
             as (pre & p1 & post & c1 & -> & Hc1 & Hres & Hr1 & Hpre & Hpost).
           exists (p :: pre), p1, post, c1.
           assert (Hin1 : p1 ∈ pre ++ p1 :: post)
             by (apply elem_of_app; right; left).
           rewrite Hos in Hc1 by done.
           split_and!; [done|done|done|done| |].
           ++ intros q d [->|Hq]%elem_of_cons Hd.
              ** rewrite Hc in Hd. injection Hd as <-. by rewrite Hcss.
              ** apply (Hpre q d Hq). rewrite Hos; [done|].
                 apply elem_of_app. by left.
           ++ intros q Hq. rewrite (Hpost q Hq). apply Hos.
              apply elem_of_app. right. by right.
        -- intros q [Hne Hq]%not_elem_of_cons.
           rewrite (Hout q Hq). by rewrite lookup_insert_ne.
    + destruct (IH os Hnd) as (Hfalse & Htrue & Hout).
      set (r := closeSlowStreamIn vbid name l os) in *.
      split_and!.
      * intros Hr q d [->|Hq]%elem_of_cons Hd; [by rewrite Hc in Hd|].
        by apply (Hfalse Hr).
      * intros Hr.
        destruct (Htrue Hr)
          as (pre & p1 & post & c1 & -> & Hc1 & Hres & Hr1 & Hpre & Hpost).
        exists (p :: pre), p1, post, c1.
        split_and!; [done|done|done|done| |done].
        intros q d [->|Hq]%elem_of_cons Hd; [by rewrite Hc in Hd|].
        by apply Hpre.
      * intros q [Hne Hq]%not_elem_of_cons. by apply Hout.
Qed.

(** X21: [closeSlowStream] stops at the first producer of the vbucket's
    list that closes a stream.  On a list without repetitions: it changes no
    container; with an empty list it returns false and changes nothing; when
    it returns false every connection of the list was asked once and
    declined; when it returns true the list splits at a connection that
    accepted, every connection before it was asked once and declined, and
    the connections after it were not asked; connections outside the list
    are never asked. *)
Theorem closeSlowStream_first_match (vbid : Z) (name : string) (s : ConnMap) :
  NoDup (connsOf (vbConns s) vbid) →
  let r := closeSlowStream vbid name s in
  (all r.2 = all s ∧ map_ r.2 = map_ s ∧
   deadConnections r.2 = deadConnections s ∧ vbConns r.2 = vbConns s) ∧
  (connsOf (vbConns s) vbid = [] → r = (false, s)) ∧
  (r.1 = false →
     ∀ p c, p ∈ connsOf (vbConns s) vbid → objs s !! p = Some c →
            (producerCloseSlowStream vbid name c).1 = false ∧
            objs r.2 !! p = Some (producerCloseSlowStream vbid name c).2) ∧
  (r.1 = true →
     ∃ pre p post c,
       connsOf (vbConns s) vbid = pre ++ p :: post ∧ objs s !! p = Some c ∧
       (producerCloseSlowStream vbid name c).1 = true ∧
       objs r.2 !! p = Some (producerCloseSlowStream vbid name c).2 ∧
       (∀ q d, q ∈ pre → objs s !! q = Some d →
               (producerCloseSlowStream vbid name d).1 = false ∧
               objs r.2 !! q = Some (producerCloseSlowStream vbid name d).2) ∧
       (∀ q, q ∈ post → objs r.2 !! q = objs s !! q)) ∧
  (∀ q, q ∉ connsOf (vbConns s) vbid → objs r.2 !! q = objs s !! q).
Proof.
  intros Hnd r. subst r. unfold closeSlowStream.
  pose proof (closeSlowStreamIn_spec vbid name (connsOf (vbConns s) vbid)
                (objs s) Hnd) as Hspec.
  unfold connsOf in *.
  destruct (closeSlowStreamIn vbid name (default [] (vbConns s !! vbid))
                              (objs s)) as [closed os] eqn:Hrun.
  simpl in *. destruct Hspec as (Hfalse & Htrue & Hout).
  split; [done|]. split_and!; [|done|done|done].
  intros Hnil. rewrite Hnil in Hrun. simpl in Hrun.
  injection Hrun as <- <-. by destruct s.
Qed.

(** X22: [notifyVBConnections] calls [notifySeqnoAvailable] on the
    connections of the vbucket's list and on no other: a connection outside
    the list is untouched, and a connection of a list without repetitions
    gets one call. *)
Theorem notifyVBConnections_only_listed
    (vbid bySeqno : Z) (s : ConnMap) (q : positive) :
  (q ∉ connsOf (vbConns s) vbid →
   objs (notifyVBConnections vbid bySeqno s) !! q = objs s !! q) ∧
  (NoDup (connsOf (vbConns s) vbid) → q ∈ connsOf (vbConns s) vbid →
   objs (notifyVBConnections vbid bySeqno s) !! q
     = notifySeqnoAvailable vbid bySeqno <$> objs s !! q).
Proof.
  unfold notifyVBConnections, connsOf. simpl. split.
  - apply forEach_lookup_notin.
  - apply forEach_lookup_once.
Qed.

(** *** Passive streams after a disconnect or a reconnect *)

(** In a registry that satisfies the invariant, a connection of [all] is
    identified by its name. *)
Lemma wf_name_inj (s : ConnMap) (x y : positive) (c d : ConnHandler) :
  wf s → x ∈ all s → y ∈ all s →
  objs s !! x = Some c → objs s !! y = Some d → getName c = getName d →
  x = y.
Proof.
  intros [_ _ Hnames _] Hx Hy Hc Hd Hname.
  apply list_elem_of_lookup in Hx as [i Hi].
  apply list_elem_of_lookup in Hy as [j Hj].
  assert (Hij : i = j).
  { apply (NoDup_lookup _ i j (Some (getName c)) Hnames).
    - rewrite list_lookup_fmap, Hi. simpl. unfold nameOf. by rewrite Hc.
    - rewrite list_lookup_fmap, Hj. simpl. unfold nameOf.
      by rewrite Hd, Hname. }
  subst j. rewrite Hi in Hj. by injection Hj.
Qed.

(** X24: [disconnect] frees the vbucket of the consumer it removes.  When
    the only consumer of [all] with a passive stream for the vbucket is the
    connection of the cookie (listed once in [all], the one [map_] holds, and
    the only connection of [all] with that cookie), then after [disconnect]
    no connection of [all] holds a passive stream for the vbucket, and
    [addPassiveStream] for it does not answer [ENGINE_KEY_EEXISTS] of its
    own: its status is that of [addStream]. *)
Theorem disconnect_frees_vbucket
    (cookie : N) (p : positive) (c : ConnHandler) (vbucket : Z) (s : ConnMap) :
  NoDup (all s) → p ∈ all s → map_ s !! cookie = Some p →
  objs s !! p = Some c → getCookie c = cookie →
  (∀ q d, q ∈ all s → q ≠ p → objs s !! q = Some d →
          getCookie d ≠ cookie) →
  (∀ q d, q ∈ all s → q ≠ p → objs s !! q = Some d →
          isConsumer d && isStreamPresent d vbucket = false) →
  isPassiveStreamConnected_UNLOCKED isStreamPresent vbucket
    (disconnect cookie s) = false ∧
  ∀ conn opaque flags,
    (addPassiveStream isStreamPresent addStream conn opaque vbucket flags
       (disconnect cookie s)).1
    = (addStream conn opaque vbucket flags (objs (disconnect cookie s))).1.
Proof.
  intros Hnd Hin Hm Hc Hck Hcookies Hstreams.
  assert (Hfree : isPassiveStreamConnected_UNLOCKED isStreamPresent vbucket
                    (disconnect cookie s) = false).
  { apply not_true_is_false.
    intros (x & d & Hx & Hd & Hcons & Hpres)%isPassiveStreamConnected_spec.
    apply list_elem_of_split in Hin as (pre & post & Hall).
    rewrite Hall in Hnd. apply NoDup_app in Hnd as (_ & Hsep & Hnd).
    apply NoDup_cons in Hnd as [Hpost _].
    assert (Hpre : ∀ q d, q ∈ pre → objs s !! q = Some d →
                          getCookie d ≠ cookie).
    { intros q d' Hq Hd'. apply (Hcookies q d'); [|by intros ->; eapply Hsep;
        [done|left]|done].
      rewrite Hall. apply elem_of_app. by left. }
    unfold disconnect, disconnect_UNLOCKED in Hx, Hd.
    rewrite Hall, (disconnectByCookie_found _ _ _ _ _ _ Hc Hck Hpre), Hm
      in Hx, Hd.
    simpl in Hx, Hd.
    assert (Hxp : x ≠ p).
    { intros ->. apply elem_of_app in Hx as [Hx|Hx]; [|done].
      by apply (Hsep p Hx); left. }
    rewrite lookup_alter_ne, lookup_insert_ne in Hd by done.
    assert (Hxin : x ∈ all s).
    { rewrite Hall. apply elem_of_app in Hx as [Hx|Hx]; apply elem_of_app;
        [by left|right; by right]. }
    specialize (Hstreams x d Hxin Hxp Hd).
    by rewrite Hcons, Hpres in Hstreams. }
  split; [done|]. intros conn opaque flags. unfold addPassiveStream.
  rewrite Hfree.
  by destruct (addStream conn opaque vbucket flags
                 (objs (disconnect cookie s))).
Qed.

(** X25: a reconnect under the same name frees the vbucket too.  On a
    registry that satisfies the invariant, when the only consumer of [all]
    with a passive stream for the vbucket has the name of the new consumer,
    and a fresh consumer has no stream, then after [newConsumer] no
    connection of [all] holds a passive stream for the vbucket, although the
    displaced consumer is still held by [map_] with its streams. *)
Theorem reconnect_frees_vbucket
    (cookie : N) (name : string) (p : positive) (c : ConnHandler)
    (vbucket : Z) (s : ConnMap) :
  wf s → p ∈ all s → objs s !! p = Some c →
  getName c = String.append "eq_dcpq:" name →
  (∀ q d, q ∈ all s → q ≠ p → objs s !! q = Some d →
          isConsumer d && isStreamPresent d vbucket = false) →
  isStreamPresent
    (construct ctorDefaults DcpConsumer cookie (String.append "eq_dcpq:" name))
    vbucket = false →
  isPassiveStreamConnected_UNLOCKED isStreamPresent vbucket
    (newConsumer ctorDefaults cookie name s).2 = false ∧
  (∀ k, k ≠ cookie → map_ s !! k = Some p →
        map_ (newConsumer ctorDefaults cookie name s).2 !! k = Some p ∧
        objs (newConsumer ctorDefaults cookie name s).2 !! p
          = Some (setDisconnect true c)).
Proof.
  intros Hwf Hin Hc Hname Hstreams Hnew.
  set (cn := String.append "eq_dcpq:" name) in *.
  destruct (displace_cases cn s)
    as [[_ Hno]|(pre & p' & post & c' & Hall & Hc' & Hcn & Hmid)];
    [by destruct (Hno p c Hin Hc)|].
  assert (p' = p) as ->.
  { apply (wf_name_inj s p' p c' c Hwf); [|done|done|done|congruence].
    rewrite Hall. apply elem_of_app. right. left. }
  rewrite Hc in Hc'. injection Hc' as <-.
  assert (Hnd : NoDup (all s)).
  { destruct Hwf as [_ _ Hnames _]. by eapply NoDup_fmap_1. }
  rewrite Hall in Hnd. apply NoDup_app in Hnd as (_ & Hsep & Hnd).
  apply NoDup_cons in Hnd as [Hpost _].
  assert (Hdcp : objs s !! fresh (dom (objs (displace cn s))) = None).
  { rewrite Hmid. simpl. apply not_elem_of_dom.
    intros Hdom. apply (is_fresh (dom (<[p:=setDisconnect true c]> (objs s)))).
    apply elem_of_dom. rewrite lookup_insert_is_Some'. right.
    by apply elem_of_dom. }
  unfold newConsumer. change (String.append dcpq_prefix name) with cn.
  unfold insertConn. simpl. split.
  - apply not_true_is_false.
    intros (x & d & Hx & Hd & Hcons & Hpres)%isPassiveStreamConnected_spec.
    simpl in Hx, Hd. rewrite Hmid in Hx, Hd. simpl in Hx, Hd.
    apply elem_of_app in Hx as [Hx|Hx];
      [|apply list_elem_of_singleton in Hx as ->].
    + assert (Hxp : x ≠ p).
      { intros ->. apply elem_of_app in Hx as [Hx|Hx]; [|done].
        by apply (Hsep p Hx); left. }
      assert (Hxin : x ∈ all s).
      { rewrite Hall. apply elem_of_app in Hx as [Hx|Hx]; apply elem_of_app;
          [by left|right; by right]. }
      assert (Hxd : x ≠ fresh (dom (<[p:=setDisconnect true c]> (objs s)))).
      { intros Heq. apply (wf_all_live s Hwf) in Hxin as [d' Hd'].
        rewrite Hmid in Hdcp. simpl in Hdcp. rewrite <- Heq in Hdcp.
        by rewrite Hdcp in Hd'. }
      rewrite !lookup_insert_ne in Hd by done.
      specialize (Hstreams x d Hxin Hxp Hd).
      by rewrite Hcons, Hpres in Hstreams.
    + rewrite lookup_insert_eq in Hd. injection Hd as <-.
      by rewrite Hnew in Hpres.
  - intros k Hk Hkp. rewrite Hmid. simpl.
    rewrite lookup_insert_ne by done. split; [done|].
    rewrite lookup_insert_ne, lookup_insert_eq; [done|].
    intros Heq. rewrite Hmid in Hdcp. simpl in Hdcp.
    rewrite Heq in Hdcp. by rewrite Hdcp in Hc.
Qed.

End Lifecycle.

(** *** Teardown and fan-out on concrete connection classes

    Closing the streams of a connection empties [streams]; cancelling a
    task and clearing the queues leave the fields of the model alone, and so
    does the write through the [Producer] view of an object that is not a
    producer; [releaseReference] drops the reservation; a producer closes a
    slow stream when the name is its own. *)

Definition sampleCloseAllStreams (c : ConnHandler) : ConnHandler :=
  {| getName := getName c; getCookie := getCookie c; connType := connType c;
     doDisconnect := doDisconnect c; isReserved := isReserved c;
     getLastWalkTime := getLastWalkTime c; notifiable := notifiable c;
     streams := []; getVBVector := getVBVector c |}.

Definition sampleKeep (c : ConnHandler) : ConnHandler := c.

Definition sampleReleaseReference (c : ConnHandler) : ConnHandler :=
  {| getName := getName c; getCookie := getCookie c; connType := connType c;
     doDisconnect := doDisconnect c; isReserved := false;
     getLastWalkTime := getLastWalkTime c; notifiable := notifiable c;
     streams := streams c; getVBVector := getVBVector c |}.

Definition sampleVbucketStateChanged (vbucket : Z) (state : vbucket_state_t)
    (c : ConnHandler) : ConnHandler :=
  {| getName := getName c; getCookie := getCookie c; connType := connType c;
     doDisconnect := doDisconnect c; isReserved := isReserved c;
     getLastWalkTime := getLastWalkTime c; notifiable := notifiable c;
     streams := filter (λ vb, vb ≠ vbucket) (streams c);
     getVBVector := getVBVector c |}.

Definition sampleCloseSlowStream (vbid : Z) (name : string) (c : ConnHandler)
  : bool * ConnHandler :=
  (String.eqb (getName c) name, c).

Definition sampleDisconnect : N → ConnMap → ConnMap :=
  disconnect sampleCloseAllStreams sampleKeep sampleCloseAllStreams sampleKeep.

Lemma sampleTeardown_keepsIdentity :
  keepsIdentity (teardown sampleCloseAllStreams sampleKeep
                          sampleCloseAllStreams sampleKeep).
Proof. intros c. unfold teardown. by destruct (isProducer c). Qed.

Lemma oneConsumer_wf : wf oneConsumer.
Proof.
  apply (newConnection_spec sampleDefaults DcpConsumer 1%N "replica" empty
           wf_empty).
Qed.

Lemma oneConsumer_cookies (cookie : N) (p : positive) (c : ConnHandler) :
  cookie ≠ 1%N → p ∈ all oneConsumer → objs oneConsumer !! p = Some c →
  getCookie c ≠ cookie.
Proof.
  intros Hne Hin Hc. change (all oneConsumer) with [1%positive] in Hin.
  apply list_elem_of_singleton in Hin as ->.
  vm_compute in Hc. injection Hc as <-. simpl. done.
Qed.

(** Cookie 9 is unknown to the registry of one consumer. *)
Lemma disconnect_unknown_cookie_witness :
  sampleDisconnect 9%N oneConsumer = oneConsumer.
Proof.
  apply (disconnect_unknown_cookie sampleCloseAllStreams sampleKeep
           sampleCloseAllStreams sampleKeep 9%N oneConsumer).
  - reflexivity.
  - intros p c. by apply oneConsumer_cookies.
Defined.

(** [disconnect] of the one consumer. *)
Lemma disconnect_known_cookie_witness :
  map_ (sampleDisconnect 1%N oneConsumer) !! 1%N = None ∧
  deadConnections (sampleDisconnect 1%N oneConsumer) = [1%positive] ∧
  all (sampleDisconnect 1%N oneConsumer) = [] ∧
  markedForDisconnect (sampleDisconnect 1%N oneConsumer) 1%positive.
Proof.
  destruct (disconnect_known_cookie sampleCloseAllStreams sampleKeep
              sampleCloseAllStreams sampleKeep 1%N 1%positive oneConsumer)
    as (Hmap & _ & Hdead & _ & _ & _ & _ & Hall).
  - reflexivity.
  - exact sampleTeardown_keepsIdentity.
  - destruct (Hall [] 1%positive []
                (construct sampleDefaults DcpConsumer 1%N "eq_dcpq:replica"))
      as [Hall' Hmark]; [reflexivity|reflexivity|reflexivity| |].
    + by intros q d ?%elem_of_nil.
    + split_and!; [exact Hmap|exact Hdead|exact Hall'|exact Hmark].
Defined.

Lemma disconnect_keeps_invariant_witness :
  wf (sampleDisconnect 1%N oneConsumer).
Proof.
  apply (disconnect_keeps_invariant sampleCloseAllStreams sampleKeep
           sampleCloseAllStreams sampleKeep 1%N oneConsumer).
  - exact sampleTeardown_keepsIdentity.
  - exact oneConsumer_wf.
Defined.

(** Connect on cookie 1 to the empty registry, then disconnect. *)
Lemma connect_disconnect_round_trip_witness :
  all (sampleDisconnect 1%N oneConsumer) = [] ∧
  map_ (sampleDisconnect 1%N oneConsumer) = ∅ ∧
  deadConnections (sampleDisconnect 1%N oneConsumer) = [1%positive].
Proof.
  destruct (connect_disconnect_round_trip sampleDefaults sampleCloseAllStreams
              sampleKeep sampleCloseAllStreams sampleKeep
              1%N "replica" false empty)
    as ((Hall & Hmap & Hdead & _) & _).
  - exact wf_empty.
  - reflexivity.
  - by intros p c ?%elem_of_nil.
  - split_and!; [exact Hall|exact Hmap|exact Hdead].
Defined.

(** The producer of [oneProducer] last walked at time 0: after a pass at
    time 3, a pass at time 10 notifies it. *)
Lemma second_pass_notifies_only_idle_witness :
  NotifyIOComplete 1%positive 3%N ENGINE_SUCCESS
    ∈ (manageConnections sampleReleaseReference sampleKeep 10
         (manageConnections sampleReleaseReference sampleKeep 3 oneProducer).2).1.
Proof.
  destruct (second_pass_notifies_only_idle sampleReleaseReference sampleKeep
              3 10 oneProducer 3%N 1%positive
              (construct sampleDefaults (DcpProducer false) 3%N "eq_dcpq:xdcr")
              {| isPaused := true; sentNotify := true |})
    as (_ & Hiff).
  - reflexivity.
  - reflexivity.
  - apply not_elem_of_nil.
  - reflexivity.
  - reflexivity.
  - reflexivity.
  - by left.
  - apply Hiff. vm_compute. reflexivity.
Defined.

(** Connections that start neither paused nor notified. *)
Definition quietDefaults (ty : ConnType) : ConnHandler :=
  {| getName := ""; getCookie := 0%N; connType := ty;
     doDisconnect := false; isReserved := true; getLastWalkTime := 0;
     notifiable := Some {| isPaused := false; sentNotify := false |};
     streams := []; getVBVector := [] |}.

Definition quietConsumer : ConnMap :=
  snd (newConsumer quietDefaults 1%N "replica" empty).

(** A second "replica" on cookie 2 displaces the first, which the next pass
    notifies. *)
Lemma displaced_namesake_is_notified_witness :
  NotifyIOComplete 1%positive 1%N ENGINE_SUCCESS
    ∈ (manageConnections sampleReleaseReference sampleKeep 0
         (newConsumer quietDefaults 2%N "replica" quietConsumer).2).1.
Proof.
  apply (displaced_namesake_is_notified quietDefaults sampleReleaseReference
           sampleKeep 0 2%N "replica" false quietConsumer 1%N 1%positive
           (construct quietDefaults DcpConsumer 1%N "eq_dcpq:replica")
           {| isPaused := false; sentNotify := false |}).
  - apply (newConnection_spec quietDefaults DcpConsumer 1%N "replica" empty
             wf_empty).
  - vm_compute. left.
  - reflexivity.
  - discriminate.
  - reflexivity.
  - reflexivity.
  - reflexivity.
  - reflexivity.
  - reflexivity.
Defined.

(** The producer of [oneProducer] is paused and idle, yet the pass after
    its [disconnect] does not notify it. *)
Lemma disconnected_connection_is_reaped_witness :
  map_ (manageConnections sampleReleaseReference sampleKeep 10
          (sampleDisconnect 3%N oneProducer)).2 !! 3%N = None ∧
  NotifyIOComplete 1%positive 3%N ENGINE_SUCCESS
    ∉ (manageConnections sampleReleaseReference sampleKeep 10
         (sampleDisconnect 3%N oneProducer)).1.
Proof.
  destruct (disconnected_connection_is_reaped sampleReleaseReference
              sampleKeep sampleCloseAllStreams sampleKeep sampleCloseAllStreams sampleKeep
              10 3%N 1%positive oneProducer)
    as (Hno & _ & Hmap & _).
  - reflexivity.
  - intros k Hk. destruct (decide (k = 3%N)) as [->|Hne]; [done|].
    change (map_ oneProducer) with (<[3%N := 1%positive]> (∅ : gmap N positive))
      in Hk.
    by rewrite lookup_insert_ne, lookup_empty in Hk.
  - split; [exact Hmap|apply Hno].
Defined.

(** The consumer of [oneStream] keeps its stream for vbucket 7 through a
    state change that does not close inbound streams. *)
Lemma fanout_respects_dynamic_type_witness :
  (streams <$> objs (vbucketStateChanged sampleVbucketStateChanged
                       sampleVbucketStateChanged 7 vbucket_state_dead false
                       oneStream) !! 1%positive) = Some [7].
Proof.
  destruct (fanout_respects_dynamic_type sampleVbucketStateChanged
              sampleVbucketStateChanged sampleKeep 7 vbucket_state_dead false
              oneStream 1%positive
              {| getName := "eq_dcpq:replica"; getCookie := 1%N;
                 connType := DcpConsumer; doDisconnect := false;
                 isReserved := true; getLastWalkTime := 0;
                 notifiable := Some {| isPaused := true; sentNotify := true |};
                 streams := [7]; getVBVector := [] |})
    as (Hcons & _).
  - reflexivity.
  - destruct (Hcons eq_refl) as [-> _]. reflexivity.
Defined.

(** The producer of [oneProducer], listed for vbucket 7. *)
Definition listedProducer : ConnMap :=
  {| objs := objs oneProducer; all := all oneProducer;
     map_ := map_ oneProducer; deadConnections := [];
     vbConns := {[ 7 := [1%positive] ]} |}.

Lemma closeSlowStream_first_match_witness :
  ∃ pre p post c,
    connsOf (vbConns listedProducer) 7 = pre ++ p :: post ∧
    objs listedProducer !! p = Some c ∧
    (sampleCloseSlowStream 7 "eq_dcpq:xdcr" c).1 = true.
Proof.
  destruct (closeSlowStream_first_match sampleCloseSlowStream 7 "eq_dcpq:xdcr"
              listedProducer) as (_ & _ & _ & Htrue & _).
  - change (connsOf (vbConns listedProducer) 7) with [1%positive].
    apply NoDup_singleton.
  - destruct (Htrue eq_refl)
      as (pre & p & post & c & Hsplit & Hc & Hres & _).
    by exists pre, p, post, c.
Defined.

(** The consumer of [oneStream], with its passive stream for vbucket 7. *)
Definition streamingConsumer : ConnHandler :=
  {| getName := "eq_dcpq:replica"; getCookie := 1%N; connType := DcpConsumer;
     doDisconnect := false; isReserved := true; getLastWalkTime := 0;
     notifiable := Some {| isPaused := true; sentNotify := true |};
     streams := [7]; getVBVector := [] |}.

Lemma oneStream_wf : wf oneStream.
Proof.
  assert (Hmap : ∀ k p, map_ oneStream !! k = Some p →
                        k = 1%N ∧ p = 1%positive).
  { intros k p Hk.
    change (map_ oneStream) with (<[1%N := 1%positive]> (∅ : gmap N positive))
      in Hk.
    destruct (decide (k = 1%N)) as [->|Hne].
    - rewrite lookup_insert_eq in Hk. by injection Hk as <-.
    - by rewrite lookup_insert_ne, lookup_empty in Hk. }
  split.
  - intros p Hp. change (all oneStream) with [1%positive] in Hp.
    apply list_elem_of_singleton in Hp as ->. by exists streamingConsumer.
  - intros k p [-> ->]%Hmap. by exists streamingConsumer.
  - change (nameOf (objs oneStream) <$> all oneStream)
      with [nameOf (objs oneStream) 1%positive].
    apply NoDup_singleton.
  - intros k p c [-> ->]%Hmap Hout. destruct Hout.
    change (all oneStream) with [1%positive]. left.
Qed.

Lemma oneStream_alone (q : positive) : q ∈ all oneStream → q = 1%positive.
Proof.
  change (all oneStream) with [1%positive]. apply list_elem_of_singleton.
Qed.

(** The stream for vbucket 7 blocks a second one until its consumer is
    disconnected. *)
Lemma disconnect_frees_vbucket_witness :
  isPassiveStreamConnected_UNLOCKED sampleIsStreamPresent 7 oneStream = true ∧
  isPassiveStreamConnected_UNLOCKED sampleIsStreamPresent 7
    (sampleDisconnect 1%N oneStream) = false.
Proof.
  split; [reflexivity|].
  apply (disconnect_frees_vbucket sampleIsStreamPresent sampleAddStream
           sampleCloseAllStreams sampleKeep sampleCloseAllStreams sampleKeep
           1%N 1%positive streamingConsumer 7 oneStream).
  - change (all oneStream) with [1%positive]. apply NoDup_singleton.
  - change (all oneStream) with [1%positive]. left.
  - reflexivity.
  - reflexivity.
  - reflexivity.
  - by intros q d ->%oneStream_alone.
  - by intros q d ->%oneStream_alone.
Defined.

(** A second "replica" on cookie 2 displaces the consumer that holds the
    stream for vbucket 7. *)
Lemma reconnect_frees_vbucket_witness :
  isPassiveStreamConnected_UNLOCKED sampleIsStreamPresent 7
    (newConsumer sampleDefaults 2%N "replica" oneStream).2 = false.
Proof.
  apply (reconnect_frees_vbucket sampleDefaults sampleIsStreamPresent
           2%N "replica" 1%positive streamingConsumer 7 oneStream).
  - exact oneStream_wf.
  - change (all oneStream) with [1%positive]. left.
  - reflexivity.
  - reflexivity.
  - by intros q d ->%oneStream_alone.
  - reflexivity.
Defined.

End DcpConnMap.

(** ** The UPR consumer entry points of EventuallyPersistentEngine *)

Module Upr.

(** [ItemMetaData(cas, revSeqno, flags, exptime)] *)
Record ItemMetaData := mkItemMetaData {
  cas : Z;
  revSeqno : Z;
  flags : Z;
  exptime : Z
}.

(** [std::string k(static_cast<const char*>(key), nkey)]: the first [nkey]
    bytes at [key]. *)
Definition mkKey (key : list Byte.byte) (nkey : Z) : list Byte.byte :=
  take (Z.to_nat nkey) key.

Section Engine.

(** The engine state, the consumer objects, and the engine code these entry
    points call, all outside src/upr-consumer.cc: [getEngineSpecific]
    ([None] for a null pointer), [ConnHandlerMutate], [ConnHandlerDelete],
    [flush], [Item::nextCas] and the constant [DEFAULT_REV_SEQ_NUM]. *)
Variable Engine : Type.
Variable UprConsumer : Type.
Variable getEngineSpecific : Engine → N → option UprConsumer.
Variable ConnHandlerMutate :
  UprConsumer → list Byte.byte → N → Z → Z → Z → Z → Z → bool →
  list Byte.byte → Z → Engine → ENGINE_ERROR_CODE * Engine.
Variable ConnHandlerDelete :
  UprConsumer → list Byte.byte → N → Z → bool → ItemMetaData →
  Engine → ENGINE_ERROR_CODE * Engine.
Variable flush : N → Z → Engine → ENGINE_ERROR_CODE * Engine.
Variable nextCas : Engine → Z * Engine.
Variable DEFAULT_REV_SEQ_NUM : Z.

(** [EventuallyPersistentEngine::uprMutation] *)
Definition uprMutation (cookie : N) (opaque : Z) (key : list Byte.byte)
    (nkey : Z) (value : list Byte.byte) (nvalue : Z) (cas vbucket flags : Z)
    (datatype : Z) (bySeqno revSeqno expiration lockTime : Z) (e : Engine)
  : ENGINE_ERROR_CODE * Engine :=
  match getEngineSpecific e cookie with
  | None => (ENGINE_DISCONNECT, e)
  | Some consumer =>
      let k := mkKey key nkey in
      ConnHandlerMutate consumer k cookie flags expiration cas revSeqno
                        vbucket true value nvalue e
  end.

(** [EventuallyPersistentEngine::uprDeletion] *)
Definition uprDeletion (cookie : N) (opaque : Z) (key : list Byte.byte)
    (nkey : Z) (cas vbucket bySeqno revSeqno : Z) (e : Engine)
  : ENGINE_ERROR_CODE * Engine :=
  match getEngineSpecific e cookie with
  | None => (ENGINE_DISCONNECT, e)
  | Some consumer =>
      let k := mkKey key nkey in
      let itemMeta := mkItemMetaData cas DEFAULT_REV_SEQ_NUM 0 0 in
      let '(cas', e1) :=
        if Upr.cas itemMeta =? 0 then nextCas e
        else (Upr.cas itemMeta, e) in
      let itemMeta :=
        mkItemMetaData cas'
          (if negb (revSeqno =? 0) then revSeqno else DEFAULT_REV_SEQ_NUM)
          (Upr.flags itemMeta) (Upr.exptime itemMeta) in
      ConnHandlerDelete consumer k cookie vbucket true itemMeta e1
  end.

(** [EventuallyPersistentEngine::uprExpiration] *)
Definition uprExpiration (cookie : N) (opaque : Z) (key : list Byte.byte)
    (nkey : Z) (cas vbucket bySeqno revSeqno : Z) (e : Engine)
  : ENGINE_ERROR_CODE * Engine :=
  uprDeletion cookie opaque key nkey cas vbucket bySeqno revSeqno e.

(** [EventuallyPersistentEngine::uprFlush] *)
Definition uprFlush (cookie : N) (opaque vbucket : Z) (e : Engine)
  : ENGINE_ERROR_CODE * Engine :=
  flush cookie 0 e.

(** C7: [uprFlush] is the bucket-wide [flush(cookie, 0)], with its status and
    its effect on the engine, whatever the opaque and the vbucket: it reads
    neither, so two calls that differ only there are the same call. *)
Theorem uprFlush_is_bucket_flush (cookie : N) (opaque vbucket : Z) (e : Engine) :
  uprFlush cookie opaque vbucket e = flush cookie 0 e ∧
  ∀ opaque' vbucket', uprFlush cookie opaque' vbucket' e =
                      uprFlush cookie opaque vbucket e.
Proof. split; [reflexivity | intros; reflexivity]. Qed.

(** C9: for a cookie with no engine-specific consumer, [uprMutation] and
    [uprDeletion] return [ENGINE_DISCONNECT] and leave the engine as it is:
    neither [ConnHandlerMutate], [ConnHandlerDelete] nor [Item::nextCas]
    runs. *)
Theorem upr_without_consumer_disconnects (cookie : N) (e : Engine)
    (opaque : Z) (key : list Byte.byte) (nkey : Z) (value : list Byte.byte)
    (nvalue cas vbucket flags datatype bySeqno revSeqno expiration lockTime : Z) :
  getEngineSpecific e cookie = None →
  uprMutation cookie opaque key nkey value nvalue cas vbucket flags datatype
              bySeqno revSeqno expiration lockTime e = (ENGINE_DISCONNECT, e) ∧
  uprDeletion cookie opaque key nkey cas vbucket bySeqno revSeqno e
    = (ENGINE_DISCONNECT, e).
Proof.
  intros Hnull. unfold uprMutation, uprDeletion. rewrite Hnull. by split.
Qed.

(** C10: [uprExpiration] is [uprDeletion] on the same arguments: the same
    status and the same engine afterwards. *)
Theorem uprExpiration_is_uprDeletion (cookie : N) (opaque : Z)
    (key : list Byte.byte) (nkey cas vbucket bySeqno revSeqno : Z) (e : Engine) :
  uprExpiration cookie opaque key nkey cas vbucket bySeqno revSeqno e =
  uprDeletion cookie opaque key nkey cas vbucket bySeqno revSeqno e.
Proof. reflexivity. Qed.

(** X23: with a consumer attached, [uprDeletion] is one [ConnHandlerDelete]
    for the first [nkey] bytes of the key, with the meta flag set and item
    metadata that is never blank: flags and expiry are 0; the cas is the
    caller's, and the engine is passed on untouched, unless the caller's cas
    is 0, when one cas is drawn from [Item::nextCas]; the revision seqno is
    the caller's unless that is 0, when it is [DEFAULT_REV_SEQ_NUM].  So
    when [nextCas] does not give 0 and [DEFAULT_REV_SEQ_NUM] is not 0,
    neither the cas nor the revision seqno handed down is 0. *)
Theorem uprDeletion_meta_is_normalised (cookie : N) (consumer : UprConsumer)
    (opaque : Z) (key : list Byte.byte) (nkey cas vbucket bySeqno revSeqno : Z)
    (e : Engine) :
  getEngineSpecific e cookie = Some consumer →
  fst (nextCas e) ≠ 0 → DEFAULT_REV_SEQ_NUM ≠ 0 →
  ∃ itemMeta e1,
    uprDeletion cookie opaque key nkey cas vbucket bySeqno revSeqno e
      = ConnHandlerDelete consumer (mkKey key nkey) cookie vbucket true
                          itemMeta e1 ∧
    Upr.cas itemMeta ≠ 0 ∧ Upr.revSeqno itemMeta ≠ 0 ∧
    Upr.flags itemMeta = 0 ∧ Upr.exptime itemMeta = 0 ∧
    (cas ≠ 0 → Upr.cas itemMeta = cas ∧ e1 = e) ∧
    (cas = 0 → (Upr.cas itemMeta, e1) = nextCas e) ∧
    (revSeqno ≠ 0 → Upr.revSeqno itemMeta = revSeqno) ∧
    (revSeqno = 0 → Upr.revSeqno itemMeta = DEFAULT_REV_SEQ_NUM) ∧
    (0 ≤ nkey ≤ Z.of_nat (length key) →
     Z.of_nat (length (mkKey key nkey)) = nkey).
Proof.
  intros Hsome Hnext Hdef. unfold uprDeletion. rewrite Hsome. simpl.
  assert (Hkey : 0 ≤ nkey ≤ Z.of_nat (length key) →
                 Z.of_nat (length (mkKey key nkey)) = nkey).
  { intros Hn. unfold mkKey. rewrite length_take. lia. }
  destruct (Z.eqb_spec cas 0) as [Hcas|Hcas];
    destruct (Z.eqb_spec revSeqno 0) as [Hrev|Hrev]; simpl.
  - destruct (nextCas e) as [cas' e1] eqn:Hn. simpl in Hnext.
    exists (mkItemMetaData cas' DEFAULT_REV_SEQ_NUM 0 0), e1. simpl.
    split_and!; done.
  - destruct (nextCas e) as [cas' e1] eqn:Hn. simpl in Hnext.
    exists (mkItemMetaData cas' revSeqno 0 0), e1. simpl.
    split_and!; done.
  - exists (mkItemMetaData cas DEFAULT_REV_SEQ_NUM 0 0), e. simpl.
    split_and!; done.
  - exists (mkItemMetaData cas revSeqno 0 0), e. simpl.
    split_and!; done.
Qed.

End Engine.

(** *** The entry points on a concrete engine

    The engine is the log of what was applied to it; only cookie 1 has a
    consumer attached. *)

Inductive Applied :=
| Mutated (vbucket : Z) (key : list Byte.byte)
| Deleted (vbucket : Z) (key : list Byte.byte)
| Flushed
| CasDrawn.

Definition sampleSpecific (e : list Applied) (cookie : N) : option unit :=
  if (cookie =? 1)%N then Some tt else None.

Definition sampleMutate (consumer : unit) (k : list Byte.byte) (cookie : N)
    (flags exptime cas revSeqno vbucket : Z) (meta : bool)
    (value : list Byte.byte) (nvalue : Z) (e : list Applied)
  : ENGINE_ERROR_CODE * list Applied :=
  (ENGINE_SUCCESS, Mutated vbucket k :: e).

Definition sampleDelete (consumer : unit) (k : list Byte.byte) (cookie : N)
    (vbucket : Z) (meta : bool) (itemMeta : ItemMetaData) (e : list Applied)
  : ENGINE_ERROR_CODE * list Applied :=
  (ENGINE_SUCCESS, Deleted vbucket k :: e).

Definition sampleNextCas (e : list Applied) : Z * list Applied :=
  (Z.of_nat (length e) + 1, CasDrawn :: e).

Lemma upr_without_consumer_disconnects_witness :
  uprMutation (list Applied) unit sampleSpecific sampleMutate
    2%N 0 [Byte.x6b] 1 [Byte.x76] 1 0 7 0 0 1 1 0 0 [] = (ENGINE_DISCONNECT, []) ∧
  uprDeletion (list Applied) unit sampleSpecific sampleDelete sampleNextCas 1
    2%N 0 [Byte.x6b] 1 0 7 1 1 [] = (ENGINE_DISCONNECT, []).
Proof.
  apply (upr_without_consumer_disconnects (list Applied) unit sampleSpecific
           sampleMutate sampleDelete sampleNextCas 1 2%N []).
  reflexivity.
Defined.

(** A deletion with cas 0 and revision seqno 0 on cookie 1, with
    [DEFAULT_REV_SEQ_NUM] 1. *)
Lemma uprDeletion_meta_is_normalised_witness :
  ∃ itemMeta e1,
    uprDeletion (list Applied) unit sampleSpecific sampleDelete sampleNextCas 1
      1%N 0 [Byte.x6b; Byte.x65; Byte.x79] 1 0 7 1 0 []
      = sampleDelete tt [Byte.x6b] 1%N 7 true itemMeta e1 ∧
    cas itemMeta ≠ 0 ∧ revSeqno itemMeta ≠ 0.
Proof.
  destruct (uprDeletion_meta_is_normalised (list Applied) unit sampleSpecific
              sampleDelete sampleNextCas 1 1%N tt 0
              [Byte.x6b; Byte.x65; Byte.x79] 1 0 7 1 0 [])
    as (itemMeta & e1 & Hcall & Hcas & Hrev & _).
  - reflexivity.
  - simpl. lia.
  - lia.
  - exists itemMeta, e1. split_and!; [exact Hcall|exact Hcas|exact Hrev].
Defined.

End Upr.
